(** * img_resize: the three-stage pipeline (mirror, transcode, publish)

  A shallow embedding of [backend/sftp_sync.py], [backend/image_compress.py],
  [backend/sftp_upload.py] and of the stage supervision code of
  [backend/main.py], with the properties of the specification stated
  over it.

  Conventions of the embedding.
  - A path is the list of its components.  A local tree is a finite map
    from paths to nodes; the empty path is the tree's root and always
    exists.  The mirror stage keys its tree relative to [local_dir]; the
    transcode and publish stages, which work on two directories at once,
    key theirs from the file system's root.
  - [st_mtime] is a float number of seconds in Python.  It is kept here
    as an integer number of nanoseconds (the resolution of the
    underlying [st_mtime_ns]); the rounding of doubles is not modelled.
    Python's [int(x)] truncates towards zero: [py_int].
  - SFTP attributes carry unsigned fields ([N]): a size and times in
    whole seconds.
  - The [log] callback appends to a list;  the [should_stop] callback
    reads a flag another thread may set at any moment, so it is a
    function of the number of polls made so far. *)

From Stdlib Require Import ZArith Lia Ascii.
From stdpp Require Import base option list gmap strings fin_maps.

Local Open Scope Z_scope.

Abbreviation path := (list string).
Abbreviation bytes := (list Byte.byte).

(** ** Time *)

Definition NS : Z := 1000000000.

(** [int(t)] for a time [t] held in nanoseconds. *)
Definition py_int (ns : Z) : Z := Z.quot ns NS.


(** A whole number of seconds as a float time. *)
Definition of_seconds (s : N) : Z := Z.of_N s * NS.

(** ** Local trees *)

Record file := File { f_data : bytes; f_atime : Z; f_mtime : Z }.

Inductive node :=
| NFile (f : file)
| NDir.

Abbreviation tree := (gmap (list string) node).

(** [os.stat_result], the fields the code reads. *)
Record stat_result := Stat { st_size : Z; st_atime : Z; st_mtime : Z }.

Definition stat_of (f : file) : stat_result :=
  {| st_size := Z.of_nat (length (f_data f));
     st_atime := f_atime f;
     st_mtime := f_mtime f |}.

Definition lookup_node (t : tree) (p : path) : option node :=
  match p with
  | [] => Some NDir
  | _ => t !! p
  end.

Definition path_exists (t : tree) (p : path) : bool :=
  match lookup_node t p with Some _ => true | None => false end.

Definition is_dir (t : tree) (p : path) : bool :=
  match lookup_node t p with Some NDir => true | _ => false end.

Definition is_file (t : tree) (p : path) : bool :=
  match lookup_node t p with Some (NFile _) => true | _ => false end.

Definition parent (p : path) : path := removelast p.

(** [Path.mkdir(parents=True, exist_ok=True)] and [os.makedirs(p,
    exist_ok=True)]: the missing components are created from the top
    down; [None] is the [FileExistsError]/[NotADirectoryError] raised when
    a component is a regular file. *)
Fixpoint mkdir_from (t : tree) (pre rest : path) : option tree :=
  match rest with
  | [] => Some t
  | c :: rest' =>
      let q := pre ++ [c] in
      match t !! q with
      | Some NDir => mkdir_from t q rest'
      | Some (NFile _) => None
      | None => mkdir_from (<[q := NDir]> t) q rest'
      end
  end.

Definition mkdir_parents (t : tree) (p : path) : option tree := mkdir_from t [] p.

(** [open(p, "wb")]: creates or truncates; raises on a directory or when
    the parent is not a directory. *)
Definition open_wb (now : Z) (t : tree) (p : path) : option tree :=
  match p with
  | [] => None
  | _ =>
      if is_dir t (parent p) then
        match t !! p with
        | Some NDir => None
        | Some (NFile f) => Some (<[p := NFile (File [] (f_atime f) now)]> t)
        | None => Some (<[p := NFile (File [] now now)]> t)
        end
      else None
  end.

(** [dst.write(chunk)] on the file opened at [p]. *)
Definition write_chunk (now : Z) (t : tree) (p : path) (chunk : bytes) : tree :=
  match t !! p with
  | Some (NFile f) => <[p := NFile (File (f_data f ++ chunk) (f_atime f) now)]> t
  | _ => t
  end.

(** [os.utime(p, (atime, mtime))] with times in whole seconds. *)
Definition utime (t : tree) (p : path) (atime mtime : N) : option tree :=
  match lookup_node t p with
  | Some (NFile f) => Some (<[p := NFile (File (f_data f) (of_seconds atime) (of_seconds mtime))]> t)
  | Some NDir => Some t
  | None => None
  end.

(** [Path(p).relative_to(base)]; [None] is its [ValueError]. *)
Fixpoint relative_to (p base : path) {struct base} : option path :=
  match base, p with
  | [], _ => Some p
  | b :: base', c :: p' => if decide (b = c) then relative_to p' base' else None
  | _ :: _, [] => None
  end.

(** ** The log sink *)

Inductive level := INFO | WARN | ERROR.

Global Instance level_eq_dec : EqDecision level.
Proof. solve_decision. Defined.

Inductive message :=
| MsgBaseDir | MsgConnecting | MsgAuthMethod | MsgConnected
| MsgRemoteDir | MsgLocalDir
| MsgListRemote | MsgListedRemote (n : nat)
| MsgListLocal | MsgListedLocal (n : nat)
| MsgStopped | MsgStoppedBeforeCopy | MsgStoppedDuringCopy (rel : path)
| MsgDirCreated (rel : path)
| MsgSkip (rel : path)
| MsgOverwriteRemoteNewer (rel : path)
| MsgOverwriteLocalNewer (rel : path)
| MsgOverwriteSize (rel : path)
| MsgNew (rel : path)
| MsgCopyStart (rel : path)
| MsgGet (remote_path : path)
| MsgCopyDone (rel : path)
| MsgItemError (remote_path : path)
| MsgSyncFailed
| MsgClosed
| MsgSummary (dirs copied skipped : nat)
(* image_compress.py *)
| MsgInputMissing
| MsgCompressStart | MsgQuality | MsgResize
| MsgCompressStopped
| MsgCompressed (rel : path)
| MsgCompressError (rel : path)
| MsgCompressSummary (total compressed skipped errors : nat) (saved : Z)
| MsgWatchStart | MsgWatchConfig
| MsgWatchCycle (cycle compressed skipped errors : nat)
| MsgWatchStopped (cycles : nat)
(* sftp_upload.py *)
| MsgUploadDirMissing
| MsgUploadStopped
| MsgNothingToUpload
| MsgUploadStart | MsgUploadCount (n : nat)
| MsgUploadConnected
| MsgUploadInterrupted
| MsgUploading (name : string)
| MsgUploaded (name : string)
| MsgUploadError (name : string)
| MsgUploadFailed (rel : path)
| MsgDeleteStart (n : nat)
| MsgDeleteInterrupted
| MsgDeleted (name : string)
| MsgDeleteError (name : string)
| MsgPruneStart
| MsgPruned (rel : path)
| MsgPruneError (rel : path)
| MsgUploadRaised
| MsgUploadClosed
| MsgUploadSummary (uploaded : nat) (bytes : Z) (deleted errors : nat)
| MsgUploadWatchStart | MsgUploadWatchInterval
| MsgUploadCycleStart (cycle : nat)
| MsgUploadCycle (cycle uploaded : nat) (bytes : Z) (deleted : nat)
| MsgUploadCycleError (cycle : nat)
| MsgUploadWatchStopped (cycles : nat)
| MsgUploadWatchSummary (uploaded : nat) (bytes : Z) (deleted errors : nat)
(* main.py *)
| MsgNoSettings
| MsgAlreadyRunning
| MsgMissingLocalDir
| MsgMissingOutputDir
| MsgMissingRemoteOutputDir
| MsgOneShot
| MsgOneShotDone
| MsgStageError
| MsgStageSummary
| MsgStageFailed
| MsgRunRequested
| MsgStopRequested
| MsgForceUnlock.

Global Instance message_eq_dec : EqDecision message.
Proof. solve_decision. Defined.

Abbreviation log_entry := (level * message)%type.

(** ** The remote side of the mirror stage *)

(** [paramiko.SFTPAttributes]. *)
Record sftp_attrs := Attrs {
  a_isdir : bool;       (* stat.S_ISDIR(st_mode) *)
  a_size : N;
  a_atime : N;
  a_mtime : N
}.

Global Instance sftp_attrs_eq_dec : EqDecision sftp_attrs.
Proof. solve_decision. Defined.

(** What [sftp.listdir_attr] answers on a directory and below it. *)
#[warnings="-register-all"]
Inductive rtree :=
| RListing (entries : list (string * sftp_attrs * rtree))
| RListErr.

(** One answer of [src.read(chunk_size)]: data, end of file (empty), or
    an exception. *)
Inductive read_result :=
| ReadData (chunk : bytes)
| ReadRaises.

Definition chunk_size : N := 1024 * 1024.

Record sftp_server := Server {
  connect_ok : bool;
  remote_root : rtree;
  (* [sftp.open(p, "rb")]: [None] raises, otherwise the answers of the
     successive reads; past the end of the list a read returns [b""]. *)
  sftp_open : path -> option (list read_result)
}.

(** [schemas.SftpSettings]; the connection fields (host, port, user,
    password, key) only reach [paramiko] and are left out.  [remote_dir]
    is kept as the path it denotes. *)
Record SftpSettings := Settings {
  remote_dir : path;
  local_dir : string;
  compress_output_dir : option string;
  compress_quality : Z;
  resize_width_dpi : option Z;
  remote_output_dir : option string;
  sync_interval_seconds : Z;
  compress_interval_seconds : Z;
  upload_interval_seconds : Z
}.

(** [_list_remote]: entries in listing order, a directory before what is
    below it; a listing that raises contributes nothing. *)
Fixpoint _list_remote (sftp : rtree) (remote_dir : path) : list (path * sftp_attrs) :=
  match sftp with
  | RListErr => []
  | RListing entries =>
      (fix go (es : list (string * sftp_attrs * rtree)) : list (path * sftp_attrs) :=
         match es with
         | [] => []
         | (filename, entry, sub) :: es' =>
             let remote_path := remote_dir ++ [filename] in
             (remote_path, entry)
               :: (if a_isdir entry then _list_remote sub remote_path else [])
               ++ go es'
         end) entries
  end.

(** [_list_local]: every regular file of the tree with its [stat()]. *)
Definition _list_local (base : tree) : gmap (list string) stat_result :=
  omap (fun n => match n with NFile f => Some (stat_of f) | NDir => None end) base.

Arguments _list_local : simpl never.

(** ** sync_once *)

Record sync_state := SyncState {
  s_fs : tree;
  s_log : list log_entry;
  s_polls : nat;
  copied : nat;
  skipped : nat;
  dirs_created : nat
}.

Definition set_fs (t : tree) (s : sync_state) : sync_state :=
  SyncState t (s_log s) (s_polls s) (copied s) (skipped s) (dirs_created s).

Definition log (l : level) (m : message) (s : sync_state) : sync_state :=
  SyncState (s_fs s) (s_log s ++ [(l, m)]) (s_polls s) (copied s) (skipped s) (dirs_created s).

(** One call of [should_stop()]. *)
Definition poll (should_stop : nat -> bool) (s : sync_state) : bool * sync_state :=
  (should_stop (s_polls s),
   SyncState (s_fs s) (s_log s) (S (s_polls s)) (copied s) (skipped s) (dirs_created s)).

Arguments set_fs t s /.
Arguments log l m s /.
Arguments poll should_stop s /.

Inductive control := Next | Break | Raised.

(** The [while True] loop over the chunks of one file.  [Next] is the loop
    left by one of its [break]s (stop observed, or end of file); [Raised]
    is an exception of [src.read]. *)
Fixpoint copy_chunks (should_stop : nat -> bool) (now : Z) (rel_path : path)
    (reads : list read_result) (s : sync_state) : control * sync_state :=
  let (stop, s) := poll should_stop s in
  if stop then (Next, log WARN (MsgStoppedDuringCopy rel_path) s)
  else
    match reads with
    | [] => (Next, s)
    | ReadRaises :: _ => (Raised, s)
    | ReadData [] :: _ => (Next, s)
    | ReadData chunk :: reads' =>
        copy_chunks should_stop now rel_path reads'
          (set_fs (write_chunk now (s_fs s) rel_path chunk) s)
    end.

(** Lines 162-181: the comparison of the remote attributes with the
    entry of the local index.  [inl] is the [continue] of the skip branch
    (before [skipped += 1]), [inr] falls through to the copy. *)
Definition compare_local (local_stat : option stat_result) (attrs : sftp_attrs)
    (rel_path : path) (s : sync_state) : sync_state + sync_state :=
  match local_stat with
  | Some ls =>
      let local_mtime := py_int (st_mtime ls) in
      let remote_mtime := Z.of_N (a_mtime attrs) in
      if (local_mtime =? remote_mtime) && (st_size ls =? Z.of_N (a_size attrs))
      then inl (log INFO (MsgSkip rel_path) s)
      else if local_mtime <? remote_mtime
      then inr (log INFO (MsgOverwriteRemoteNewer rel_path) s)
      else if local_mtime >? remote_mtime
      then inr (log INFO (MsgOverwriteLocalNewer rel_path) s)
      else inr (log INFO (MsgOverwriteSize rel_path) s)
  | None => inr (log INFO (MsgNew rel_path) s)
  end.

(** Lines 183-207: the stop check, the chunked transfer, [os.utime] and
    [copied += 1]. *)
Definition copy_file (srv : sftp_server) (should_stop : nat -> bool) (now : Z)
    (remote_path rel_path : path) (attrs : sftp_attrs) (s : sync_state)
    : control * sync_state :=
  let s := log INFO (MsgCopyStart rel_path) s in
  let s := log INFO (MsgGet remote_path) s in
  let (stop, s) := poll should_stop s in
  if stop then (Break, log WARN MsgStoppedBeforeCopy s)
  else
    match sftp_open srv remote_path with
    | None => (Raised, s)
    | Some reads =>
    match open_wb now (s_fs s) rel_path with
    | None => (Raised, s)
    | Some t2 =>
    match copy_chunks should_stop now rel_path reads (set_fs t2 s) with
    | (Next, s) =>
        match utime (s_fs s) rel_path (a_atime attrs) (a_mtime attrs) with
        | None => (Raised, s)
        | Some t3 =>
            let s := SyncState t3 (s_log s) (s_polls s) (S (copied s)) (skipped s) (dirs_created s) in
            (Next, log INFO (MsgCopyDone rel_path) s)
        end
    | (c, s) => (c, s)
    end
    end
    end.

Definition sync_file (settings : SftpSettings) (srv : sftp_server)
    (should_stop : nat -> bool) (now : Z)
    (local_index : gmap (list string) stat_result)
    (remote_path : path) (attrs : sftp_attrs) (s : sync_state) : control * sync_state :=
  match relative_to remote_path (remote_dir settings) with
  | None => (Raised, s)
  | Some rel_path =>
  match mkdir_parents (s_fs s) (parent rel_path) with
  | None => (Raised, s)
  | Some t1 =>
  let s := set_fs t1 s in
  let local_stat := local_index !! rel_path in
  match compare_local local_stat attrs rel_path s with
  | inl s =>
      (Next, SyncState (s_fs s) (s_log s) (s_polls s) (copied s) (S (skipped s)) (dirs_created s))
  | inr s => copy_file srv should_stop now remote_path rel_path attrs s
  end
  end
  end.

Definition sync_dir (settings : SftpSettings) (remote_path : path)
    (s : sync_state) : control * sync_state :=
  match relative_to remote_path (remote_dir settings) with
  | None => (Raised, s)
  | Some rel_dir =>
      if path_exists (s_fs s) rel_dir then (Next, s)
      else
        match mkdir_parents (s_fs s) rel_dir with
        | None => (Raised, s)
        | Some t1 =>
            let s := SyncState t1 (s_log s) (s_polls s) (copied s) (skipped s) (S (dirs_created s)) in
            (Next, log INFO (MsgDirCreated rel_dir) s)
        end
  end.

(** The body of the [for remote_path, attrs in remote_items] loop: the
    stop check, then the [try] block; an exception is logged and the loop
    goes on. *)
Definition sync_item (settings : SftpSettings) (srv : sftp_server)
    (should_stop : nat -> bool) (now : Z)
    (local_index : gmap (list string) stat_result)
    (item : path * sftp_attrs) (s : sync_state) : control * sync_state :=
  let (remote_path, attrs) := item in
  let (stop, s) := poll should_stop s in
  if stop then (Break, log WARN MsgStopped s)
  else
    let (c, s) :=
      if a_isdir attrs then sync_dir settings remote_path s
      else sync_file settings srv should_stop now local_index remote_path attrs s in
    match c with
    | Raised => (Next, log ERROR (MsgItemError remote_path) s)
    | _ => (c, s)
    end.

Arguments compare_local : simpl never.
Arguments copy_file : simpl never.
Arguments sync_file : simpl never.
Arguments sync_dir : simpl never.
Arguments sync_item : simpl never.

Fixpoint sync_loop (settings : SftpSettings) (srv : sftp_server)
    (should_stop : nat -> bool) (now : Z)
    (local_index : gmap (list string) stat_result)
    (remote_items : list (path * sftp_attrs)) (s : sync_state) : control * sync_state :=
  match remote_items with
  | [] => (Next, s)
  | item :: rest =>
      match sync_item settings srv should_stop now local_index item s with
      | (Next, s) => sync_loop settings srv should_stop now local_index rest s
      | (_, s) => (Break, s)
      end
  end.

(** What [sync_once] hands back: its dictionary, or the exception it
    re-raises when the connection cannot be made. *)
Inductive sync_result :=
| Summary (n_copied n_skipped : nat)
| SyncRaised.

Definition sync_once (settings : SftpSettings) (srv : sftp_server)
    (should_stop : nat -> bool) (now : Z) (polls0 : nat) (local : tree)
    : sync_result * sync_state :=
  let s := SyncState local [] polls0 0 0 0 in
  let s := log INFO MsgBaseDir s in
  let s := log INFO MsgConnecting s in
  let s := log INFO MsgAuthMethod s in
  if connect_ok srv then
    let s := log INFO MsgConnected s in
    let s := log INFO MsgRemoteDir s in
    let s := log INFO MsgLocalDir s in
    let s := log INFO MsgListRemote s in
    let remote_items := _list_remote (remote_root srv) (remote_dir settings) in
    let s := log INFO (MsgListedRemote (length remote_items)) s in
    let s := log INFO MsgListLocal s in
    let local_index := _list_local (s_fs s) in
    let s := log INFO (MsgListedLocal (size local_index)) s in
    let s := snd (sync_loop settings srv should_stop now local_index remote_items s) in
    let s := log INFO MsgClosed s in
    let s := log INFO (MsgSummary (dirs_created s) (copied s) (skipped s)) s in
    (Summary (copied s) (skipped s), s)
  else
    (SyncRaised, log ERROR MsgSyncFailed s).

(** * The transcode stage ([image_compress.py]) *)

(** The trees of this stage and of the publish stage are keyed by
    absolute paths: the input and the output directory are two paths of
    the same disk. *)

(** ** File names ([pathlib]) *)

Definition lower_ascii (c : ascii) : ascii :=
  let n := nat_of_ascii c in
  if ((65 <=? n) && (n <=? 90))%nat then ascii_of_nat (n + 32) else c.

(** [str.lower()], on the ASCII letters. *)
Definition lower (s : string) : string :=
  String.string_of_list_ascii (lower_ascii <$> String.list_ascii_of_string s).

(** [name.rfind(".")], counting from [i]. *)
Fixpoint rfind_dot (cs : list ascii) (i : nat) : option nat :=
  match cs with
  | [] => None
  | c :: cs' =>
      match rfind_dot cs' (S i) with
      | Some j => Some j
      | None => if Ascii.eqb c "." then Some i else None
      end
  end.

(** [PurePath.suffix]: from the last dot, unless the name starts or ends
    with it. *)
Definition suffix (name : string) : string :=
  let cs := String.list_ascii_of_string name in
  match rfind_dot cs 0 with
  | Some i =>
      if ((0 <? i) && (i <? length cs - 1))%nat
      then String.string_of_list_ascii (drop i cs) else ""
  | None => ""
  end.

Definition basename (p : path) : string := default "" (last p).

(** [PurePath.with_suffix]. *)
Definition with_suffix (p : path) (sfx : string) : path :=
  match last p with
  | None => p
  | Some name =>
      let cs := String.list_ascii_of_string name in
      let old := String.length (suffix name) in
      parent p ++ [(String.string_of_list_ascii (take (length cs - old) cs) +:+ sfx)%string]
  end.

Definition IMAGE_EXTENSIONS : list string :=
  [".jpg"; ".jpeg"; ".png"; ".webp"; ".bmp"; ".tiff"; ".tif"].

Definition is_image_file (file_path : path) : bool :=
  bool_decide (lower (suffix (basename file_path)) ∈ IMAGE_EXTENSIONS).

(** ** Walking a tree ([os.walk]) *)

(** [os.scandir]: the entries directly below [d]. *)
Definition children (t : tree) (d : path) : list (string * node) :=
  omap (fun kn : path * node =>
          match relative_to kn.1 d with
          | Some [name] => Some (name, kn.2)
          | _ => None
          end) (map_to_list t).

Definition subdirs (t : tree) (d : path) : list string :=
  omap (fun e : string * node => match e.2 with NDir => Some e.1 | NFile _ => None end)
    (children t d).

Definition files_in (t : tree) (d : path) : list string :=
  omap (fun e : string * node => match e.2 with NFile _ => Some e.1 | NDir => None end)
    (children t d).

(** [os.walk(top)], top-down: a directory, then what lies below each of
    its subdirectories.  The recursion is bounded by the number of
    entries of the tree, which no chain of directories exceeds.  The
    triples are those of the tree as it stands when the walk starts. *)
Fixpoint walk_from (fuel : nat) (t : tree) (top : path) : list (path * list string * list string) :=
  match fuel with
  | O => []
  | S fuel' =>
      (top, subdirs t top, files_in t top)
        :: flat_map (fun name => walk_from fuel' t (top ++ [name])) (subdirs t top)
  end.

Definition walk (t : tree) (top : path) : list (path * list string * list string) :=
  if is_dir t top then walk_from (S (size t)) t top else [].

(** [os.walk(top, topdown=False)]: a directory after what lies below. *)
Fixpoint walk_up_from (fuel : nat) (t : tree) (top : path) : list (path * list string * list string) :=
  match fuel with
  | O => []
  | S fuel' =>
      flat_map (fun name => walk_up_from fuel' t (top ++ [name])) (subdirs t top)
        ++ [(top, subdirs t top, files_in t top)]
  end.

Definition walk_up (t : tree) (top : path) : list (path * list string * list string) :=
  if is_dir t top then walk_up_from (S (size t)) t top else [].

(** ** compress_image *)

(** The image library: decoding, flattening onto white, resizing to the
    given width and JPEG encoding at the given quality, as one function
    from the bytes of the input to the bytes of the output; [None] is an
    exception ([Image.open] on something that is no image). *)
Record image_codec := Codec {
  jpeg_of : bytes -> Z -> option Z -> option bytes
}.

Record compress_result := CompressResult {
  original_size : Z;
  compressed_size : Z;
  saved_bytes : Z
}.

Definition getsize (t : tree) (p : path) : option Z :=
  match lookup_node t p with
  | Some (NFile f) => Some (Z.of_nat (length (f_data f)))
  | Some NDir => Some 0
  | None => None
  end.

Definition getmtime (t : tree) (p : path) : option Z :=
  match lookup_node t p with
  | Some (NFile f) => Some (f_mtime f)
  | Some NDir => Some 0
  | None => None
  end.

(** [if resize_width:] *)
Definition truthy_width (resize_width : option Z) : option Z :=
  match resize_width with
  | Some w => if w =? 0 then None else Some w
  | None => None
  end.

(** [None] is an exception; the tree is returned as the exception
    leaves it. *)
Definition compress_image (pil : image_codec) (now : Z) (t : tree)
    (input_path output_path : path) (quality : Z) (resize_width : option Z)
    : option compress_result * tree :=
  match lookup_node t input_path with
  | Some (NFile f) =>
      let original_size := Z.of_nat (length (f_data f)) in
      match jpeg_of pil (f_data f) quality (truthy_width resize_width) with
      | None => (None, t)
      | Some jpeg =>
          match mkdir_parents t (parent output_path) with
          | None => (None, t)
          | Some t1 =>
              let output_jpeg := with_suffix output_path ".jpg" in
              match open_wb now t1 output_jpeg with
              | None => (None, t1)
              | Some t2 =>
                  let t3 := write_chunk now t2 output_jpeg jpeg in
                  let compressed_size := Z.of_nat (length jpeg) in
                  (Some (CompressResult original_size compressed_size
                           (original_size - compressed_size)), t3)
              end
          end
      end
  | _ => (None, t)
  end.

(** ** compress_images_in_folder and watch_and_compress *)

Record Stats := MkStats {
  total_files : nat;
  compressed_files : nat;
  skipped_files : nat;
  error_files : nat;
  total_saved_bytes : Z
}.

Definition zero_stats : Stats := MkStats 0 0 0 0 0.

Record cstate := CState {
  c_fs : tree;
  c_log : list log_entry;
  c_polls : nat;
  (* the inputs handed to [compress_image], in order *)
  c_calls : list path
}.

Definition clog (l : level) (m : message) (s : cstate) : cstate :=
  CState (c_fs s) (c_log s ++ [(l, m)]) (c_polls s) (c_calls s).

Arguments clog l m s /.

(** [stop_check and stop_check()] *)
Definition check_stop (stop_check : option (nat -> bool)) (s : cstate) : bool * cstate :=
  match stop_check with
  | None => (false, s)
  | Some f => (f (c_polls s), CState (c_fs s) (c_log s) (S (c_polls s)) (c_calls s))
  end.

(** The call of [compress_image] on one file, with the trace kept. *)
Definition call_compress (pil : image_codec) (now : Z) (quality : Z)
    (resize_width : option Z) (input_file output_file : path) (s : cstate)
    : option compress_result * cstate :=
  let (r, t) := compress_image pil now (c_fs s) input_file output_file quality resize_width in
  (r, CState t (c_log s) (c_polls s) (c_calls s ++ [input_file])).

(** One-shot mode, lines 142-168: the body of the loop over [files],
    after its stop check. *)
Definition compress_one (pil : image_codec) (now : Z) (input_dir output_dir : path)
    (quality : Z) (resize_width : option Z) (root : path) (filename : string)
    (acc : Stats * cstate) : Stats * cstate :=
  let (stats, s) := acc in
  let input_file := root ++ [filename] in
  if negb (is_image_file input_file) then (stats, s)
  else
    let stats := MkStats (S (total_files stats)) (compressed_files stats)
                   (skipped_files stats) (error_files stats) (total_saved_bytes stats) in
    let rel_path := default input_file (relative_to input_file input_dir) in
    let output_file := output_dir ++ rel_path in
    match call_compress pil now quality resize_width input_file output_file s with
    | (Some result, s) =>
        (MkStats (total_files stats) (S (compressed_files stats)) (skipped_files stats)
           (error_files stats) (total_saved_bytes stats + saved_bytes result),
         clog INFO (MsgCompressed rel_path) s)
    | (None, s) =>
        (MkStats (total_files stats) (compressed_files stats) (skipped_files stats)
           (S (error_files stats)) (total_saved_bytes stats),
         clog ERROR (MsgCompressError rel_path) s)
    end.

Arguments compress_image : simpl never.
Arguments call_compress : simpl never.
Arguments compress_one : simpl never.

(** [for filename in files]: a stop leaves this loop only. *)
Fixpoint compress_files (pil : image_codec) (now : Z) (stop_check : option (nat -> bool))
    (input_dir output_dir : path) (quality : Z) (resize_width : option Z)
    (root : path) (files : list string) (acc : Stats * cstate) : Stats * cstate :=
  match files with
  | [] => acc
  | filename :: files' =>
      let (stop, s) := check_stop stop_check acc.2 in
      if stop then (acc.1, s)
      else
        compress_files pil now stop_check input_dir output_dir quality resize_width root files'
          (compress_one pil now input_dir output_dir quality resize_width root filename
             (acc.1, s))
  end.

(** [for root, dirs, files in os.walk(input_dir)] *)
Fixpoint compress_dirs (pil : image_codec) (now : Z) (stop_check : option (nat -> bool))
    (input_dir output_dir : path) (quality : Z) (resize_width : option Z)
    (triples : list (path * list string * list string)) (acc : Stats * cstate)
    : Stats * cstate :=
  match triples with
  | [] => acc
  | (root, _, files) :: triples' =>
      let (stop, s) := check_stop stop_check acc.2 in
      if stop then (acc.1, clog WARN MsgCompressStopped s)
      else
        compress_dirs pil now stop_check input_dir output_dir quality resize_width triples'
          (compress_files pil now stop_check input_dir output_dir quality resize_width
             root files (acc.1, s))
  end.

(** [None] is the exception of [output_path.mkdir] leaving the
    function. *)
Definition compress_images_in_folder (pil : image_codec) (now : Z)
    (input_dir output_dir : path) (quality : Z)
    (stop_check : option (nat -> bool)) (resize_width : option Z) (s : cstate)
    : option Stats * cstate :=
  if negb (path_exists (c_fs s) input_dir)
  then (Some zero_stats, clog ERROR MsgInputMissing s)
  else
    match mkdir_parents (c_fs s) output_dir with
    | None => (None, s)
    | Some t1 =>
        let s := CState t1 (c_log s) (c_polls s) (c_calls s) in
        let s := clog INFO MsgCompressStart s in
        let s := clog INFO MsgQuality s in
        let s := match truthy_width resize_width with
                 | Some _ => clog INFO MsgResize s
                 | None => s
                 end in
        let (stats, s) :=
          compress_dirs pil now stop_check input_dir output_dir quality resize_width
            (walk (c_fs s) input_dir) (zero_stats, s) in
        (Some stats,
         clog INFO (MsgCompressSummary (total_files stats) (compressed_files stats)
                      (skipped_files stats) (error_files stats) (total_saved_bytes stats)) s)
    end.

(** The counters of one watch cycle. *)
Record cycle_counts := Cycle {
  cycle_compressed : nat;
  cycle_skipped : nat;
  cycle_errors : nat
}.

(** What the loops of [watch_and_compress] carry: the totals, the
    counters of the cycle, the state; [getmtime] raising leaves the
    function ([w_raised]). *)
Record wstate := WState {
  w_total : Stats;
  w_cycle : cycle_counts;
  w_state : cstate;
  w_raised : bool
}.

(** Continuous mode, lines 251-286: the body of the loop over [files],
    after its stop check. *)
Definition watch_one (pil : image_codec) (now : Z) (input_dir output_dir : path)
    (quality : Z) (resize_width : option Z) (root : path) (filename : string)
    (w : wstate) : wstate :=
  let s := w_state w in
  let input_file := root ++ [filename] in
  if negb (is_image_file input_file) then w
  else
    let rel_path := default input_file (relative_to input_file input_dir) in
    let output_file := output_dir ++ rel_path in
    let output_jpeg := with_suffix output_file ".jpg" in
    let fresh :=
      if path_exists (c_fs s) output_jpeg then
        match getmtime (c_fs s) input_file, getmtime (c_fs s) output_jpeg with
        | Some input_mtime, Some output_mtime => Some (input_mtime <=? output_mtime)
        | _, _ => None
        end
      else Some false in
    match fresh with
    | None => WState (w_total w) (w_cycle w) s true
    | Some true =>
        WState (w_total w)
          (Cycle (cycle_compressed (w_cycle w)) (S (cycle_skipped (w_cycle w)))
             (cycle_errors (w_cycle w)))
          s false
    | Some false =>
        let total := w_total w in
        match call_compress pil now quality resize_width input_file output_file s with
        | (Some result, s) =>
            WState
              (MkStats (total_files total) (S (compressed_files total)) (skipped_files total)
                 (error_files total) (total_saved_bytes total + saved_bytes result))
              (Cycle (S (cycle_compressed (w_cycle w))) (cycle_skipped (w_cycle w))
                 (cycle_errors (w_cycle w)))
              (clog INFO (MsgCompressed rel_path) s) false
        | (None, s) =>
            WState
              (MkStats (total_files total) (compressed_files total) (skipped_files total)
                 (S (error_files total)) (total_saved_bytes total))
              (Cycle (cycle_compressed (w_cycle w)) (cycle_skipped (w_cycle w))
                 (S (cycle_errors (w_cycle w))))
              (clog ERROR (MsgCompressError rel_path) s) false
        end
    end.

Arguments watch_one : simpl never.

Definition set_wstate (s : cstate) (w : wstate) : wstate :=
  WState (w_total w) (w_cycle w) s (w_raised w).

Fixpoint watch_files (pil : image_codec) (now : Z) (stop_check : option (nat -> bool))
    (input_dir output_dir : path) (quality : Z) (resize_width : option Z)
    (root : path) (files : list string) (w : wstate) : wstate :=
  match files with
  | [] => w
  | filename :: files' =>
      let (stop, s) := check_stop stop_check (w_state w) in
      if stop then set_wstate s w
      else
        let w := watch_one pil now input_dir output_dir quality resize_width root filename
                   (set_wstate s w) in
        if w_raised w then w
        else watch_files pil now stop_check input_dir output_dir quality resize_width
               root files' w
  end.

Fixpoint watch_dirs (pil : image_codec) (now : Z) (stop_check : option (nat -> bool))
    (input_dir output_dir : path) (quality : Z) (resize_width : option Z)
    (triples : list (path * list string * list string)) (w : wstate) : wstate :=
  match triples with
  | [] => w
  | (root, _, files) :: triples' =>
      let (stop, s) := check_stop stop_check (w_state w) in
      if stop then set_wstate s w
      else
        let w := watch_files pil now stop_check input_dir output_dir quality resize_width
                   root files (set_wstate s w) in
        if w_raised w then w
        else watch_dirs pil now stop_check input_dir output_dir quality resize_width
               triples' w
  end.

(** The wait between cycles: [for _ in range(int(interval * 10))]. *)
Fixpoint sleep_ticks (stop_check : option (nat -> bool)) (ticks : nat) (s : cstate) : cstate :=
  match ticks with
  | O => s
  | S ticks' =>
      let (stop, s) := check_stop stop_check s in
      if stop then s else sleep_ticks stop_check ticks' s
  end.

(** [int(interval * 10)] for an interval of whole seconds. *)
Definition ticks_of (interval : Z) : nat := Z.to_nat (interval * 10).

Inductive watch_result :=
| Returned (stats : Stats)
| WatchRaised
| StillRunning.

(** The [while not (stop_check and stop_check())] loop; [fuel] bounds the
    number of cycles looked at, and [now n] is the time during cycle
    [n]. *)
Fixpoint watch_cycles (fuel : nat) (pil : image_codec) (now : nat -> Z)
    (stop_check : option (nat -> bool)) (input_dir output_dir : path) (quality : Z)
    (interval : Z) (resize_width : option Z) (cycle_count : nat) (total : Stats)
    (s : cstate) : watch_result * cstate :=
  let (stop, s) := check_stop stop_check s in
  if stop then (Returned total, clog WARN (MsgWatchStopped cycle_count) s)
  else
    match fuel with
    | O => (StillRunning, s)
    | S fuel' =>
        let cycle_count := S cycle_count in
        let w := watch_dirs pil (now cycle_count) stop_check input_dir output_dir quality
                   resize_width (walk (c_fs s) input_dir)
                   (WState total (Cycle 0 0 0) s false) in
        if w_raised w then (WatchRaised, w_state w)
        else
          let total := w_total w in
          let cyc := w_cycle w in
          let total := MkStats (total_files total) (compressed_files total)
                         (skipped_files total + cycle_skipped cyc) (error_files total)
                         (total_saved_bytes total) in
          let s := w_state w in
          let s :=
            if ((0 <? cycle_compressed cyc) || (0 <? cycle_errors cyc))%nat
            then clog INFO (MsgWatchCycle cycle_count (cycle_compressed cyc)
                              (cycle_skipped cyc) (cycle_errors cyc)) s
            else s in
          let (stop, s) := check_stop stop_check s in
          let s := if stop then s else sleep_ticks stop_check (ticks_of interval) s in
          watch_cycles fuel' pil now stop_check input_dir output_dir quality interval
            resize_width cycle_count total s
    end.

Definition watch_and_compress (fuel : nat) (pil : image_codec) (now : nat -> Z)
    (input_dir output_dir : path) (quality : Z)
    (stop_check : option (nat -> bool)) (interval : Z) (resize_width : option Z)
    (s : cstate) : watch_result * cstate :=
  if negb (path_exists (c_fs s) input_dir)
  then (Returned zero_stats, clog ERROR MsgInputMissing s)
  else
    match mkdir_parents (c_fs s) output_dir with
    | None => (WatchRaised, s)
    | Some t1 =>
        let s := CState t1 (c_log s) (c_polls s) (c_calls s) in
        let s := clog INFO MsgWatchStart s in
        let s := clog INFO MsgWatchConfig s in
        watch_cycles fuel pil now stop_check input_dir output_dir quality interval
          resize_width 0 zero_stats s
    end.

(** * The publish stage ([sftp_upload.py]) *)

(** The remote side: whether the connection can be made, and which of
    the successive SFTP requests fail on the wire ([pub_fault n] for the
    [n]-th request of the run).  The remote file system is a tree like
    the local one. *)
Record publish_server := Publisher {
  pub_connect_ok : bool;
  pub_fault : nat -> bool
}.

Record ustate := UState {
  u_local : tree;
  u_remote : tree;
  u_log : list log_entry;
  u_polls : nat;
  (* SFTP requests made so far *)
  u_ops : nat;
  (* the calls of [upload_file], with whether they returned *)
  u_attempts : list (path * bool)
}.

Definition ulog (l : level) (m : message) (s : ustate) : ustate :=
  UState (u_local s) (u_remote s) (u_log s ++ [(l, m)]) (u_polls s) (u_ops s) (u_attempts s).

Definition set_local (t : tree) (s : ustate) : ustate :=
  UState t (u_remote s) (u_log s) (u_polls s) (u_ops s) (u_attempts s).

Definition set_remote (t : tree) (s : ustate) : ustate :=
  UState (u_local s) t (u_log s) (u_polls s) (u_ops s) (u_attempts s).

Definition record_attempt (p : path) (ok : bool) (s : ustate) : ustate :=
  UState (u_local s) (u_remote s) (u_log s) (u_polls s) (u_ops s) (u_attempts s ++ [(p, ok)]).

Arguments ulog l m s /.
Arguments set_local t s /.
Arguments set_remote t s /.
Arguments record_attempt p ok s /.

(** One SFTP request: it is counted, and fails when the wire does. *)
Definition request (srv : publish_server) (s : ustate) : bool * ustate :=
  (negb (pub_fault srv (u_ops s)),
   UState (u_local s) (u_remote s) (u_log s) (u_polls s) (S (u_ops s)) (u_attempts s)).

Inductive stat_answer := StatOk | StatIOError | StatRaises.

(** [sftp.stat(p)] *)
Definition sftp_stat (srv : publish_server) (p : path) (s : ustate) : stat_answer * ustate :=
  let (ok, s) := request srv s in
  if ok then (if path_exists (u_remote s) p then StatOk else StatIOError, s)
  else (StatRaises, s).

(** [sftp.mkdir(p)]; [false] is an exception. *)
Definition sftp_mkdir (srv : publish_server) (p : path) (s : ustate) : bool * ustate :=
  let (ok, s) := request srv s in
  if ok && negb (path_exists (u_remote s) p) && is_dir (u_remote s) (parent p)
  then (true, set_remote (<[p := NDir]> (u_remote s)) s)
  else (false, s).

(** [sftp.put(local_file, remote_file)] of the given content. *)
Definition sftp_put (srv : publish_server) (now : Z) (data : bytes) (p : path) (s : ustate)
    : bool * ustate :=
  let (ok, s) := request srv s in
  if ok then
    match open_wb now (u_remote s) p with
    | Some t => (true, set_remote (write_chunk now t p data) s)
    | None => (false, s)
    end
  else (false, s).

(** [sftp.utime(p, (atime, mtime))]: whole seconds on the wire. *)
Definition sftp_utime (srv : publish_server) (p : path) (atime mtime : Z) (s : ustate)
    : bool * ustate :=
  let (ok, s) := request srv s in
  if ok then
    match u_remote s !! p with
    | Some (NFile f) =>
        (true, set_remote (<[p := NFile (File (f_data f) (py_int atime * NS) (py_int mtime * NS))]>
                             (u_remote s)) s)
    | Some NDir => (true, s)
    | None => (false, s)
    end
  else (false, s).

(** [_ensure_remote_dir], on the reversed path: [stat], and on
    [IOError] the parent first (unless it is the root), then [mkdir].
    [false] is an exception. *)
Fixpoint _ensure_remote_dir (srv : publish_server) (rev_path : path) (s : ustate)
    : bool * ustate :=
  match sftp_stat srv (rev rev_path) s with
  | (StatOk, s) => (true, s)
  | (StatRaises, s) => (false, s)
  | (StatIOError, s) =>
      match rev_path with
      | [] => sftp_mkdir srv [] s
      | _ :: rev_parent =>
          let (ok, s) :=
            match rev_parent with
            | [] => (true, s)
            | _ => _ensure_remote_dir srv rev_parent s
            end in
          if ok then sftp_mkdir srv (rev rev_path) s else (false, s)
      end
  end.

Arguments sftp_stat : simpl never.
Arguments sftp_mkdir : simpl never.
Arguments sftp_put : simpl never.
Arguments sftp_utime : simpl never.

(** [upload_file]: the size of the file, or [None] for the exception it
    logs and re-raises. *)
Definition upload_file (srv : publish_server) (now : Z) (local_file remote_file : path)
    (s : ustate) : option Z * ustate :=
  let failed s := (None, ulog ERROR (MsgUploadError (basename local_file)) s) in
  let (ok, s) := _ensure_remote_dir srv (rev (parent remote_file)) s in
  if negb ok then failed s else
  match u_local s !! local_file with
  | Some (NFile f) =>
      let file_size := Z.of_nat (length (f_data f)) in
      let s := ulog INFO (MsgUploading (basename local_file)) s in
      let (ok, s) := sftp_put srv now (f_data f) remote_file s in
      if negb ok then failed s else
      let (ok, s) := sftp_utime srv remote_file (f_atime f) (f_mtime f) s in
      if negb ok then failed s else
      (Some file_size, ulog INFO (MsgUploaded (basename local_file)) s)
  | _ => failed s
  end.

Arguments upload_file : simpl never.

Record UStats := MkUStats {
  uploaded_files : nat;
  uploaded_bytes : Z;
  deleted_files : nat;
  up_error_files : nat
}.

Definition zero_ustats : UStats := MkUStats 0 0 0 0.

(** [stop_check()], where a missing [stop_check] never stops. *)
Definition upoll (stop_check : option (nat -> bool)) (s : ustate) : bool * ustate :=
  match stop_check with
  | None => (false, s)
  | Some f =>
      (f (u_polls s),
       UState (u_local s) (u_remote s) (u_log s) (S (u_polls s)) (u_ops s) (u_attempts s))
  end.

(** Lines 159-168: the files to upload, or [None] when a stop is seen. *)
Fixpoint collect_files (stop_check : option (nat -> bool)) (local_dir remote_dir : path)
    (triples : list (path * list string * list string)) (s : ustate)
    : option (list (path * path * path)) * ustate :=
  match triples with
  | [] => (Some [], s)
  | (root, _, files) :: triples' =>
      let (stop, s) := upoll stop_check s in
      if stop then (None, ulog WARN MsgUploadStopped s)
      else
        let here :=
          (fun filename : string =>
             let local_file := root ++ [filename] in
             let rel_path := default local_file (relative_to local_file local_dir) in
             (local_file, remote_dir ++ rel_path, rel_path)) <$> files in
        match collect_files stop_check local_dir remote_dir triples' s with
        | (Some more, s) => (Some (here ++ more), s)
        | (None, s) => (None, s)
        end
  end.

(** Lines 185-197: the uploads; the statistics and the list
    [uploaded_files]. *)
Fixpoint upload_all (srv : publish_server) (now : Z) (stop_check : option (nat -> bool))
    (files_to_upload : list (path * path * path)) (stats : UStats) (uploaded : list path)
    (s : ustate) : UStats * list path * ustate :=
  match files_to_upload with
  | [] => (stats, uploaded, s)
  | (local_file, remote_file, rel_path) :: rest =>
      let (stop, s) := upoll stop_check s in
      if stop then (stats, uploaded, ulog WARN MsgUploadInterrupted s)
      else
        match upload_file srv now local_file remote_file s with
        | (Some file_size, s) =>
            upload_all srv now stop_check rest
              (MkUStats (S (uploaded_files stats)) (uploaded_bytes stats + file_size)
                 (deleted_files stats) (up_error_files stats))
              (uploaded ++ [local_file]) (record_attempt local_file true s)
        | (None, s) =>
            upload_all srv now stop_check rest
              (MkUStats (uploaded_files stats) (uploaded_bytes stats)
                 (deleted_files stats) (S (up_error_files stats)))
              uploaded
              (ulog ERROR (MsgUploadFailed rel_path) (record_attempt local_file false s))
        end
  end.

(** [os.remove] *)
Definition os_remove (t : tree) (p : path) : option tree :=
  match t !! p with
  | Some (NFile _) => Some (delete p t)
  | _ => None
  end.

(** [os.listdir] *)
Definition listdir (t : tree) (p : path) : option (list string) :=
  if is_dir t p then Some ((children t p).*1) else None.

(** [os.rmdir] *)
Definition os_rmdir (t : tree) (p : path) : option tree :=
  match t !! p, children t p with
  | Some NDir, [] => Some (delete p t)
  | _, _ => None
  end.

(** Lines 203-213: the removal of the uploaded files. *)
Fixpoint delete_uploaded (stop_check : option (nat -> bool)) (uploaded : list path)
    (stats : UStats) (s : ustate) : UStats * ustate :=
  match uploaded with
  | [] => (stats, s)
  | local_file :: rest =>
      let (stop, s) := upoll stop_check s in
      if stop then (stats, ulog WARN MsgDeleteInterrupted s)
      else
        match os_remove (u_local s) local_file with
        | Some t =>
            delete_uploaded stop_check rest
              (MkUStats (uploaded_files stats) (uploaded_bytes stats)
                 (S (deleted_files stats)) (up_error_files stats))
              (ulog INFO (MsgDeleted (basename local_file)) (set_local t s))
        | None =>
            delete_uploaded stop_check rest stats
              (ulog ERROR (MsgDeleteError (basename local_file)) s)
        end
  end.

(** Lines 221-228: the directories below [root], removed when empty. *)
Fixpoint prune_dirs (local_dir root : path) (dirs : list string) (s : ustate) : ustate :=
  match dirs with
  | [] => s
  | dir_name :: rest =>
      let dir_path := root ++ [dir_name] in
      let rel := default dir_path (relative_to dir_path local_dir) in
      let s :=
        match listdir (u_local s) dir_path with
        | Some [] =>
            match os_rmdir (u_local s) dir_path with
            | Some t => ulog INFO (MsgPruned rel) (set_local t s)
            | None => ulog WARN (MsgPruneError rel) s
            end
        | Some _ => s
        | None => ulog WARN (MsgPruneError rel) s
        end in
      prune_dirs local_dir root rest s
  end.

(** Lines 217-228: the bottom-up walk. *)
Fixpoint prune_walk (stop_check : option (nat -> bool)) (local_dir : path)
    (triples : list (path * list string * list string)) (s : ustate) : ustate :=
  match triples with
  | [] => s
  | (root, dirs, _) :: triples' =>
      let (stop, s) := upoll stop_check s in
      if stop then s
      else prune_walk stop_check local_dir triples' (prune_dirs local_dir root dirs s)
  end.

(** [upload_folder]; [None] is the exception it re-raises when the
    connection fails. *)
Definition upload_folder (srv : publish_server) (now : Z) (local_dir remote_dir : path)
    (stop_check : option (nat -> bool)) (delete_after_upload : bool) (s : ustate)
    : option UStats * ustate :=
  if negb (path_exists (u_local s) local_dir)
  then (Some zero_ustats, ulog WARN MsgUploadDirMissing s)
  else
    match collect_files stop_check local_dir remote_dir (walk (u_local s) local_dir) s with
    | (None, s) => (Some zero_ustats, s)
    | (Some [], s) => (Some zero_ustats, ulog INFO MsgNothingToUpload s)
    | (Some files_to_upload, s) =>
        let s := ulog INFO MsgUploadStart s in
        let s := ulog INFO (MsgUploadCount (length files_to_upload)) s in
        if negb (pub_connect_ok srv) then (None, ulog ERROR MsgUploadRaised s)
        else
          let s := ulog INFO MsgUploadConnected s in
          let '(stats, uploaded, s) :=
            upload_all srv now stop_check files_to_upload zero_ustats [] s in
          let (stats, s) :=
            if delete_after_upload && negb (bool_decide (uploaded = [])) then
              let s := ulog INFO (MsgDeleteStart (length uploaded)) s in
              let (stats, s) := delete_uploaded stop_check uploaded stats s in
              let s := ulog INFO MsgPruneStart s in
              (stats, prune_walk stop_check local_dir (walk_up (u_local s) local_dir) s)
            else (stats, s) in
          let s := ulog INFO MsgUploadClosed s in
          (Some stats,
           ulog INFO (MsgUploadSummary (uploaded_files stats) (uploaded_bytes stats)
                        (deleted_files stats) (up_error_files stats)) s)
    end.

(** The wait between cycles. *)
Fixpoint usleep (stop_check : option (nat -> bool)) (ticks : nat) (s : ustate) : ustate :=
  match ticks with
  | O => s
  | S ticks' =>
      let (stop, s) := upoll stop_check s in
      if stop then s else usleep stop_check ticks' s
  end.

Definition add_ustats (a b : UStats) : UStats :=
  MkUStats (uploaded_files a + uploaded_files b) (uploaded_bytes a + uploaded_bytes b)
    (deleted_files a + deleted_files b) (up_error_files a + up_error_files b).

(** [for root, dirs, files in os.walk(local_dir): if files: ...] *)
Definition has_files (t : tree) (local_dir : path) : bool :=
  existsb (fun tr : path * list string * list string =>
             negb (bool_decide (tr.2 = []))) (walk t local_dir).

(** [watch_and_upload]; [None] while the loop has not ended within
    [fuel] cycles. *)
Fixpoint upload_cycles (fuel : nat) (srv : publish_server) (now : nat -> Z)
    (local_dir remote_dir : path) (stop_check : option (nat -> bool)) (interval : Z)
    (delete_after_upload : bool) (cycle_count : nat) (total : UStats) (s : ustate)
    : option UStats * ustate :=
  let (stop, s) := upoll stop_check s in
  if stop then
    let s := ulog WARN (MsgUploadWatchStopped cycle_count) s in
    (Some total,
     ulog INFO (MsgUploadWatchSummary (uploaded_files total) (uploaded_bytes total)
                  (deleted_files total) (up_error_files total)) s)
  else
    match fuel with
    | O => (None, s)
    | S fuel' =>
        let cycle_count := S cycle_count in
        let again := upload_cycles fuel' srv now local_dir remote_dir stop_check interval
                       delete_after_upload cycle_count in
        if negb (path_exists (u_local s) local_dir)
        then again total (usleep stop_check (ticks_of interval) s)
        else if negb (has_files (u_local s) local_dir)
        then again total (usleep stop_check (ticks_of interval) s)
        else
          let s := ulog INFO (MsgUploadCycleStart cycle_count) s in
          let (total, s) :=
            match upload_folder srv (now cycle_count) local_dir remote_dir stop_check
                    delete_after_upload s with
            | (Some stats, s) =>
                (add_ustats total stats,
                 if (0 <? uploaded_files stats)%nat
                 then ulog INFO (MsgUploadCycle cycle_count (uploaded_files stats)
                                   (uploaded_bytes stats) (deleted_files stats)) s
                 else s)
            | (None, s) =>
                (MkUStats (uploaded_files total) (uploaded_bytes total) (deleted_files total)
                   (S (up_error_files total)),
                 ulog ERROR (MsgUploadCycleError cycle_count) s)
            end in
          let (stop, s) := upoll stop_check s in
          let s := if stop then s else usleep stop_check (ticks_of interval) s in
          again total s
    end.

Definition watch_and_upload (fuel : nat) (srv : publish_server) (now : nat -> Z)
    (local_dir remote_dir : path) (stop_check : option (nat -> bool)) (interval : Z)
    (delete_after_upload : bool) (s : ustate) : option UStats * ustate :=
  let s := ulog INFO MsgUploadWatchStart s in
  let s := ulog INFO MsgUploadWatchInterval s in
  upload_cycles fuel srv now local_dir remote_dir stop_check interval delete_after_upload
    0 zero_ustats s.

(** * The stage supervisor ([main.py]) *)

(** A directory setting as the path it names: the components between
    slashes. *)
Fixpoint split_slash (cs : list ascii) (cur : list ascii) : list string :=
  match cs with
  | [] => match cur with [] => [] | _ => [String.string_of_list_ascii (rev cur)] end
  | c :: cs' =>
      if Ascii.eqb c "/" then
        match cur with
        | [] => split_slash cs' []
        | _ => String.string_of_list_ascii (rev cur) :: split_slash cs' []
        end
      else split_slash cs' (c :: cur)
  end.

Definition to_path (dir : string) : path := split_slash (String.list_ascii_of_string dir) [].

(** [not s] for a string setting. *)
Definition blank (s : string) : bool := bool_decide (s = ""%string).

(** [not s] for an optional string setting. *)
Definition unset (o : option string) : bool :=
  match o with
  | Some s => blank s
  | None => true
  end.

(** The module-level state of one stage: its lock and its two flags. *)
Record stage_flags := Flags {
  lock_held : bool;
  running : bool;
  stop_requested : bool
}.

Definition idle : stage_flags := Flags false false false.

(** What a request to the control surface is answered. *)
Inductive response :=
| Started            (* 200, status "started" *)
| Conflict           (* 409 *)
| NotRunning         (* 400 *)
| StopAccepted       (* 200, status "stop_requested" *)
| ResetDone          (* 200, status "reset" *)
| NoSuchRoute.       (* 404 *)

(** [run_sync], [run_compress] and [run_upload] are the same handler
    over the flags of their stage: the answer, whether the worker
    thread is started, and the lines logged. *)
Definition run_handler (fl : stage_flags) : response * bool * list log_entry :=
  if running fl then (Conflict, false, [])
  else (Started, true, [(INFO, MsgRunRequested)]).

Definition run_sync := run_handler.
Definition run_compress := run_handler.
Definition run_upload := run_handler.

(** [stop_sync], [stop_compress], [stop_upload]. *)
Definition stop_handler (fl : stage_flags) : response * stage_flags * list log_entry :=
  if negb (running fl) then (NotRunning, fl, [])
  else (StopAccepted, Flags (lock_held fl) (running fl) true, [(WARN, MsgStopRequested)]).

(** [reset_sync_lock]: only the mirror stage has it. *)
Definition reset_sync_lock (fl : stage_flags) : response * stage_flags * list log_entry :=
  (ResetDone, idle, if lock_held fl then [(WARN, MsgForceUnlock)] else []).

(** How a worker thread left its function. *)
Inductive worker_exit :=
| ReturnedEarly      (* before taking the lock *)
| Finished           (* through the [finally] block *)
| StillWatching.     (* the watch loop has not ended within the fuel *)

(** [_run_compress].  [settings_data] is what [db.load_settings()]
    returns; [stop_flag] is what [_check_compress_stop_requested] reads. *)
Definition _run_compress (fuel : nat) (pil : image_codec) (now : nat -> Z)
    (settings_data : option SftpSettings) (stop_flag : nat -> bool)
    (fl : stage_flags) (s : cstate) : worker_exit * stage_flags * cstate :=
  match settings_data with
  | None => (ReturnedEarly, fl, clog WARN MsgNoSettings s)
  | Some settings =>
      if blank (local_dir settings)
      then (ReturnedEarly, fl, clog ERROR MsgMissingLocalDir s)
      else
      match compress_output_dir settings with
      | None => (ReturnedEarly, fl, clog ERROR MsgMissingOutputDir s)
      | Some out =>
      if blank out
      then (ReturnedEarly, fl, clog ERROR MsgMissingOutputDir s)
      else if lock_held fl
      then (ReturnedEarly, fl, clog INFO MsgAlreadyRunning s)
      else
        let quality :=
          if compress_quality settings =? 0 then 85 else compress_quality settings in
        let resize_width := resize_width_dpi settings in
        let input_dir := to_path (local_dir settings) in
        let output_dir := to_path out in
        if compress_interval_seconds settings =? 0 then
          let s := clog INFO MsgOneShot s in
          let s :=
            match compress_images_in_folder pil (now O) input_dir output_dir quality None
                    resize_width s with
            | (Some _, s) => clog INFO MsgOneShotDone s
            | (None, s) => clog ERROR MsgStageError s
            end in
          (Finished, idle, s)
        else
          match watch_and_compress fuel pil now input_dir output_dir quality
                  (Some stop_flag) (compress_interval_seconds settings) resize_width s with
          | (Returned _, s) => (Finished, idle, clog INFO MsgStageSummary s)
          | (WatchRaised, s) => (Finished, idle, clog ERROR MsgStageFailed s)
          | (StillRunning, s) => (StillWatching, Flags true true false, s)
          end
      end
  end.

(** [_run_upload]. *)
Definition _run_upload (fuel : nat) (srv : publish_server) (now : nat -> Z)
    (settings_data : option SftpSettings) (stop_flag : nat -> bool)
    (fl : stage_flags) (s : ustate) : worker_exit * stage_flags * ustate :=
  match settings_data with
  | None => (ReturnedEarly, fl, ulog WARN MsgNoSettings s)
  | Some settings =>
      match compress_output_dir settings, remote_output_dir settings with
      | None, _ => (ReturnedEarly, fl, ulog ERROR MsgMissingOutputDir s)
      | Some out, None =>
          if blank out then (ReturnedEarly, fl, ulog ERROR MsgMissingOutputDir s)
          else (ReturnedEarly, fl, ulog ERROR MsgMissingRemoteOutputDir s)
      | Some out, Some remote =>
          if blank out then (ReturnedEarly, fl, ulog ERROR MsgMissingOutputDir s)
          else if blank remote then (ReturnedEarly, fl, ulog ERROR MsgMissingRemoteOutputDir s)
          else if lock_held fl then (ReturnedEarly, fl, ulog INFO MsgAlreadyRunning s)
          else
            let local_dir := to_path out in
            let remote_dir := to_path remote in
            if upload_interval_seconds settings =? 0 then
              let s := ulog INFO MsgOneShot s in
              let s :=
                match upload_folder srv (now O) local_dir remote_dir None false s with
                | (Some _, s) => ulog INFO MsgStageSummary s
                | (None, s) => ulog ERROR MsgStageError s
                end in
              (Finished, idle, s)
            else
              match watch_and_upload fuel srv now local_dir remote_dir (Some stop_flag)
                      (upload_interval_seconds settings) false s with
              | (Some _, s) => (Finished, idle, ulog INFO MsgStageSummary s)
              | (None, s) => (StillWatching, Flags true true false, s)
              end
      end
  end.

(** ** The threads of one stage *)

(** Where a worker thread stands in [_run_sync] (and in its two
    siblings): before [lock.acquire], holding the lock before
    [_running = True], before [_stop_requested = False], in the [try]
    body, and in the [finally] block before each of its three
    statements. *)
Inductive worker :=
| AtAcquire
| AtSetRunning
| AtClearStop
| InBody
| AtClearRunning
| AtClearStop2
| AtRelease
| Gone.

(** The worker holds the lock, from [acquire] to [release]. *)
Definition live (w : worker) : bool :=
  match w with
  | AtAcquire | Gone => false
  | _ => true
  end.

Record supervisor := Supervisor {
  flags : stage_flags;
  workers : list worker
}.

Definition boot : supervisor := Supervisor idle [].

(** What can happen next: a request on the control surface, or the
    thread [i] running its next statement (for a thread in the body:
    the body ending). *)
Inductive event :=
| Trigger
| StopRequest
| Reset
| Advance (i : nat).

(** One statement of the worker. *)
Definition advance (fl : stage_flags) (w : worker) : stage_flags * worker :=
  match w with
  | AtAcquire =>
      if lock_held fl then (fl, Gone)
      else (Flags true (running fl) (stop_requested fl), AtSetRunning)
  | AtSetRunning => (Flags (lock_held fl) true (stop_requested fl), AtClearStop)
  | AtClearStop => (Flags (lock_held fl) (running fl) false, InBody)
  | InBody => (fl, AtClearRunning)
  | AtClearRunning => (Flags (lock_held fl) false (stop_requested fl), AtClearStop2)
  | AtClearStop2 => (Flags (lock_held fl) (running fl) false, AtRelease)
  | AtRelease => (Flags false (running fl) (stop_requested fl), Gone)
  | Gone => (fl, Gone)
  end.

(** [has_reset] tells the mirror stage from the other two. *)
Definition fire (has_reset : bool) (ev : event) (st : supervisor)
    : option response * supervisor :=
  match ev with
  | Trigger =>
      let '(r, spawn, _) := run_handler (flags st) in
      (Some r, Supervisor (flags st) (if spawn then workers st ++ [AtAcquire] else workers st))
  | StopRequest =>
      let '(r, fl, _) := stop_handler (flags st) in
      (Some r, Supervisor fl (workers st))
  | Reset =>
      if has_reset then
        let '(r, fl, _) := reset_sync_lock (flags st) in
        (Some r, Supervisor fl (workers st))
      else (Some NoSuchRoute, st)
  | Advance i =>
      match workers st !! i with
      | Some w =>
          let (fl, w') := advance (flags st) w in
          (None, Supervisor fl (<[i := w']> (workers st)))
      | None => (None, st)
      end
  end.

Fixpoint run_events (has_reset : bool) (evs : list event) (st : supervisor) : supervisor :=
  match evs with
  | [] => st
  | ev :: evs' => run_events has_reset evs' (fire has_reset ev st).2
  end.

Definition live_count (st : supervisor) : nat :=
  length (filter (fun w => live w = true) (workers st)).

(** * Predicates used in the statements *)

(** ** Mirror stage *)

(** [t'] is [t] with some missing directories created. *)
Definition grows (t t' : tree) : Prop :=
  forall q, t' !! q = t !! q \/ (t !! q = None /\ t' !! q = Some NDir).

(** In a well-formed tree every entry lies below directories only. *)
Definition tree_ok (t : tree) : Prop :=
  map_Forall (fun (p : path) (_ : node) =>
    Forall (fun k => is_dir t (take k p) = true) (seq 1 (length p - 1))) t.

Global Instance tree_ok_dec (t : tree) : Decision (tree_ok t).
Proof. unfold tree_ok. apply _. Defined.

(** The tree after processing remote paths among [P]: entries are kept,
    missing directories may appear, and only the targets of paths in [P]
    may be turned into (or rewritten as) regular files. *)
Definition touched (rd : path) (P : path -> Prop) (t t' : tree) : Prop :=
  forall q, t' !! q = t !! q
    \/ (t !! q = None /\ t' !! q = Some NDir)
    \/ (P (rd ++ q) /\ t !! q <> Some NDir /\ exists f, t' !! q = Some (NFile f)).

(** Log lines name the path they are about. *)
Definition entry_about (rd : path) (P : path -> Prop) (e : log_entry) : Prop :=
  match e.2 with
  | MsgStoppedDuringCopy r | MsgDirCreated r | MsgSkip r
  | MsgOverwriteRemoteNewer r | MsgOverwriteLocalNewer r | MsgOverwriteSize r
  | MsgNew r | MsgCopyStart r | MsgCopyDone r => P (rd ++ r)
  | MsgGet p' | MsgItemError p' => P p'
  | _ => True
  end.

(** [s'] continues [s]: the log only grows, by lines about paths in [P]. *)
Definition extends_log (rd : path) (P : path -> Prop) (s s' : sync_state) : Prop :=
  exists new, s_log s' = s_log s ++ new /\ Forall (entry_about rd P) new.

(** The test of line 170, and the reason logged when it fails. *)
Definition same_file (local_stat : option stat_result) (attrs : sftp_attrs) : bool :=
  match local_stat with
  | Some ls =>
      (py_int (st_mtime ls) =? Z.of_N (a_mtime attrs))
      && (st_size ls =? Z.of_N (a_size attrs))
  | None => false
  end.

Definition copy_reason (local_stat : option stat_result) (attrs : sftp_attrs)
    (rel : path) : message :=
  match local_stat with
  | Some ls =>
      if py_int (st_mtime ls) <? Z.of_N (a_mtime attrs) then MsgOverwriteRemoteNewer rel
      else if py_int (st_mtime ls) >? Z.of_N (a_mtime attrs) then MsgOverwriteLocalNewer rel
      else MsgOverwriteSize rel
  | None => MsgNew rel
  end.

(** What the server delivers for a file: the data read up to the end of
    file. *)
Fixpoint served (reads : list read_result) : bytes :=
  match reads with
  | ReadData (b :: chunk) :: reads' => (b :: chunk) ++ served reads'
  | _ => []
  end.




(** No per-item (or other) error was logged. *)
Definition no_error (l : list log_entry) : Prop := Forall (fun e => e.1 <> ERROR) l.

Global Instance no_error_dec (l : list log_entry) : Decision (no_error l).
Proof. unfold no_error. apply _. Defined.

(** The state in which [sync_once] enters its loop. *)
Definition loop_entry (local : tree) (polls0 n_remote : nat) : sync_state :=
  SyncState local
    [(INFO, MsgBaseDir); (INFO, MsgConnecting); (INFO, MsgAuthMethod);
     (INFO, MsgConnected); (INFO, MsgRemoteDir); (INFO, MsgLocalDir);
     (INFO, MsgListRemote); (INFO, MsgListedRemote n_remote);
     (INFO, MsgListLocal); (INFO, MsgListedLocal (size (_list_local local)))]
    polls0 0 0 0.

(** How many copies of [rel] a log reports as completed. *)
Definition copies_of (rel : path) (l : list log_entry) : nat :=
  length (filter (fun e => e.2 = MsgCopyDone rel) l).

Arguments copies_of : simpl never.

(** ** Transcode stage *)

(** The files a walk yields, as full paths, in order. *)
Definition walk_files (triples : list (path * list string * list string)) : list path :=
  flat_map (fun tr : path * list string * list string =>
              (fun name => tr.1.1 ++ [name]) <$> tr.2) triples.

(** Where the output of an input file goes. *)
Definition output_of (input_dir output_dir input_file : path) : path :=
  with_suffix (output_dir ++ default input_file (relative_to input_file input_dir)) ".jpg".

(** ** Publish stage *)

(** The local paths whose upload returned, among recorded attempts. *)
Definition successes (attempts : list (path * bool)) : list path :=
  (filter (fun a : path * bool => a.2 = true) attempts).*1.

(** The regular files of [t] are those of [t'], unchanged. *)
Definition keeps_files (t t' : tree) : Prop :=
  forall p f, t !! p = Some (NFile f) <-> t' !! p = Some (NFile f).

(** ** Supervisor *)

(** The lock counts the live workers. *)
Definition lock_counts (st : supervisor) : Prop :=
  live_count st = if lock_held (flags st) then 1%nat else 0%nat.

(** * Scenarios *)

(** Scenario A of the specification: the remote holds [a.txt] (size 10,
    mtime 100) and [sub/b.txt]; the local tree is empty. *)
Definition scen_settings : SftpSettings :=
  Settings ["srv"; "data"] "/mirror" (Some "/out") 85 None (Some "/publish") 0 10 10.

Definition scen_listing : rtree :=
  RListing
    [("a.txt", Attrs false 10 100 100, RListErr);
     ("sub", Attrs true 0 50 50,
        RListing [("b.txt", Attrs false 3 70 70, RListErr)])].

Definition scen_open (p : path) : option (list read_result) :=
  if decide (p = ["srv"; "data"; "a.txt"])
  then Some [ReadData (repeat Byte.x61 4); ReadData (repeat Byte.x62 6)]
  else if decide (p = ["srv"; "data"; "sub"; "b.txt"])
  then Some [ReadData (repeat Byte.x63 3)]
  else None.

Definition scen_server : sftp_server := Server true scen_listing scen_open.

Definition never_stop (n : nat) : bool := false.

Definition scen_now : Z := 5000 * NS.

(** A local tree in which a regular file [sub] stands where the remote
    has a directory. *)
Definition blocked_local : tree := {[ ["sub"] := NFile (File [] 0 0) ]}.

(** Scenario B: the local tree already holds [a.txt] with the remote size
    and an mtime within the remote second. *)
Definition synced_local : tree :=
  {[ ["a.txt"] := NFile (File (repeat Byte.x61 10) 0 (100 * NS + 5)) ]}.

(** The stop flag raised at the [n]-th poll and kept up. *)
Definition stop_from (n : nat) (k : nat) : bool := (n <=? k)%nat.

(** Scenario C: [photo.png] in the input directory and a newer
    [photo.jpg] in the output directory. *)
Definition scen_disk : tree :=
  {[ ["in"] := NDir;
     ["in"; "photo.png"] := NFile (File (repeat Byte.x50 40) 0 (100 * NS));
     ["out"] := NDir;
     ["out"; "photo.jpg"] := NFile (File (repeat Byte.x4a 30) 0 (200 * NS)) ]}.

(** A codec that keeps a quarter of the bytes. *)
Definition scen_codec : image_codec :=
  Codec (fun data _ _ => Some (take (length data / 4) data)).

(** A disk with one image to transcode and an empty output directory. *)
Definition fresh_disk : tree :=
  {[ ["in"] := NDir;
     ["in"; "photo.png"] := NFile (File (repeat Byte.x50 40) 0 (100 * NS));
     ["out"] := NDir ]}.

(** Scenario D: three files to publish, one of them in a subdirectory;
    the remote directory exists. *)
Definition publish_disk : tree :=
  {[ ["out"] := NDir;
     ["out"; "a.jpg"] := NFile (File (repeat Byte.x41 5) 0 (100 * NS));
     ["out"; "sub"] := NDir;
     ["out"; "sub"; "b.jpg"] := NFile (File (repeat Byte.x42 7) 0 (101 * NS));
     ["out"; "c.jpg"] := NFile (File (repeat Byte.x43 9) 0 (102 * NS)) ]}.

Definition publish_remote : tree := {[ ["publish"] := NDir ]}.

(** The wire fails on the [n]-th request only. *)
Definition fault_at (n : nat) (k : nat) : bool := (k =? n)%nat.

Definition publish_start : ustate := UState publish_disk publish_remote [] 0 0 [].

(** Settings without an output directory for the transcode stage. *)
Definition unconfigured_settings : SftpSettings :=
  Settings ["srv"; "data"] "/mirror" None 85 None None 0 10 10.

(** A run of the mirror stage is live when the operator forces the lock
    open and triggers again. *)
Definition forced_events : list event :=
  [Trigger; Advance 0; Advance 0; Advance 0; Reset; Trigger; Advance 1].

(** Two triggers in a row, the first worker running to its end in
    between the stop request and the second trigger. *)
Definition orderly_events : list event :=
  [Trigger; Advance 0; Advance 0; Advance 0; Trigger; StopRequest;
   Advance 0; Advance 0; Advance 0; Advance 0; Trigger; Advance 2].

(** * Further parts of the program

  The worker of the mirror stage, the sessions of the control surface
  and the two tables of the database that keep the settings and the
  login user, with the definitions the statements about them use.
  What these parts take from libraries (the keyed digest, base64, the
  text codec, [int()], Fernet) is passed to them as functions; the
  statements say what they assume of them. *)

From Stdlib Require Import DecimalString DecimalZ DecimalPos.
From Stdlib Require Strings.Byte.

Global Instance byte_eq_dec : EqDecision Byte.byte := Stdlib.Strings.Byte.byte_eq_dec.

(** * Counting the entries of a remote listing *)

(** The regular files and the directories among listed items. *)
Definition listed_files (items : list (path * sftp_attrs)) : list (path * sftp_attrs) :=
  filter (fun it => a_isdir it.2 = false) items.

Definition listed_dirs (items : list (path * sftp_attrs)) : list (path * sftp_attrs) :=
  filter (fun it => a_isdir it.2 = true) items.

(** * The image files of a one-shot run *)

(** The counters of a one-shot run add up, and each counted file was
    handed to [compress_image]: [calls0] calls had been made before. *)
Definition accounted (calls0 : nat) (acc : Stats * cstate) : Prop :=
  total_files acc.1 = (compressed_files acc.1 + error_files acc.1)%nat
  /\ skipped_files acc.1 = 0%nat
  /\ length (c_calls acc.2) = (calls0 + total_files acc.1)%nat.

(** * Sizes of local files *)

Definition file_size (t : tree) (p : path) : Z :=
  match t !! p with
  | Some (NFile f) => Z.of_nat (length (f_data f))
  | _ => 0
  end.

(** The sizes of the files [ps] of [t], added up. *)
Definition total_size (t : tree) (ps : list path) : Z :=
  foldr (fun p acc => file_size t p + acc) 0 ps.

(** A remote that answers every request. *)
Definition sound_wire : publish_server := Publisher true (fun _ => false).

(** Two states of the publish stage that differ in their log only. *)
Definition same_but_log (s s' : ustate) : Prop :=
  u_local s' = u_local s /\ u_remote s' = u_remote s /\ u_polls s' = u_polls s
  /\ u_ops s' = u_ops s /\ u_attempts s' = u_attempts s.

(** * The database ([db.py]) *)

(** The row of the [settings] table: the dictionary that was saved, of
    which the code only looks at the key [password]. *)
Record settings_row (A : Type) := SettingsRow {
  row_password : option string;
  row_fields : A
}.

Arguments SettingsRow {A} _ _.
Arguments row_password {A} _.
Arguments row_fields {A} _.

(** The tables [settings] and [users]; each holds at most the row with
    [id = 1].  The second column of [users] is the stored password. *)
Record database (A : Type) := Database {
  settings_table : option (settings_row A);
  users_table : option (string * string)
}.

Arguments Database {A} _ _.
Arguments settings_table {A} _.
Arguments users_table {A} _.

Definition set_password {A : Type} (pwd : option string) (data : settings_row A)
    : settings_row A :=
  SettingsRow pwd (row_fields data).

(** [if pwd:] for an optional string. *)
Definition truthy (pwd : option string) : bool := negb (unset pwd).

Section Vault.
Context {A : Type}.

(** [Fernet(key)]: [encrypt] draws a fresh initialisation vector and
    reads the clock, hence its first argument; [decrypt] is [None] on
    [InvalidToken] (and when the plain bytes are no text). *)
Variable encrypt : nat -> string -> string.
Variable decrypt : string -> option string.

Definition load_settings (db : database A) : option (settings_row A) :=
  match settings_table db with
  | None => None
  | Some data =>
      let pwd := row_password data in
      if truthy pwd then
        match decrypt (default ""%string pwd) with
        | Some dec => Some (set_password (Some dec) data)
        | None => Some (set_password None data)
        end
      else Some data
  end.

Definition save_settings (nonce : nat) (data : settings_row A) (db : database A)
    : database A :=
  let current := load_settings db in
  let current_password := current ≫= row_password in
  let pwd := row_password data in
  let data :=
    if unset pwd && truthy current_password then set_password current_password data
    else if truthy pwd then set_password (Some (encrypt nonce (default ""%string pwd))) data
    else data in
  Database (Some data) (users_table db).

Definition load_user (db : database A) : option (string * string) :=
  match users_table db with
  | None => None
  | Some (username, encrypted_password) =>
      match decrypt encrypted_password with
      | Some decrypted_password => Some (username, decrypted_password)
      | None => None
      end
  end.

Definition save_user (nonce : nat) (username password : string) (db : database A)
    : database A :=
  Database (settings_table db) (Some (username, encrypt nonce password)).

End Vault.

(** * Sessions ([main.py], lines 49-80 and 710-737) *)

Definition bar : Byte.byte := Byte.x7c.

(** [raw.rsplit(b"|", 1)] unpacked into two names: the parts before and
    after the last bar; [None] is the [ValueError] of the unpacking when
    there is no bar. *)
Fixpoint rsplit_bar (raw : bytes) : option (bytes * bytes) :=
  match raw with
  | [] => None
  | b :: raw' =>
      match rsplit_bar raw' with
      | Some (payload, sig) => Some (b :: payload, sig)
      | None => if decide (b = bar) then Some ([], raw') else None
      end
  end.

(** [text.split(":", 1)] unpacked into two names: the parts before and
    after the first colon. *)
Fixpoint split_colon (text : string) : option (string * string) :=
  match text with
  | EmptyString => None
  | String c text' =>
      if Ascii.eqb c ":" then Some (EmptyString, text')
      else
        match split_colon text' with
        | Some (username, issued_str) => Some (String c username, issued_str)
        | None => None
        end
  end.

(** [str(n)] for an integer. *)
Definition str_of_int (n : Z) : string := DecimalString.NilZero.string_of_int (Z.to_int n).

(** What [_verify_token] hands back: the user name, [None], or the
    [ValueError] of [int(issued_str)], which it does not catch. *)
Inductive verify_result :=
| Verified (username : string)
| Rejected
| VerifyRaises.

(** What a dependency on [require_auth] and the [login] route answer. *)
Inductive auth_result :=
| Authorized (user : string)
| Unauthorized          (* 401 *)
| AuthRaises.           (* 500 *)

Inductive login_result :=
| LoggedIn (user : string) (cookie : string)
| InvalidCredentials.   (* 401 *)

(** Twelve hours, in nanoseconds. *)
Definition SESSION_AGE : Z := 60 * 60 * 12 * NS.

Section Sessions.

(** [hmac.new(SESSION_SECRET.encode(), msg, hashlib.sha256).digest()] *)
Variable hmac_sha256 : bytes -> bytes.
(** [base64.urlsafe_b64encode(raw).decode()] and
    [base64.urlsafe_b64decode(token.encode())]; [None] is an exception. *)
Variable b64encode : bytes -> string.
Variable b64decode : string -> option bytes.
(** [str.encode()] and [bytes.decode()]; [None] is [UnicodeDecodeError]. *)
Variable encode : string -> bytes.
Variable decode : bytes -> option string.
(** [int(s)]; [None] is [ValueError]. *)
Variable int_of_str : string -> option Z.

Definition _sign_token (username : string) (issued : Z) : string :=
  let payload := (username +:+ ":" +:+ str_of_int issued)%string in
  let sig := hmac_sha256 (encode payload) in
  b64encode (encode payload ++ [bar] ++ sig).

(** [now] is [time.time()], in nanoseconds. *)
Definition _verify_token (now : Z) (token : string) : verify_result :=
  match b64decode token with
  | None => Rejected
  | Some raw =>
  match rsplit_bar raw with
  | None => Rejected
  | Some (payload, sig) =>
  match decode payload with
  | None => Rejected
  | Some text =>
  match split_colon text with
  | None => Rejected
  | Some (username, issued_str) =>
      let expected := hmac_sha256 payload in
      if negb (bool_decide (expected = sig)) then Rejected
      else
        match int_of_str issued_str with
        | None => VerifyRaises
        | Some issued =>
            if now - issued * NS >? SESSION_AGE then Rejected else Verified username
        end
  end
  end
  end
  end.

Definition require_auth (now : Z) (session : option string) : auth_result :=
  match session with
  | None => Unauthorized
  | Some token =>
      if blank token then Unauthorized
      else
        match _verify_token now token with
        | Verified user => if blank user then Unauthorized else Authorized user
        | Rejected => Unauthorized
        | VerifyRaises => AuthRaises
        end
  end.

Context {A : Type}.
Variable decrypt : string -> option string.
(** The environment variables [APP_USER] and [APP_PASSWORD]. *)
Variables APP_USER APP_PASSWORD : string.

(** [login]; the two fields of the payload are [None] when the key is
    missing. *)
Definition login (now : Z) (db : database A) (username password : option string)
    : login_result :=
  let (valid_user, valid_password) :=
    match load_user decrypt db with
    | Some (u, p) => (u, p)
    | None => (APP_USER, APP_PASSWORD)
    end in
  match username, password with
  | Some u, Some p =>
      if bool_decide (u = valid_user) && bool_decide (p = valid_password)
      then LoggedIn u (_sign_token u (py_int now))
      else InvalidCredentials
  | _, _ => InvalidCredentials
  end.

End Sessions.

(** * Stand-ins for the libraries *)

(** A cipher that only marks its output: enough to have [decrypt]
    invert [encrypt] and refuse what [encrypt] did not produce. *)
Fixpoint strip_prefix (pre s : string) : option string :=
  match pre, s with
  | EmptyString, _ => Some s
  | String a pre', String b s' => if Ascii.eqb a b then strip_prefix pre' s' else None
  | String _ _, EmptyString => None
  end.

Definition scen_encrypt (nonce : nat) (plain : string) : string := ("gAAAAA" +:+ plain)%string.

Definition scen_decrypt (token : string) : option string := strip_prefix "gAAAAA" token.

(** A keyed digest that answers the same 32 bytes for every message. *)
Definition scen_hmac (fill : Byte.byte) (msg : bytes) : bytes := repeat fill 32.

Definition scen_b64encode (raw : bytes) : string := String.string_of_list_byte raw.

Definition scen_b64decode (token : string) : option bytes :=
  Some (String.list_byte_of_string token).

Definition scen_encode (text : string) : bytes := String.list_byte_of_string text.

Definition scen_decode (raw : bytes) : option string := Some (String.string_of_list_byte raw).

Definition scen_int_of_str (s : string) : option Z :=
  option_map Z.of_int (DecimalString.NilZero.int_of_string s).

(** A database holding the settings of one server, the password
    encrypted. *)
Definition scen_db : database SftpSettings :=
  Database (Some (SettingsRow (Some (scen_encrypt 0 "s3cret")) scen_settings)) None.

(** A database whose login user was saved under another key. *)
Definition scen_stale_db : database SftpSettings :=
  Database None (Some ("operator"%string, "written-under-another-key"%string)).

(** * The flags of a stage *)

(** The worker is between [_running = True] and [_running = False]. *)
Definition working (w : worker) : bool :=
  match w with
  | AtClearStop | InBody | AtClearRunning => true
  | _ => false
  end.

(** The running flag is up only while some worker is in that stretch. *)
Definition flag_backed (st : supervisor) : Prop :=
  running (flags st) = true ->
  exists i w, workers st !! i = Some w /\ working w = true.

(** A run is triggered and its worker has just set the running flag. *)
Definition starting_events : list event := [Trigger; Advance 0; Advance 0].

(** * The worker of the mirror stage ([main.py], [_run_sync]) *)

(** The lines [_run_sync] logs itself, beside those of [sync_once]. *)
Inductive run_message :=
| MsgSyncWatchStart
| MsgContinuous
| MsgCycleCheck (cycle : nat)
| MsgCycleDiff (cycle n_copied : nat)
| MsgCycleNoDiff (cycle : nat)
| MsgCycleError (cycle : nat)
| MsgSyncStopped (cycle : nat)
| MsgSyncWatchEnd (cycles : nat)
| MsgSyncWatchFailed.

Abbreviation run_entry := (level * (message + run_message))%type.

Record mirror_state := MirrorState {
  m_fs : tree;
  m_log : list run_entry;
  (* reads of [_stop_requested] made so far *)
  m_polls : nat
}.

Definition mlog (l : level) (m : message + run_message) (r : mirror_state) : mirror_state :=
  MirrorState (m_fs r) (m_log r ++ [(l, m)]) (m_polls r).

(** One read of the global [_stop_requested]. *)
Definition mpoll (stop_flag : nat -> bool) (r : mirror_state) : bool * mirror_state :=
  (stop_flag (m_polls r), MirrorState (m_fs r) (m_log r) (S (m_polls r))).

Arguments mlog l m r /.
Arguments mpoll stop_flag r /.

(** The call of [sync_once], which logs through the same sink and polls
    the same flag. *)
Definition run_cycle (settings : SftpSettings) (srv : sftp_server)
    (stop_flag : nat -> bool) (now : Z) (r : mirror_state) : sync_result * mirror_state :=
  let (res, s) := sync_once settings srv stop_flag now (m_polls r) (m_fs r) in
  (res,
   MirrorState (s_fs s)
     (m_log r ++ ((fun e : log_entry => (e.1, inl e.2)) <$> s_log s))
     (s_polls s)).

(** The wait between two cycles. *)
Fixpoint msleep (stop_flag : nat -> bool) (ticks : nat) (r : mirror_state) : mirror_state :=
  match ticks with
  | O => r
  | S ticks' =>
      let (stop, r) := mpoll stop_flag r in
      if stop then r else msleep stop_flag ticks' r
  end.

(** How the [while] loop of the continuous mode was left. *)
Inductive loop_end :=
| LoopDone (cycles : nat)     (* the flag was seen up *)
| LoopRaised                  (* an exception reached the outer handler *)
| LoopRunning.                (* not left within the fuel *)

(** The [while not _stop_requested] loop.  [srv n] is the server as it
    is during cycle [n], [now n] the time.  After a cycle that raised,
    [time.sleep(interval)] waits without looking at the flag, and
    raises itself when the interval is negative. *)
Fixpoint sync_cycles (fuel : nat) (settings : SftpSettings) (srv : nat -> sftp_server)
    (now : nat -> Z) (stop_flag : nat -> bool) (cycle_count : nat) (r : mirror_state)
    : loop_end * mirror_state :=
  let (stop, r) := mpoll stop_flag r in
  if stop then (LoopDone cycle_count, r)
  else
    match fuel with
    | O => (LoopRunning, r)
    | S fuel' =>
        let cycle_count := S cycle_count in
        let r := mlog INFO (inr (MsgCycleCheck cycle_count)) r in
        match run_cycle settings (srv cycle_count) stop_flag (now cycle_count) r with
        | (Summary n_copied _, r) =>
            let (stop, r) := mpoll stop_flag r in
            if stop then (LoopDone cycle_count, mlog WARN (inr (MsgSyncStopped cycle_count)) r)
            else
              let r :=
                if (0 <? n_copied)%nat
                then mlog INFO (inr (MsgCycleDiff cycle_count n_copied)) r
                else mlog INFO (inr (MsgCycleNoDiff cycle_count)) r in
              let r := msleep stop_flag (ticks_of (sync_interval_seconds settings)) r in
              sync_cycles fuel' settings srv now stop_flag cycle_count r
        | (SyncRaised, r) =>
            let r := mlog ERROR (inr (MsgCycleError cycle_count)) r in
            if sync_interval_seconds settings <? 0 then (LoopRaised, r)
            else sync_cycles fuel' settings srv now stop_flag cycle_count r
        end
    end.

(** [_run_sync].  [settings_data] is what [db.load_settings()] returns,
    [stop_flag] the successive values of [_stop_requested]. *)
Definition _run_sync (fuel : nat) (srv : nat -> sftp_server) (now : nat -> Z)
    (settings_data : option SftpSettings) (stop_flag : nat -> bool)
    (fl : stage_flags) (r : mirror_state) : worker_exit * stage_flags * mirror_state :=
  match settings_data with
  | None => (ReturnedEarly, fl, mlog WARN (inl MsgNoSettings) r)
  | Some settings =>
      if lock_held fl then (ReturnedEarly, fl, mlog INFO (inl MsgAlreadyRunning) r)
      else
        let r := mlog INFO (inr MsgSyncWatchStart) r in
        if sync_interval_seconds settings =? 0 then
          let r := mlog INFO (inl MsgOneShot) r in
          let r := mlog INFO (inr (MsgCycleCheck 1)) r in
          let r :=
            match run_cycle settings (srv 1%nat) stop_flag (now 1%nat) r with
            | (Summary n_copied _, r) =>
                if (0 <? n_copied)%nat then mlog INFO (inr (MsgCycleDiff 1 n_copied)) r
                else mlog INFO (inr (MsgCycleNoDiff 1)) r
            | (SyncRaised, r) => mlog ERROR (inr (MsgCycleError 1)) r
            end in
          (Finished, idle, mlog INFO (inl MsgOneShotDone) r)
        else
          let r := mlog INFO (inr MsgContinuous) r in
          match sync_cycles fuel settings srv now stop_flag 0 r with
          | (LoopDone cycles, r) =>
              (Finished, idle, mlog INFO (inr (MsgSyncWatchEnd cycles)) r)
          | (LoopRaised, r) => (Finished, idle, mlog ERROR (inr MsgSyncWatchFailed) r)
          | (LoopRunning, r) => (StillWatching, Flags true true false, r)
          end
  end.

(** Nothing of [t] is missing in [t'], and its directories are still
    directories. *)
Definition kept (t t' : tree) : Prop :=
  forall q, (is_Some (t !! q) -> is_Some (t' !! q))
         /\ (t !! q = Some NDir -> t' !! q = Some NDir).

(** How many cycles a log reports as failed. *)
Definition is_cycle_error (e : run_entry) : bool :=
  match e.2 with
  | inr (MsgCycleError _) => true
  | _ => false
  end.

Definition cycle_errors_of (l : list run_entry) : nat :=
  length (filter (fun e => is_cycle_error e = true) l).

Arguments cycle_errors_of : simpl never.

(** A server that cannot be reached. *)
Definition scen_down : sftp_server := Server false RListErr (fun _ => None).

(** * Properties of the local tree operations *)


Lemma grows_refl t : grows t t.
Proof. intros q. by left. Qed.

Lemma grows_trans t1 t2 t3 : grows t1 t2 -> grows t2 t3 -> grows t1 t3.
Proof.
  intros H12 H23 q. destruct (H12 q) as [E|[E1 E2]], (H23 q) as [F|[F1 F2]].
  - left. congruence.
  - right. split; congruence.
  - right. split; congruence.
  - congruence.
Qed.

Lemma mkdir_from_grows rest : forall t pre t',
  mkdir_from t pre rest = Some t' -> grows t t'.
Proof.
  induction rest as [|c rest IH]; intros t pre t' H; simpl in H.
  - injection H as <-. apply grows_refl.
  - destruct (t !! (pre ++ [c])) as [[f|]|] eqn:E; [done | by eapply IH |].
    apply IH in H. intros q. destruct (H q) as [F|[F1 F2]].
    + destruct (decide (pre ++ [c] = q)) as [<-|Hne].
      * right. rewrite lookup_insert_eq in F. done.
      * left. by rewrite lookup_insert_ne in F.
    + destruct (decide (pre ++ [c] = q)) as [<-|Hne].
      * by rewrite lookup_insert_eq in F1.
      * right. by rewrite lookup_insert_ne in F1.
Qed.


(** After [mkdir -p] every component of the path is a directory. *)
Lemma mkdir_from_dirs rest : forall t pre t' k,
  mkdir_from t pre rest = Some t' -> (0 < k <= length rest)%nat ->
  t' !! (pre ++ take k rest) = Some NDir.
Proof.
  induction rest as [|c rest IH]; intros t pre t' k H Hk; simpl in *; [lia|].
  assert (Hq : t' !! (pre ++ [c]) = Some NDir).
  { destruct (t !! (pre ++ [c])) as [[f|]|] eqn:E; [done | |].
    - apply mkdir_from_grows in H. destruct (H (pre ++ [c])) as [F|[F1 F2]]; congruence.
    - apply mkdir_from_grows in H. destruct (H (pre ++ [c])) as [F|[F1 F2]].
      + by rewrite lookup_insert_eq in F.
      + by rewrite lookup_insert_eq in F1. }
  destruct k as [|k]; [lia|]. destruct k as [|k].
  - simpl. by rewrite take_0.
  - simpl. replace (pre ++ c :: take (S k) rest) with ((pre ++ [c]) ++ take (S k) rest)
      by (by rewrite <- app_assoc).
    destruct (t !! (pre ++ [c])) as [[f|]|] eqn:E; [done | |]; eapply IH; eauto; lia.
Qed.




Lemma relative_to_Some base : forall p r,
  relative_to p base = Some r <-> p = base ++ r.
Proof.
  induction base as [|b base IH]; intros p r; simpl.
  - split; congruence.
  - destruct p as [|c p]; [split; discriminate|].
    case_decide as Hbc.
    + subst. rewrite IH. split; [by intros -> | by intros [= ->]].
    + split; [discriminate | by intros [= ? ?]].
Qed.



(** * What one loop iteration of [sync_once] can do *)

Lemma grows_touched (rd : path) (P : path -> Prop) (t t' : tree) : grows t t' -> touched rd P t t'.
Proof. intros H q. destruct (H q) as [F|F]; auto. Qed.

Lemma touched_refl (rd : path) (P : path -> Prop) (t : tree) : touched rd P t t.
Proof. apply grows_touched, grows_refl. Qed.

Lemma touched_trans (rd : path) (P : path -> Prop) (t1 t2 t3 : tree) :
  touched rd P t1 t2 -> touched rd P t2 t3 -> touched rd P t1 t3.
Proof.
  intros H12 H23 q.
  destruct (H12 q) as [E|[[E1 E2]|(Ep & E1 & f & E2)]],
           (H23 q) as [F|[[F1 F2]|(Fp & F1 & g & F2)]].
  - left. congruence.
  - right. left. split; congruence.
  - right. right. split; [done|]. split; [congruence | eauto].
  - right. left. split; congruence.
  - congruence.
  - congruence.
  - right. right. split; [done|]. split; [done|]. exists f. congruence.
  - congruence.
  - right. right. split; [done|]. split; [done|]. eauto.
Qed.

Lemma insert_file_touched (rd rel : path) (t : tree) (f : file) :
  t !! rel <> Some NDir -> touched rd (eq (rd ++ rel)) t (<[rel := NFile f]> t).
Proof.
  intros H q. destruct (decide (rel = q)) as [<-|Hne].
  - right. right. rewrite lookup_insert_eq. eauto.
  - left. by rewrite lookup_insert_ne.
Qed.

Lemma open_wb_touched (rd : path) (now : Z) (t : tree) (rel : path) (t' : tree) :
  open_wb now t rel = Some t' -> touched rd (eq (rd ++ rel)) t t'.
Proof.
  unfold open_wb. destruct rel as [|c rel]; [done|].
  destruct (is_dir t (parent (c :: rel))); [|done].
  destruct (t !! (c :: rel)) as [[f|]|] eqn:E; [| done |];
    intros [= <-]; apply insert_file_touched; congruence.
Qed.

Lemma write_chunk_touched (rd : path) (now : Z) (t : tree) (rel : path) (chunk : bytes) :
  touched rd (eq (rd ++ rel)) t (write_chunk now t rel chunk).
Proof.
  unfold write_chunk. destruct (t !! rel) as [[f|]|] eqn:E;
    [| apply touched_refl | apply touched_refl].
  apply insert_file_touched. congruence.
Qed.

Lemma utime_touched (rd : path) (t : tree) (rel : path) (a m : N) (t' : tree) :
  utime t rel a m = Some t' -> touched rd (eq (rd ++ rel)) t t'.
Proof.
  unfold utime, lookup_node. destruct rel as [|c rel].
  - intros [= <-]. apply touched_refl.
  - destruct (t !! (c :: rel)) as [[f|]|] eqn:E; [| | done]; intros [= <-].
    + apply insert_file_touched. congruence.
    + apply touched_refl.
Qed.

Lemma extends_log_refl (rd : path) (P : path -> Prop) (s : sync_state) : extends_log rd P s s.
Proof. exists []. by rewrite app_nil_r. Qed.

Lemma extends_log_trans (rd : path) (P : path -> Prop) (s1 s2 s3 : sync_state) :
  extends_log rd P s1 s2 -> extends_log rd P s2 s3 -> extends_log rd P s1 s3.
Proof.
  intros (n1 & E1 & F1) (n2 & E2 & F2). exists (n1 ++ n2).
  rewrite E2, E1, app_assoc. split; [done|]. by apply Forall_app_2.
Qed.

Lemma extends_log_log (rd : path) (P : path -> Prop) (l : level) (m : message) (s : sync_state) :
  entry_about rd P (l, m) -> extends_log rd P s (log l m s).
Proof. intros H. exists [(l, m)]. split; [done|]. by constructor. Qed.

(** Closes a decidable closed goal by evaluation. *)
Ltac by_compute := apply (bool_decide_unpack _); vm_compute; exact I.

(** Reduces the projections of explicit [sync_state] records. *)
Ltac st := cbn [s_fs s_log s_polls copied skipped dirs_created set_fs log poll fst snd].

Ltac log_step :=
  eexists; split;
  [simpl; rewrite <- ?app_assoc; simpl; reflexivity | repeat constructor; simpl; done].

Lemma copy_chunks_spec (should_stop : nat -> bool) (now : Z) (rd rel : path) (reads : list read_result) :
  forall s c s',
  copy_chunks should_stop now rel reads s = (c, s') ->
  touched rd (eq (rd ++ rel)) (s_fs s) (s_fs s') /\ extends_log rd (eq (rd ++ rel)) s s'
  /\ copied s' = copied s /\ skipped s' = skipped s.
Proof.
  induction reads as [|r reads IH]; intros s c s'; simpl.
  - destruct (should_stop (s_polls s)); intros [= <- <-]; simpl;
      (split; [apply touched_refl|]); (split; [|done]).
    + log_step.
    + exists []. by rewrite app_nil_r.
  - destruct (should_stop (s_polls s)).
    { intros [= <- <-]; simpl. split; [apply touched_refl|]. split; [|done].
      log_step. }
    destruct r as [[|b chunk]|].
    + intros [= <- <-]. simpl. split; [apply touched_refl|]. split; [|done].
      exists []. by rewrite app_nil_r.
    + intros H. apply IH in H. simpl in H. destruct H as (Ht & Hl & Hc & Hs).
      split; [|split; [|done]].
      * eapply touched_trans; [|exact Ht]. apply write_chunk_touched.
      * destruct Hl as (new & E & F). by exists new.
    + intros [= <- <-]. simpl. split; [apply touched_refl|]. split; [|done].
      exists []. by rewrite app_nil_r.
Qed.

Lemma compare_local_eq (ls : option stat_result) (a : sftp_attrs) (rel : path) (s : sync_state) :
  compare_local ls a rel s =
  if same_file ls a then inl (log INFO (MsgSkip rel) s)
  else inr (log INFO (copy_reason ls a rel) s).
Proof.
  unfold compare_local, same_file, copy_reason. destruct ls as [ls|]; [|done].
  destruct (_ && _); [done|]. destruct (_ <? _); [done|]. by destruct (_ >? _).
Qed.

Lemma compare_local_spec (ls : option stat_result) (a : sftp_attrs) (rel : path) (s : sync_state) :
  exists m, (compare_local ls a rel s = inl (log INFO m s) /\ m = MsgSkip rel)
         \/ (compare_local ls a rel s = inr (log INFO m s) /\
             m <> MsgSkip rel /\ forall rd, entry_about rd (eq (rd ++ rel)) (INFO, m)).
Proof.
  unfold compare_local. destruct ls as [ls|].
  - destruct (_ && _); [eexists; left; done|].
    destruct (_ <? _); [eexists; right; done|].
    destruct (_ >? _); eexists; right; done.
  - eexists; right; done.
Qed.

Lemma copy_file_spec (srv : sftp_server) (should_stop : nat -> bool) (now : Z)
    (rd rel : path) (a : sftp_attrs) (s : sync_state) c s' :
  copy_file srv should_stop now (rd ++ rel) rel a s = (c, s') ->
  touched rd (eq (rd ++ rel)) (s_fs s) (s_fs s') /\ extends_log rd (eq (rd ++ rel)) s s'
  /\ skipped s' = skipped s.
Proof.
  unfold copy_file. simpl.
  destruct (should_stop (s_polls s)).
  { intros [= <- <-]. simpl. split; [apply touched_refl|]. split; [log_step | done]. }
  destruct (sftp_open srv (rd ++ rel)) as [reads|].
  2:{ intros [= <- <-]. simpl. split; [apply touched_refl|]. split; [log_step | done]. }
  destruct (open_wb now (s_fs s) rel) as [t2|] eqn:Hopen; simpl.
  2:{ intros [= <- <-]. simpl. split; [apply touched_refl|]. split; [log_step | done]. }
  apply (open_wb_touched rd) in Hopen.
  destruct (copy_chunks _ _ _ _ _) as [c1 s1] eqn:Hcc.
  apply (copy_chunks_spec _ _ rd) in Hcc. simpl in Hcc.
  destruct Hcc as (Ht & (new & El & Fl) & Hc & Hs).
  assert (Hlog : extends_log rd (eq (rd ++ rel)) s s1).
  { exists ([(INFO, MsgCopyStart rel); (INFO, MsgGet (rd ++ rel))] ++ new).
    rewrite El. simpl. rewrite <- !app_assoc. split; [done|].
    repeat (constructor; [done|]). done. }
  assert (Htree : touched rd (eq (rd ++ rel)) (s_fs s) (s_fs s1)) by (by eapply touched_trans).
  destruct c1; try (intros [= <- <-]; done).
  destruct (utime (s_fs s1) rel (a_atime a) (a_mtime a)) as [t3|] eqn:Hut;
    [| intros [= <- <-]; done].
  apply (utime_touched rd) in Hut. intros [= <- <-]. simpl.
  split; [by eapply touched_trans|]. split; [|done].
  eapply extends_log_trans; [exact Hlog|]. log_step.
Qed.

Lemma touched_mono (rd : path) (P Q : path -> Prop) (t t' : tree) :
  (forall p, P p -> Q p) -> touched rd P t t' -> touched rd Q t t'.
Proof.
  intros HPQ H q. destruct (H q) as [E|[E|(Hp & E1 & E2)]]; auto.
Qed.

Lemma entry_about_mono (rd : path) (P Q : path -> Prop) (e : log_entry) :
  (forall p, P p -> Q p) -> entry_about rd P e -> entry_about rd Q e.
Proof. intros HPQ. unfold entry_about. destruct e as [l []]; simpl; auto. Qed.

Lemma extends_log_mono (rd : path) (P Q : path -> Prop) (s s' : sync_state) :
  (forall p, P p -> Q p) -> extends_log rd P s s' -> extends_log rd Q s s'.
Proof.
  intros HPQ (new & E & F). exists new. split; [done|].
  eapply Forall_impl; [exact F|]. intros e. by apply entry_about_mono.
Qed.

Lemma sync_dir_spec (settings : SftpSettings) (p : path) (s : sync_state) c s' :
  sync_dir settings p s = (c, s') ->
  grows (s_fs s) (s_fs s') /\ extends_log (remote_dir settings) (eq p) s s'
  /\ copied s' = copied s /\ skipped s' = skipped s.
Proof.
  unfold sync_dir.
  destruct (relative_to p (remote_dir settings)) as [rel|] eqn:Hrel.
  2:{ intros [= <- <-]. split; [apply grows_refl|]. split; [apply extends_log_refl | done]. }
  apply relative_to_Some in Hrel.
  destruct (path_exists (s_fs s) rel).
  { intros [= <- <-]. split; [apply grows_refl|]. split; [apply extends_log_refl | done]. }
  destruct (mkdir_parents (s_fs s) rel) as [t1|] eqn:Hmk.
  2:{ intros [= <- <-]. split; [apply grows_refl|]. split; [apply extends_log_refl | done]. }
  apply mkdir_from_grows in Hmk. intros [= <- <-]. simpl. split; [done|].
  split; [log_step | done].
Qed.

Lemma sync_file_spec (settings : SftpSettings) (srv : sftp_server)
    (should_stop : nat -> bool) (now : Z) (idx : gmap (list string) stat_result)
    (p : path) (a : sftp_attrs) (s : sync_state) c s' :
  sync_file settings srv should_stop now idx p a s = (c, s') ->
  touched (remote_dir settings) (eq p) (s_fs s) (s_fs s')
  /\ extends_log (remote_dir settings) (eq p) s s'.
Proof.
  unfold sync_file. set (rd := remote_dir settings).
  destruct (relative_to p rd) as [rel|] eqn:Hrel.
  2:{ intros [= <- <-]. split; [apply touched_refl | apply extends_log_refl]. }
  apply relative_to_Some in Hrel. subst p.
  destruct (mkdir_parents (s_fs s) (parent rel)) as [t1|] eqn:Hmk.
  2:{ intros [= <- <-]. split; [apply touched_refl | apply extends_log_refl]. }
  apply mkdir_from_grows in Hmk.
  destruct (compare_local_spec (idx !! rel) a rel (set_fs t1 s)) as (m & [(E & Hm)|(E & Hm & Ha)]);
    rewrite E.
  - intros [= <- <-]. simpl. split; [by apply grows_touched|]. subst m. log_step.
  - intros H. apply (copy_file_spec _ _ _ rd) in H. simpl in H.
    destruct H as (Ht & (new & El & Fl) & _). split.
    + eapply touched_trans; [|exact Ht]. by apply grows_touched.
    + exists ((INFO, m) :: new). rewrite El. cbn. rewrite <- app_assoc. split; [done|].
      constructor; [apply Ha | done].
Qed.

Lemma sync_item_spec (settings : SftpSettings) (srv : sftp_server)
    (should_stop : nat -> bool) (now : Z) (idx : gmap (list string) stat_result)
    (p : path) (a : sftp_attrs) (s : sync_state) c s' :
  sync_item settings srv should_stop now idx (p, a) s = (c, s') ->
  touched (remote_dir settings) (eq p) (s_fs s) (s_fs s')
  /\ extends_log (remote_dir settings) (eq p) s s'
  /\ c <> Raised.
Proof.
  unfold sync_item. simpl.
  destruct (should_stop (s_polls s)).
  { intros [= <- <-]. simpl. split; [apply touched_refl|]. split; [log_step | done]. }
  destruct (a_isdir a).
  - destruct (sync_dir _ _ _) as [c1 s1] eqn:H. apply sync_dir_spec in H.
    destruct H as (Hg & (new & El & Fl) & _). simpl in *.
    destruct c1; intros [= <- <-]; simpl; (split; [by apply grows_touched|]);
      (split; [|done]); try (by exists new).
    exists (new ++ [(ERROR, MsgItemError p)]). rewrite El, app_assoc. split; [done|].
    apply Forall_app_2; [done|]. by repeat constructor.
  - destruct (sync_file _ _ _ _ _ _ _ _) as [c1 s1] eqn:H. apply sync_file_spec in H.
    destruct H as (Hg & (new & El & Fl)). simpl in *.
    destruct c1; intros [= <- <-]; simpl; (split; [done|]);
      (split; [|done]); try (by exists new).
    exists (new ++ [(ERROR, MsgItemError p)]). rewrite El, app_assoc. split; [done|].
    apply Forall_app_2; [done|]. by repeat constructor.
Qed.

Lemma sync_loop_spec (settings : SftpSettings) (srv : sftp_server)
    (should_stop : nat -> bool) (now : Z) (idx : gmap (list string) stat_result)
    (items : list (path * sftp_attrs)) : forall s c s',
  sync_loop settings srv should_stop now idx items s = (c, s') ->
  touched (remote_dir settings) (fun p => p ∈ items.*1) (s_fs s) (s_fs s')
  /\ extends_log (remote_dir settings) (fun p => p ∈ items.*1) s s'.
Proof.
  induction items as [|[p a] items IH]; intros s c s'; simpl.
  - intros [= <- <-]. split; [apply touched_refl | apply extends_log_refl].
  - destruct (sync_item _ _ _ _ _ _ _) as [c1 s1] eqn:H1.
    apply sync_item_spec in H1. destruct H1 as (Ht & Hl & _).
    assert (Hhd : forall q : path, p = q -> q ∈ p :: items.*1) by (intros q <-; left).
    assert (Htl : forall q : path, q ∈ items.*1 -> q ∈ p :: items.*1) by (intros q ?; by right).
    destruct c1.
    + intros H2. apply IH in H2. destruct H2 as (Ht2 & Hl2). split.
      * eapply touched_trans;
          [eapply touched_mono; [exact Hhd | exact Ht]
          | eapply touched_mono; [exact Htl | exact Ht2]].
      * eapply extends_log_trans;
          [eapply extends_log_mono; [exact Hhd | exact Hl]
          | eapply extends_log_mono; [exact Htl | exact Hl2]].
    + intros [= <- <-].
      split; [eapply touched_mono | eapply extends_log_mono]; [exact Hhd | exact Ht | exact Hhd | exact Hl].
    + intros [= <- <-].
      split; [eapply touched_mono | eapply extends_log_mono]; [exact Hhd | exact Ht | exact Hhd | exact Hl].
Qed.

Lemma sync_loop_app (settings : SftpSettings) (srv : sftp_server)
    (should_stop : nat -> bool) (now : Z) (idx : gmap (list string) stat_result)
    (l1 l2 : list (path * sftp_attrs)) : forall s,
  sync_loop settings srv should_stop now idx (l1 ++ l2) s =
  match sync_loop settings srv should_stop now idx l1 s with
  | (Next, s1) => sync_loop settings srv should_stop now idx l2 s1
  | (_, s1) => (Break, s1)
  end.
Proof.
  induction l1 as [|it l1 IH]; intros s; simpl; [done|].
  destruct (sync_item _ _ _ _ _ _ _) as [[] s1]; [apply IH | done | done].
Qed.

(** ** A cycle in which no stop is requested *)

Lemma copy_chunks_not_break (should_stop : nat -> bool) (now : Z) (rel : path)
    (reads : list read_result) : forall s c s',
  copy_chunks should_stop now rel reads s = (c, s') -> c <> Break.
Proof.
  induction reads as [|r reads IH]; intros s c s'; simpl.
  - destruct (should_stop _); by intros [= <- <-].
  - destruct (should_stop _); [by intros [= <- <-]|].
    destruct r as [[|b chunk]|]; [by intros [= <- <-] | apply IH | by intros [= <- <-]].
Qed.

Section NeverStopped.
Variable should_stop : nat -> bool.
Hypothesis never : forall n, should_stop n = false.

Lemma copy_chunks_never (now : Z) (rel : path) (reads : list read_result) :
  forall (s : sync_state) c s' d a m,
  copy_chunks should_stop now rel reads s = (c, s') ->
  s_fs s !! rel = Some (NFile (File d a m)) ->
  s_log s' = s_log s /\ copied s' = copied s /\ skipped s' = skipped s /\
  (c = Raised \/
   c = Next /\ exists m', s_fs s' !! rel = Some (NFile (File (d ++ served reads) a m'))).
Proof.
  induction reads as [|r reads IH]; intros s c s' d a m; simpl; rewrite never.
  - intros [= <- <-] Hf. simpl. repeat split; try done.
    right. split; [done|]. exists m. by rewrite app_nil_r.
  - destruct r as [[|b chunk]|].
    + intros [= <- <-] Hf. simpl. repeat split; try done.
      right. split; [done|]. exists m. by rewrite app_nil_r.
    + intros H Hf. eapply IH in H.
      2:{ cbn. unfold write_chunk. rewrite Hf. cbn. apply lookup_insert_eq. }
      cbn in H. destruct H as (? & ? & ? & H). repeat split; try done.
      destruct H as [?|(? & m' & H)]; [by left|]. right. split; [done|].
      exists m'. by rewrite <- app_assoc in H.
    + intros [= <- <-] Hf. simpl. repeat split; try done. by left.
Qed.

Lemma sync_item_file_never (settings : SftpSettings) (srv : sftp_server) (now : Z)
    (idx : gmap (list string) stat_result) (rel : path) (a : sftp_attrs)
    (s : sync_state) c s' :
  let p := remote_dir settings ++ rel in
  a_isdir a = false ->
  sync_item settings srv should_stop now idx (p, a) s = (c, s') ->
  c = Next /\
  ((exists new, s_log s' = s_log s ++ new ++ [(ERROR, MsgItemError p)])
     /\ copied s' = copied s
   \/ same_file (idx !! rel) a = true
     /\ mkdir_parents (s_fs s) (parent rel) = Some (s_fs s')
     /\ copied s' = copied s /\ skipped s' = S (skipped s)
     /\ s_log s' = s_log s ++ [(INFO, MsgSkip rel)]
   \/ same_file (idx !! rel) a = false
     /\ (exists reads, sftp_open srv p = Some reads /\
           s_fs s' !! rel =
             Some (NFile (File (served reads) (of_seconds (a_atime a)) (of_seconds (a_mtime a)))))
     /\ copied s' = S (copied s) /\ skipped s' = skipped s
     /\ s_log s' = s_log s ++
          [(INFO, copy_reason (idx !! rel) a rel); (INFO, MsgCopyStart rel);
           (INFO, MsgGet p); (INFO, MsgCopyDone rel)]).
Proof.
  intros p Hfile. unfold sync_item. cbn. rewrite never, Hfile.
  unfold sync_file. cbn.
  assert (Hrel : relative_to p (remote_dir settings) = Some rel) by (by apply relative_to_Some).
  rewrite Hrel.
  destruct (mkdir_parents (s_fs s) (parent rel)) as [t1|] eqn:Hmk.
  2:{ intros [= <- <-]. split; [done|]. left. split; [|done]. by exists []. }
  rewrite compare_local_eq.
  destruct (same_file (idx !! rel) a) eqn:Hsame.
  { intros [= <- <-]. split; [done|]. right. left. done. }
  unfold copy_file. cbn. rewrite never.
  destruct (sftp_open srv p) as [reads|] eqn:Hopen.
  2:{ intros [= <- <-]. split; [done|]. left. split; [|done]. cbn.
      exists [(INFO, copy_reason (idx !! rel) a rel); (INFO, MsgCopyStart rel); (INFO, MsgGet p)].
      by rewrite <- !app_assoc. }
  destruct (open_wb now t1 rel) as [t2|] eqn:Hwb.
  2:{ intros [= <- <-]. split; [done|]. left. split; [|done]. cbn.
      exists [(INFO, copy_reason (idx !! rel) a rel); (INFO, MsgCopyStart rel); (INFO, MsgGet p)].
      by rewrite <- !app_assoc. }
  assert (exists fa, t2 !! rel = Some (NFile (File [] fa now))) as [fa Ht2].
  { unfold open_wb in Hwb. destruct rel as [|x rel]; [done|].
    destruct (is_dir t1 (parent (x :: rel))); [|done].
    destruct (t1 !! (x :: rel)) as [[f|]|]; [| done |]; injection Hwb as <-;
      eexists; apply lookup_insert_eq. }
  destruct (copy_chunks _ _ _ _ _) as [c1 s1] eqn:Hcc.
  eapply copy_chunks_never in Hcc; [|cbn; exact Ht2]. cbn in Hcc.
  destruct Hcc as (Hl & Hc & Hs & [->|(-> & m' & Hf)]).
  { intros [= <- <-]. split; [done|]. left. split; [|done]. cbn. rewrite Hl.
    exists [(INFO, copy_reason (idx !! rel) a rel); (INFO, MsgCopyStart rel); (INFO, MsgGet p)].
    by rewrite <- !app_assoc. }
  assert (Hne : rel <> []) by (intros ->; done).
  unfold utime, lookup_node. destruct rel as [|x rel]; [done|]. rewrite Hf.
  intros [= <- <-]. split; [done|]. right. right. cbn. split; [done|].
  split; [|split; [lia|split; [done|]]].
  - exists reads. split; [done|]. apply lookup_insert_eq.
  - rewrite Hl. by rewrite <- !app_assoc.
Qed.

Lemma sync_item_dir_never (settings : SftpSettings) (srv : sftp_server) (now : Z)
    (idx : gmap (list string) stat_result) (p : path) (a : sftp_attrs)
    (s : sync_state) c s' :
  a_isdir a = true ->
  sync_item settings srv should_stop now idx (p, a) s = (c, s') ->
  c = Next /\ copied s' = copied s /\ skipped s' = skipped s.
Proof.
  intros Hd. unfold sync_item. cbn. rewrite never, Hd.
  destruct (sync_dir settings p _) as [c1 s1] eqn:H.
  assert (c1 <> Break).
  { unfold sync_dir in H. repeat case_match; by simplify_eq. }
  apply sync_dir_spec in H. destruct H as (_ & _ & Hc & Hs). cbn in *.
  destruct c1; intros [= <- <-]; done.
Qed.

Lemma sync_item_never (settings : SftpSettings) (srv : sftp_server) (now : Z)
    (idx : gmap (list string) stat_result) (it : path * sftp_attrs)
    (s : sync_state) c s' :
  sync_item settings srv should_stop now idx it s = (c, s') -> c = Next.
Proof.
  destruct it as [p a]. destruct (a_isdir a) eqn:Hd.
  - intros H. by eapply sync_item_dir_never in H as [? _].
  - unfold sync_item. cbn. rewrite never, Hd.
    destruct (sync_file _ _ _ _ _ _ _ _) as [c1 s1] eqn:H.
    assert (c1 <> Break).
    { unfold sync_file in H.
      destruct (relative_to p _); [|by simplify_eq].
      destruct (mkdir_parents _ _); [|by simplify_eq].
      rewrite compare_local_eq in H.
      destruct (same_file _ _); [by simplify_eq|].
      unfold copy_file in H. cbn in H. rewrite never in H.
      destruct (sftp_open srv p); [|by simplify_eq].
      destruct (open_wb _ _ _); [|by simplify_eq].
      destruct (copy_chunks _ _ _ _ _) as [c2 s2] eqn:Hcc.
      apply copy_chunks_not_break in Hcc.
      destruct c2; [|done|by simplify_eq].
      destruct (utime _ _ _ _); by simplify_eq. }
    destruct c1; intros [= <- <-]; done.
Qed.

Lemma sync_loop_never (settings : SftpSettings) (srv : sftp_server) (now : Z)
    (idx : gmap (list string) stat_result) (items : list (path * sftp_attrs)) :
  forall s, exists s', sync_loop settings srv should_stop now idx items s = (Next, s').
Proof.
  induction items as [|it items IH]; intros s; simpl; [by eexists|].
  destruct (sync_item _ _ _ _ _ _ _) as [c1 s1] eqn:H.
  apply sync_item_never in H as ->. apply IH.
Qed.

End NeverStopped.

(** ** The local index and the files it finds in step with the remote *)

Lemma _list_local_lookup (t : tree) (rel : path) :
  _list_local t !! rel =
  match t !! rel with Some (NFile f) => Some (stat_of f) | _ => None end.
Proof.
  unfold _list_local. rewrite lookup_omap. by destruct (t !! rel) as [[f|]|].
Qed.

(** Every path of the remote listing lies under the listed directory. *)
Lemma _list_remote_prefix : forall (t : rtree) (rd p : path) (a : sftp_attrs),
  (p, a) ∈ _list_remote t rd -> exists rel, p = rd ++ rel.
Proof.
  fix IH 1. intros [entries|] rd p a; simpl; [|by intros ?%elem_of_nil].
  induction entries as [|[[name e] sub] es IHes]; simpl.
  - by intros ?%elem_of_nil.
  - rewrite elem_of_cons, elem_of_app. intros [[= -> ->]|[H|H]].
    + by eexists.
    + destruct (a_isdir e); [|by apply elem_of_nil in H].
      apply IH in H as [rel ->]. exists ([name] ++ rel). by rewrite app_assoc.
    + by apply IHes.
Qed.





Section NeverStoppedCycle.
Variable should_stop : nat -> bool.
Hypothesis never : forall n, should_stop n = false.
Variables (settings : SftpSettings) (srv : sftp_server) (now : Z).
Variable idx : gmap (list string) stat_result.

Lemma sync_loop_split (before after : list (path * sftp_attrs)) (it : path * sftp_attrs)
    (s0 : sync_state) c s3 :
  sync_loop settings srv should_stop now idx (before ++ it :: after) s0 = (c, s3) ->
  exists s1 s2,
    sync_loop settings srv should_stop now idx before s0 = (Next, s1)
    /\ sync_item settings srv should_stop now idx it s1 = (Next, s2)
    /\ sync_loop settings srv should_stop now idx after s2 = (Next, s3).
Proof.
  rewrite sync_loop_app.
  destruct (sync_loop_never should_stop never settings srv now idx before s0) as [s1 H1].
  rewrite H1. simpl.
  destruct (sync_item settings srv should_stop now idx it s1) as [c2 s2] eqn:H2.
  pose proof (sync_item_never should_stop never _ _ _ _ _ _ _ _ H2) as ->.
  destruct (sync_loop_never should_stop never settings srv now idx after s2) as [s3' H3].
  rewrite H3. intros [= <- <-]. by exists s1, s2.
Qed.


End NeverStoppedCycle.


(** * The mirror cycle as a whole *)

Lemma sync_once_connected (settings : SftpSettings) (srv : sftp_server)
    (should_stop : nat -> bool) (now : Z) (polls0 : nat) (local : tree) :
  connect_ok srv = true ->
  let items := _list_remote (remote_root srv) (remote_dir settings) in
  let s3 := snd (sync_loop settings srv should_stop now (_list_local local) items
                   (loop_entry local polls0 (length items))) in
  sync_once settings srv should_stop now polls0 local =
  (Summary (copied s3) (skipped s3),
   log INFO (MsgSummary (dirs_created s3) (copied s3) (skipped s3)) (log INFO MsgClosed s3)).
Proof. intros H. unfold sync_once. rewrite H. reflexivity. Qed.



(** ** Counting the copies a cycle reports *)

Lemma copies_of_app (rel : path) (l1 l2 : list log_entry) :
  copies_of rel (l1 ++ l2) = (copies_of rel l1 + copies_of rel l2)%nat.
Proof. unfold copies_of. by rewrite filter_app, length_app. Qed.

Lemma copies_of_cons (rel : path) (e : log_entry) (l : list log_entry) :
  copies_of rel (e :: l) =
  ((if decide (e.2 = MsgCopyDone rel) then 1 else 0) + copies_of rel l)%nat.
Proof. unfold copies_of. rewrite filter_cons. by case_decide. Qed.

Lemma copies_of_about (rd : path) (P : path -> Prop) (rel : path) (l : list log_entry) :
  Forall (entry_about rd P) l -> ~ P (rd ++ rel) -> copies_of rel l = 0%nat.
Proof.
  intros H HP. induction H as [|e l He _ IH]; [done|].
  rewrite copies_of_cons, IH. case_decide as E; [|done].
  unfold entry_about in He. rewrite E in He. done.
Qed.

(** C2 (as amended) -- A remote file absent locally at the start of a
    cycle that is not stopped, and for which the cycle logs no error, is
    copied exactly once, and at the end of the cycle the local file's
    modification time is the remote one. *)
Theorem sync_once_copies_absent_file (settings : SftpSettings) (srv : sftp_server)
    (should_stop : nat -> bool) (now : Z) (polls0 : nat) (local : tree)
    (rel : path) (a : sftp_attrs) :
  let rd := remote_dir settings in
  let items := _list_remote (remote_root srv) rd in
  let run := sync_once settings srv should_stop now polls0 local in
  connect_ok srv = true ->
  (forall n, should_stop n = false) ->
  NoDup items.*1 ->
  (rd ++ rel, a) ∈ items -> a_isdir a = false ->
  local !! rel = None ->
  (ERROR, MsgItemError (rd ++ rel)) ∉ s_log run.2 ->
  copies_of rel (s_log run.2) = 1%nat
  /\ exists f, s_fs run.2 !! rel = Some (NFile f) /\ f_mtime f = of_seconds (a_mtime a).
Proof.
  intros rd items run Hconn Hnever Hnd Hin Hfile Habsent Hnoerr. subst run.
  rewrite (sync_once_connected _ _ _ _ _ _ Hconn) in *. cbn in *.
  fold rd items in Hnoerr |- *.
  destruct (sync_loop settings srv should_stop now (_list_local local) items
              (loop_entry local polls0 (length items))) as [c s3] eqn:Hloop.
  cbn in *.
  destruct (list_elem_of_split _ _ Hin) as (before & after & Hitems).
  rewrite Hitems in Hloop, Hnd.
  rewrite fmap_app, fmap_cons in Hnd. cbn in Hnd.
  apply NoDup_app in Hnd as (_ & Hb & Hnd). apply NoDup_cons in Hnd as [Ha _].
  assert (Hb' : rd ++ rel ∉ before.*1).
  { intros Hx. apply (Hb _ Hx). by left. }
  apply (sync_loop_split should_stop Hnever) in Hloop as (s1 & s2 & H1 & H2 & H3).
  apply sync_loop_spec in H1 as (_ & (new1 & El1 & Fl1)).
  apply sync_loop_spec in H3 as (Ht3 & (new3 & El3 & Fl3)).
  pose proof (sync_item_file_never should_stop Hnever settings srv now _ rel a s1 _ _ Hfile H2)
    as (_ & [((new & El) & _)|[(Hsame & _)|(Hsame & (reads & Hopen & Hf) & _ & _ & El)]]).
  - exfalso. apply Hnoerr. rewrite El3, El. set_solver.
  - exfalso. rewrite _list_local_lookup, Habsent in Hsame. done.
  - split.
    + rewrite El3, El, El1. rewrite !copies_of_app.
      rewrite (copies_of_about rd _ rel new1 Fl1 Hb').
      rewrite (copies_of_about rd _ rel new3 Fl3 Ha).
      rewrite _list_local_lookup, Habsent. unfold loop_entry. cbn.
      rewrite !copies_of_cons. cbn.
      repeat (case_decide; try done).
    + exists (File (served reads) (of_seconds (a_atime a)) (of_seconds (a_mtime a))).
      split; [|done].
      destruct (Ht3 rel) as [E|[[E _]|(HP & _)]]; [| congruence | done].
      by rewrite E.
Qed.

Lemma sync_once_copies_absent_file_witness :
  copies_of ["a.txt"] (s_log (sync_once scen_settings scen_server never_stop scen_now 0 ∅).2) = 1%nat
  /\ exists f,
       s_fs (sync_once scen_settings scen_server never_stop scen_now 0 ∅).2 !! ["a.txt"]
         = Some (NFile f)
       /\ f_mtime f = of_seconds 100.
Proof.
  apply (sync_once_copies_absent_file scen_settings scen_server never_stop scen_now 0 ∅
           ["a.txt"] (Attrs false 10 100 100)).
  - reflexivity.
  - reflexivity.
  - by_compute.
  - by_compute.
  - reflexivity.
  - reflexivity.
  - by_compute.
Defined.

(** C2, as stated, fails: with a regular file [sub] in the local tree,
    the remote file [sub/b.txt] is absent locally and no stop is
    requested, yet the cycle makes no copy of it (creating its parent
    directory raises, which is logged as an item error) and the file is
    still absent afterwards. *)
Lemma sync_once_absent_file_not_copied :
  let rel := ["sub"; "b.txt"] in
  let a := Attrs false 3 70 70 in
  let run := sync_once scen_settings scen_server never_stop scen_now 0 blocked_local in
  (remote_dir scen_settings ++ rel, a)
     ∈ _list_remote (remote_root scen_server) (remote_dir scen_settings)
  /\ blocked_local !! rel = None
  /\ run.1 = Summary 1 0
  /\ copies_of rel (s_log run.2) = 0%nat
  /\ s_fs run.2 !! rel = None
  /\ (ERROR, MsgItemError (remote_dir scen_settings ++ rel)) ∈ s_log run.2.
Proof.
  cbv zeta. split; [by_compute|]. split; [reflexivity|].
  split; [vm_compute; reflexivity|]. split; [vm_compute; reflexivity|].
  split; [vm_compute; reflexivity | by_compute].
Qed.

(** * The decision between skipping and copying *)






(** * A stop observed in the middle of a transfer *)

Lemma copy_chunks_stopped (should_stop : nat -> bool) (now : Z) (rel : path)
    (more : list read_result) (chunks : list bytes) :
  forall (s : sync_state) d fa m,
  Forall (fun c => c <> []) chunks ->
  (forall j, (j < length chunks)%nat -> should_stop (s_polls s + j)%nat = false) ->
  should_stop (s_polls s + length chunks)%nat = true ->
  s_fs s !! rel = Some (NFile (File d fa m)) ->
  exists s' m',
    copy_chunks should_stop now rel ((ReadData <$> chunks) ++ more) s = (Next, s')
    /\ s_fs s' !! rel = Some (NFile (File (d ++ concat chunks) fa m'))
    /\ (forall q, q <> rel -> s_fs s' !! q = s_fs s !! q)
    /\ s_log s' = s_log s ++ [(WARN, MsgStoppedDuringCopy rel)]
    /\ copied s' = copied s /\ skipped s' = skipped s
    /\ s_polls s' = S (s_polls s + length chunks).
Proof.
  induction chunks as [|ch chunks IH]; intros s d fa m Hne Hfalse Htrue Hf.
  - cbn in Htrue. rewrite Nat.add_0_r in Htrue.
    exists (log WARN (MsgStoppedDuringCopy rel) (poll should_stop s).2), m.
    split.
    { destruct more; cbn; by rewrite Htrue. }
    cbn. rewrite app_nil_r, Nat.add_0_r. done.
  - apply Forall_cons in Hne as [Hch Hne].
    pose proof (Hfalse 0%nat ltac:(cbn; lia)) as H0. rewrite Nat.add_0_r in H0.
    destruct ch as [|b ch]; [done|].
    cbn [fmap list_fmap app copy_chunks]. cbn [poll fst snd]. rewrite H0.
    edestruct (IH (set_fs (write_chunk now (s_fs s) rel (b :: ch))
                     (SyncState (s_fs s) (s_log s) (S (s_polls s)) (copied s) (skipped s)
                        (dirs_created s))) (d ++ b :: ch) fa now Hne)
      as (s' & m' & Hrun & Hfile & Hframe & Hlog & Hc & Hs & Hp).
    + intros j Hj. cbn. replace (S (s_polls s + j)) with (s_polls s + S j)%nat by lia.
      apply Hfalse. cbn. lia.
    + cbn. replace (S (s_polls s + length chunks)) with (s_polls s + S (length chunks))%nat by lia.
      exact Htrue.
    + cbn. unfold write_chunk. rewrite Hf. cbn. apply lookup_insert_eq.
    + exists s', m'. split; [exact Hrun|]. cbn in *.
      split; [by rewrite <- app_assoc in Hfile|].
      split.
      { intros q Hq. rewrite (Hframe q Hq). unfold write_chunk. rewrite Hf.
        by rewrite lookup_insert_ne. }
      repeat split; try done. lia.
Qed.

Lemma open_wb_file (now : Z) (t : tree) (rel : path) (t' : tree) :
  open_wb now t rel = Some t' ->
  rel <> [] /\ exists fa, t' !! rel = Some (NFile (File [] fa now)).
Proof.
  unfold open_wb. destruct rel as [|x rel]; [done|].
  destruct (is_dir t (parent (x :: rel))); [|done].
  destruct (t !! (x :: rel)) as [[f|]|]; [| done |]; intros [= <-];
    (split; [done|]); eexists; apply lookup_insert_eq.
Qed.

(** C9 -- A stop observed inside the chunk loop.  The file needs copying
    and its transfer opens; the stop flag is still false at the item
    check, at the check before the copy and while the chunks [chunks]
    are written, and true from the next poll on.  Then the loop is left
    with the local file holding only [chunks] (whatever the server had
    left to deliver), yet [os.utime] gives it the remote times, [copied]
    is incremented and the copy is logged as complete; the cycle halts at
    the next item. *)
Theorem sync_loop_counts_interrupted_copy (settings : SftpSettings) (srv : sftp_server)
    (should_stop : nat -> bool) (now : Z) (idx : gmap (list string) stat_result)
    (rel : path) (a : sftp_attrs) (rest : list (path * sftp_attrs)) (s : sync_state)
    (chunks : list bytes) (more : list read_result) (t1 t2 : tree) :
  let p := remote_dir settings ++ rel in
  let T := (s_polls s + 2 + length chunks)%nat in
  a_isdir a = false ->
  same_file (idx !! rel) a = false ->
  mkdir_parents (s_fs s) (parent rel) = Some t1 ->
  sftp_open srv p = Some ((ReadData <$> chunks) ++ more) ->
  open_wb now t1 rel = Some t2 ->
  Forall (fun c => c <> []) chunks ->
  (forall n, (n < T)%nat -> should_stop n = false) ->
  (forall n, (T <= n)%nat -> should_stop n = true) ->
  exists s',
    sync_loop settings srv should_stop now idx ((p, a) :: rest) s
      = (match rest with [] => Next | _ => Break end, s')
    /\ copied s' = S (copied s)
    /\ skipped s' = skipped s
    /\ s_fs s' !! rel =
         Some (NFile (File (concat chunks) (of_seconds (a_atime a)) (of_seconds (a_mtime a))))
    /\ s_log s' =
         s_log s ++
         [(INFO, copy_reason (idx !! rel) a rel); (INFO, MsgCopyStart rel); (INFO, MsgGet p);
          (WARN, MsgStoppedDuringCopy rel); (INFO, MsgCopyDone rel)]
         ++ match rest with [] => [] | _ => [(WARN, MsgStopped)] end.
Proof.
  intros p T Hfile Hsame Hmk Hopen Hwb Hne Hfalse Htrue.
  assert (Hrel : relative_to p (remote_dir settings) = Some rel) by (by apply relative_to_Some).
  apply open_wb_file in Hwb as Hfile2. destruct Hfile2 as (Hrel_ne & fa & Ht2).
  cbn [sync_loop]. unfold sync_item. st.
  rewrite (Hfalse (s_polls s)) by (subst T; lia). rewrite Hfile.
  unfold sync_file. rewrite Hrel. st.
  rewrite Hmk, compare_local_eq, Hsame.
  unfold copy_file. st.
  rewrite (Hfalse (S (s_polls s))) by (subst T; lia). rewrite Hopen, Hwb.
  edestruct (copy_chunks_stopped should_stop now rel more chunks
               (set_fs t2 (SyncState t1
                  (((s_log s ++ [(INFO, copy_reason (idx !! rel) a rel)])
                      ++ [(INFO, MsgCopyStart rel)]) ++ [(INFO, MsgGet p)])
                  (S (S (s_polls s))) (copied s) (skipped s) (dirs_created s)))
               [] fa now Hne)
    as (s1 & m' & Hrun & Hf1 & _ & Hlog & Hc & Hs & Hp).
  { intros j Hj. cbn. apply Hfalse. subst T. lia. }
  { cbn. apply Htrue. subst T. lia. }
  { cbn. exact Ht2. }
  cbn in Hrun. rewrite Hrun. cbn in Hf1, Hlog, Hc, Hs, Hp.
  unfold utime, lookup_node. destruct rel as [|x rel]; [done|]. rewrite Hf1.
  st. cbn [f_data].
  destruct rest as [|[p' a'] rest'].
  - eexists. split; [reflexivity|]. cbn.
    split; [lia|]. split; [done|]. split; [apply lookup_insert_eq|].
    rewrite Hlog. by rewrite <- !app_assoc.
  - cbn [sync_loop]. unfold sync_item at 1. st.
    rewrite (Htrue (s_polls s1)) by (subst T; lia).
    eexists. split; [reflexivity|]. cbn.
    split; [lia|]. split; [done|]. split; [apply lookup_insert_eq|].
    rewrite Hlog. by rewrite <- !app_assoc.
Qed.

Lemma sync_loop_counts_interrupted_copy_witness :
  let a := Attrs false 10 100 100 in
  let s := loop_entry ∅ 0 3 in
  exists s',
    sync_loop scen_settings scen_server (stop_from 3) scen_now (_list_local ∅)
      [(remote_dir scen_settings ++ ["a.txt"], a);
       (["srv"; "data"; "sub"], Attrs true 0 50 50)] s
      = (Break, s')
    /\ copied s' = S (copied s)
    /\ skipped s' = skipped s
    /\ s_fs s' !! ["a.txt"] =
         Some (NFile (File (concat [repeat Byte.x61 4])
                 (of_seconds (a_atime a)) (of_seconds (a_mtime a))))
    /\ s_log s' =
         s_log s ++
         [(INFO, copy_reason (_list_local ∅ !! ["a.txt"]) a ["a.txt"]);
          (INFO, MsgCopyStart ["a.txt"]);
          (INFO, MsgGet (remote_dir scen_settings ++ ["a.txt"]));
          (WARN, MsgStoppedDuringCopy ["a.txt"]); (INFO, MsgCopyDone ["a.txt"])]
         ++ [(WARN, MsgStopped)].
Proof.
  cbv zeta.
  apply (sync_loop_counts_interrupted_copy scen_settings scen_server (stop_from 3) scen_now
           (_list_local ∅) ["a.txt"] (Attrs false 10 100 100)
           [(["srv"; "data"; "sub"], Attrs true 0 50 50)] (loop_entry ∅ 0 3)
           [repeat Byte.x61 4] [ReadData (repeat Byte.x62 6)]
           ∅ {[ ["a.txt"] := NFile (File [] scen_now scen_now) ]}).
  - reflexivity.
  - reflexivity.
  - reflexivity.
  - reflexivity.
  - vm_compute. reflexivity.
  - by_compute.
  - intros n Hn. cbn in Hn. apply Nat.leb_gt. lia.
  - intros n Hn. cbn in Hn. apply Nat.leb_le. lia.
Defined.

(** * The transcode stage *)






(** ** The totals of continuous mode *)

Lemma watch_one_total_files (pil : image_codec) (now : Z) (input_dir output_dir : path)
    (quality : Z) (resize_width : option Z) (root : path) (filename : string) (w : wstate) :
  total_files (w_total (watch_one pil now input_dir output_dir quality resize_width root
                          filename w))
  = total_files (w_total w).
Proof.
  unfold watch_one. destruct (negb _); [done|].
  destruct (if path_exists _ _ then _ else _) as [[]|]; [done | | done].
  by destruct (call_compress _ _ _ _ _ _ _) as [[r|] s'].
Qed.

Lemma watch_files_total_files (pil : image_codec) (now : Z) (stop_check : option (nat -> bool))
    (input_dir output_dir : path) (quality : Z) (resize_width : option Z) (root : path)
    (files : list string) : forall w,
  total_files (w_total (watch_files pil now stop_check input_dir output_dir quality
                          resize_width root files w))
  = total_files (w_total w).
Proof.
  induction files as [|f files IH]; intros w; simpl; [done|].
  destruct (check_stop stop_check (w_state w)) as [[] s]; [done|].
  destruct (w_raised _); [|rewrite IH]; by rewrite watch_one_total_files.
Qed.

Lemma watch_dirs_total_files (pil : image_codec) (now : Z) (stop_check : option (nat -> bool))
    (input_dir output_dir : path) (quality : Z) (resize_width : option Z)
    (triples : list (path * list string * list string)) : forall w,
  total_files (w_total (watch_dirs pil now stop_check input_dir output_dir quality
                          resize_width triples w))
  = total_files (w_total w).
Proof.
  induction triples as [|[[root dirs] files] triples IH]; intros w; simpl; [done|].
  destruct (check_stop stop_check (w_state w)) as [[] s]; [done|].
  destruct (w_raised _); [|rewrite IH]; by rewrite watch_files_total_files.
Qed.

(** Whatever [watch_and_compress] returns, its [total_files] is 0. *)
Lemma watch_cycles_total_files (fuel : nat) (pil : image_codec) (now : nat -> Z)
    (stop_check : option (nat -> bool)) (input_dir output_dir : path) (quality interval : Z)
    (resize_width : option Z) : forall (cycle_count : nat) (total : Stats) (s : cstate) stats s',
  watch_cycles fuel pil now stop_check input_dir output_dir quality interval resize_width
    cycle_count total s = (Returned stats, s') ->
  total_files stats = total_files total.
Proof.
  induction fuel as [|fuel IH]; intros cycle_count total s stats s'; simpl.
  - destruct (check_stop stop_check s) as [[] s1]; [|done]. by intros [= <- <-].
  - destruct (check_stop stop_check s) as [[] s1]; [by intros [= <- <-]|].
    destruct (w_raised _) eqn:Hr; [done|].
    destruct (check_stop stop_check _) as [stop s2].
    intros H. apply IH in H. cbn in H. by rewrite watch_dirs_total_files in H.
Qed.

(** C6 -- (defect) [total_files] is not accumulated in continuous mode.
    One image waits in the input directory and the stop flag is raised
    during the wait after the first cycle: [watch_and_compress] returns
    [compressed_files = 1] with [total_files = 0], where the one-shot
    function reports [total_files = 1] on the same disk. *)
Theorem watch_and_compress_forgets_total_files :
  let s := CState fresh_disk [] 0 [] in
  (watch_and_compress 3 scen_codec (fun _ => 300 * NS) ["in"] ["out"] 85
     (Some (stop_from 4)) 1 None s).1
    = Returned (MkStats 0 1 0 0 30)
  /\ (compress_images_in_folder scen_codec (300 * NS) ["in"] ["out"] 85 None None s).1
    = Some (MkStats 1 1 0 0 30).
Proof. split; vm_compute; reflexivity. Qed.

(** * Walks *)

Lemma children_spec (t : tree) (d : path) (name : string) (n : node) :
  (name, n) ∈ children t d <-> t !! (d ++ [name]) = Some n.
Proof.
  unfold children. rewrite list_elem_of_omap. split.
  - intros ([k m] & Hkm & H). cbn in H. apply elem_of_map_to_list in Hkm.
    destruct (relative_to k d) as [[|x [|y r]]|] eqn:E; try done.
    injection H as <- <-. apply relative_to_Some in E. by subst.
  - intros H. exists (d ++ [name], n). split; [by apply elem_of_map_to_list|].
    cbn. by rewrite (proj2 (relative_to_Some d (d ++ [name]) [name]) eq_refl).
Qed.

Lemma children_NoDup (t : tree) (d : path) : NoDup (children t d).*1.
Proof.
  unfold children.
  pose proof (NoDup_fst_map_to_list t) as Hnd.
  assert (Hall : forall kn, kn ∈ map_to_list t -> kn ∈ map_to_list t) by done.
  revert Hnd Hall. generalize (map_to_list t) at 1 2 4. intros l.
  induction l as [|[k n] l IH]; intros Hnd Hall; cbn; [constructor|].
  apply NoDup_cons in Hnd as [Hk Hnd].
  assert (IH' := IH Hnd (fun kn H => Hall kn (list_elem_of_further _ _ _ H))).
  destruct (relative_to k d) as [[|x [|y r]]|] eqn:E; try done.
  cbn. apply NoDup_cons. split; [|done].
  intros Hx. apply list_elem_of_fmap in Hx as ([x' n'] & -> & Hx). cbn in *.
  apply list_elem_of_omap in Hx as ([k' m'] & Hk' & H). cbn in H.
  destruct (relative_to k' d) as [[|x'' [|y r]]|] eqn:E'; try done.
  injection H as -> ->.
  apply relative_to_Some in E, E'. subst k k'.
  apply Hk. apply list_elem_of_fmap. by exists (d ++ [x'], n').
Qed.

Lemma omap_fst_NoDup {A B : Type} (f : A * B -> option A) (l : list (A * B)) :
  (forall e x, f e = Some x -> x = e.1) -> NoDup l.*1 -> NoDup (omap f l).
Proof.
  intros Hf. induction l as [|e l IH]; cbn; [constructor|].
  intros [He Hnd]%NoDup_cons. destruct (f e) as [x|] eqn:E; [|by apply IH].
  apply NoDup_cons. split; [|by apply IH].
  apply Hf in E as ->. intros Hx. apply He.
  apply list_elem_of_omap in Hx as (e' & He' & Hx). apply Hf in Hx as ->.
  by apply list_elem_of_fmap_2.
Qed.

Lemma subdirs_NoDup (t : tree) (d : path) : NoDup (subdirs t d).
Proof.
  apply omap_fst_NoDup; [|apply children_NoDup].
  intros [x []] y; cbn; congruence.
Qed.

Lemma files_in_NoDup (t : tree) (d : path) : NoDup (files_in t d).
Proof.
  apply omap_fst_NoDup; [|apply children_NoDup].
  intros [x []] y; cbn; congruence.
Qed.

Lemma files_in_spec (t : tree) (d : path) (name : string) :
  name ∈ files_in t d <-> exists f, t !! (d ++ [name]) = Some (NFile f).
Proof.
  unfold files_in. rewrite list_elem_of_omap. split.
  - intros ([x n] & Hin & H). cbn in H. destruct n as [f|]; [|done].
    injection H as ->. exists f. by apply children_spec.
  - intros [f Hf]. exists (name, NFile f). split; [by apply children_spec | done].
Qed.

(** Every root of a walk lies at or below its top. *)
Lemma walk_from_roots (fuel : nat) (t : tree) : forall (top : path) tr,
  tr ∈ walk_from fuel t top -> exists r, tr.1.1 = top ++ r.
Proof.
  induction fuel as [|fuel IH]; intros top tr; simpl; [by intros ?%elem_of_nil|].
  rewrite elem_of_cons. intros [->|H].
  - exists []. by rewrite app_nil_r.
  - apply list_elem_of_In, in_flat_map in H as (name & _ & H).
    apply list_elem_of_In, IH in H as [r ->]. exists (name :: r). by rewrite <- app_assoc.
Qed.

Lemma walk_from_roots_NoDup (fuel : nat) (t : tree) : forall top : path,
  NoDup ((walk_from fuel t top).*1.*1).
Proof.
  induction fuel as [|fuel IH]; intros top; simpl; [constructor|].
  apply NoDup_cons. split.
  - intros H. apply list_elem_of_fmap in H as (x & Hx & H).
    apply list_elem_of_fmap in H as (tr & -> & H).
    apply list_elem_of_In, in_flat_map in H as (name & _ & H).
    apply list_elem_of_In, walk_from_roots in H as [r Hr]. rewrite Hr in Hx.
    rewrite <- app_assoc in Hx. apply (f_equal length) in Hx.
    rewrite length_app in Hx. cbn in Hx. lia.
  - pose proof (subdirs_NoDup t top) as Hnd. revert Hnd.
    generalize (subdirs t top). intros dirs.
    induction dirs as [|name dirs IHd]; intros Hnd; cbn; [constructor|].
    apply NoDup_cons in Hnd as [Hname Hnd].
    rewrite !fmap_app. apply NoDup_app. split; [apply IH|]. split; [|by apply IHd].
    intros x Hx Hx'.
    apply list_elem_of_fmap in Hx as (y & -> & Hy).
    apply list_elem_of_fmap in Hy as (tr & -> & Htr).
    apply walk_from_roots in Htr as [r Hr].
    apply list_elem_of_fmap in Hx' as (y' & Hy' & H').
    apply list_elem_of_fmap in H' as (tr' & -> & Htr').
    apply list_elem_of_In, in_flat_map in Htr' as (name' & Hname' & Htr').
    apply list_elem_of_In in Htr', Hname'.
    apply walk_from_roots in Htr' as [r' Hr'].
    rewrite Hr, Hr' in Hy'. rewrite <- !app_assoc in Hy'.
    apply app_inv_head in Hy'. injection Hy' as -> _. done.
Qed.

Lemma walk_from_files (fuel : nat) (t : tree) : forall (top : path) tr,
  tr ∈ walk_from fuel t top -> tr.2 = files_in t tr.1.1.
Proof.
  induction fuel as [|fuel IH]; intros top tr; simpl; [by intros ?%elem_of_nil|].
  rewrite elem_of_cons. intros [->|H]; [done|].
  apply list_elem_of_In, in_flat_map in H as (name & _ & H).
  by apply list_elem_of_In, IH in H.
Qed.

Lemma walk_files_NoDup_gen (triples : list (path * list string * list string)) :
  NoDup triples.*1.*1 -> (forall tr, tr ∈ triples -> NoDup tr.2) ->
  NoDup (walk_files triples).
Proof.
  induction triples as [|[[root dirs] files] triples IH]; cbn; [constructor|].
  intros [Hroot Hnd]%NoDup_cons Hfiles.
  apply NoDup_app. split; [|split].
  - apply NoDup_fmap_2; [|apply (Hfiles (root, dirs, files)); by left].
    intros x y H. by apply app_inv_head in H as [= ->].
  - intros p Hp Hp'.
    apply list_elem_of_fmap in Hp as (name & -> & _).
    apply list_elem_of_In, in_flat_map in Hp' as ([[root' dirs'] files'] & Htr & Hp').
    apply list_elem_of_In in Htr, Hp'. cbn in Hp'.
    apply list_elem_of_fmap in Hp' as (name' & Heq & _).
    apply app_inj_tail in Heq as [-> _]. apply Hroot.
    apply list_elem_of_fmap. exists (root', dirs'). split; [done|].
    apply list_elem_of_fmap. by exists (root', dirs', files').
  - apply IH; [done|]. intros tr Htr. apply Hfiles. by right.
Qed.

(** A walk names each file once. *)
Lemma walk_files_NoDup (t : tree) (top : path) : NoDup (walk_files (walk t top)).
Proof.
  unfold walk. destruct (is_dir t top); [|constructor].
  apply walk_files_NoDup_gen; [apply walk_from_roots_NoDup|].
  intros tr Htr. rewrite (walk_from_files _ _ _ _ Htr). apply files_in_NoDup.
Qed.

(** A chain of entries, each below the one before, is no longer than
    the tree is large: the fuel of a walk suffices. *)
Lemma chain_bound (r : path) : forall (t : tree) (top : path),
  (forall j, (1 <= j <= length r)%nat -> is_Some (t !! (top ++ take j r))) ->
  (length r <= size t)%nat.
Proof.
  induction r as [|n r IH]; intros t top Hchain; cbn; [lia|].
  pose proof (Hchain 1%nat ltac:(cbn; lia)) as H1. cbn in H1. rewrite take_0 in H1.
  assert (length r <= size (delete (top ++ [n]) t))%nat as Hle.
  { apply (IH _ (top ++ [n])). intros j Hj.
    rewrite lookup_delete_ne.
    - rewrite <- app_assoc. apply (Hchain (S j)). cbn. lia.
    - intros Heq. apply (f_equal length) in Heq. rewrite !length_app in Heq.
      rewrite length_take in Heq. cbn in Heq. lia. }
  rewrite map_size_delete_Some in Hle by done. destruct H1 as [x Hx].
  assert (size t <> 0)%nat by (apply map_size_ne_0_lookup_2 with (top ++ [n]); eauto).
  lia.
Qed.

Lemma subdirs_spec (t : tree) (d : path) (name : string) :
  name ∈ subdirs t d <-> t !! (d ++ [name]) = Some NDir.
Proof.
  unfold subdirs. rewrite list_elem_of_omap. split.
  - intros ([x n] & Hin & H). cbn in H. destruct n as [f|]; [done|].
    injection H as ->. by apply children_spec.
  - intros Hd. exists (name, NDir). split; [by apply children_spec | done].
Qed.

Lemma walk_from_complete (fuel : nat) (t : tree) : forall (top r : path),
  (length r < fuel)%nat ->
  (forall j, (1 <= j <= length r)%nat -> t !! (top ++ take j r) = Some NDir) ->
  exists tr, tr ∈ walk_from fuel t top /\ tr.1.1 = top ++ r.
Proof.
  induction fuel as [|fuel IH]; intros top r Hlen Hdirs; [lia|]. simpl.
  destruct r as [|n r].
  - eexists. split; [by left|]. cbn. by rewrite app_nil_r.
  - pose proof (Hdirs 1%nat ltac:(cbn; lia)) as H1. cbn in H1. rewrite take_0 in H1.
    destruct (IH (top ++ [n]) r) as (tr & Htr & Hroot).
    + cbn in Hlen. lia.
    + intros j Hj. rewrite <- app_assoc. apply (Hdirs (S j)). cbn. lia.
    + exists tr. split; [|by rewrite Hroot, <- app_assoc].
      right. apply list_elem_of_In, in_flat_map. exists n.
      split; apply list_elem_of_In; [by apply subdirs_spec | done].
Qed.

(** A walk reaches every regular file that lies below its top through
    directories. *)
Lemma walk_files_complete (t : tree) (top r : path) (name : string) (f : file) :
  is_dir t top = true ->
  (forall j, (1 <= j <= length r)%nat -> t !! (top ++ take j r) = Some NDir) ->
  t !! (top ++ r ++ [name]) = Some (NFile f) ->
  top ++ r ++ [name] ∈ walk_files (walk t top).
Proof.
  intros Htop Hdirs Hfile. unfold walk. rewrite Htop.
  destruct (walk_from_complete (S (size t)) t top r) as (tr & Htr & Hroot); [|done|].
  { assert (length r <= size t)%nat; [|lia].
    apply (chain_bound r t top). intros j Hj. rewrite Hdirs by done. eauto. }
  unfold walk_files. apply list_elem_of_In, in_flat_map. exists tr.
  split; [by apply list_elem_of_In|]. apply list_elem_of_In.
  rewrite (walk_from_files _ _ _ _ Htr), Hroot.
  apply list_elem_of_fmap. exists name. split; [by rewrite <- app_assoc|].
  apply files_in_spec. exists f. by rewrite <- app_assoc.
Qed.

(** * The publish stage *)

Lemma NoDup_fst_agree {A B : Type} (l : list (A * B)) (x : A) (b1 b2 : B) :
  NoDup l.*1 -> (x, b1) ∈ l -> (x, b2) ∈ l -> b1 = b2.
Proof.
  induction l as [|[y c] l IH]; cbn; [by intros _ ?%elem_of_nil|].
  intros [Hy Hnd]%NoDup_cons H1 H2.
  apply elem_of_cons in H1, H2. destruct H1 as [E1|H1], H2 as [E2|H2].
  - congruence.
  - injection E1 as <- <-. exfalso. apply Hy. apply list_elem_of_fmap. by exists (x, b2).
  - injection E2 as <- <-. exfalso. apply Hy. apply list_elem_of_fmap. by exists (x, b1).
  - by apply IH.
Qed.

Lemma upoll_frame (stop_check : option (nat -> bool)) (s : ustate) :
  u_local (upoll stop_check s).2 = u_local s
  /\ u_attempts (upoll stop_check s).2 = u_attempts s
  /\ u_log (upoll stop_check s).2 = u_log s.
Proof. by destruct stop_check. Qed.

Lemma collect_files_spec (stop_check : option (nat -> bool)) (local_dir remote_dir : path)
    (triples : list (path * list string * list string)) : forall s r s',
  collect_files stop_check local_dir remote_dir triples s = (r, s') ->
  u_local s' = u_local s /\ u_attempts s' = u_attempts s
  /\ forall files, r = Some files -> files.*1.*1 = walk_files triples.
Proof.
  induction triples as [|[[root dirs] files] triples IH]; intros s r s'; simpl.
  - intros [= <- <-]. repeat split. by intros ? [= <-].
  - destruct (upoll stop_check s) as [stop s1] eqn:E.
    pose proof (upoll_frame stop_check s) as (Hl & Ha & _). rewrite E in Hl, Ha. cbn in Hl, Ha.
    destruct stop; [intros [= <- <-]; cbn; by repeat split|].
    destruct (collect_files _ _ _ _ _) as [[more|] s2] eqn:E2; intros [= <- <-];
      apply IH in E2 as (Hl2 & Ha2 & Hf); (split; [congruence|]); (split; [congruence|]);
      [|done].
    intros ? [= <-]. rewrite !fmap_app, (Hf more eq_refl). cbn. f_equal.
    rewrite <- !list_fmap_compose. by apply list_fmap_ext.
Qed.

Lemma request_frame (srv : publish_server) (s : ustate) :
  u_local (request srv s).2 = u_local s /\ u_attempts (request srv s).2 = u_attempts s.
Proof. done. Qed.

Lemma sftp_stat_frame (srv : publish_server) (p : path) (s : ustate) :
  u_local (sftp_stat srv p s).2 = u_local s /\ u_attempts (sftp_stat srv p s).2 = u_attempts s.
Proof. unfold sftp_stat. cbn. by destruct (negb _). Qed.

Lemma sftp_mkdir_frame (srv : publish_server) (p : path) (s : ustate) :
  u_local (sftp_mkdir srv p s).2 = u_local s /\ u_attempts (sftp_mkdir srv p s).2 = u_attempts s.
Proof. unfold sftp_mkdir. cbn. by destruct (_ && _). Qed.

Lemma _ensure_remote_dir_frame (srv : publish_server) (rp : path) : forall s,
  u_local (_ensure_remote_dir srv rp s).2 = u_local s
  /\ u_attempts (_ensure_remote_dir srv rp s).2 = u_attempts s.
Proof.
  induction rp as [|c rp IH]; intros s; cbn [_ensure_remote_dir].
  - pose proof (sftp_stat_frame srv (rev []) s) as (H1 & H2).
    destruct (sftp_stat srv (rev []) s) as [[] s1]; cbn [snd] in *; try done.
    pose proof (sftp_mkdir_frame srv [] s1) as (H3 & H4). split; congruence.
  - pose proof (sftp_stat_frame srv (rev (c :: rp)) s) as (H1 & H2).
    destruct (sftp_stat srv (rev (c :: rp)) s) as [[] s1]; cbn [snd] in *; try done.
    assert (forall ok s2, (ok, s2) = match rp with
                                     | [] => (true, s1)
                                     | _ :: _ => _ensure_remote_dir srv rp s1
                                     end ->
            u_local s2 = u_local s /\ u_attempts s2 = u_attempts s) as Hpar.
    { intros ok s2 E. destruct rp as [|d rp'].
      - injection E as -> ->. done.
      - pose proof (IH s1) as (H3 & H4). rewrite <- E in H3, H4. cbn in *.
        split; congruence. }
    destruct (match rp with [] => (true, s1) | _ :: _ => _ end) as [ok s2] eqn:E.
    destruct (Hpar ok s2 eq_refl) as (H3 & H4).
    destruct ok; [|done].
    pose proof (sftp_mkdir_frame srv (rev (c :: rp)) s2) as (H5 & H6). split; congruence.
Qed.

(** [upload_file] leaves the local tree alone. *)
Lemma upload_file_frame (srv : publish_server) (now : Z) (local_file remote_file : path)
    (s : ustate) :
  u_local (upload_file srv now local_file remote_file s).2 = u_local s
  /\ u_attempts (upload_file srv now local_file remote_file s).2 = u_attempts s.
Proof.
  unfold upload_file.
  pose proof (_ensure_remote_dir_frame srv (rev (parent remote_file)) s) as (H1 & H2).
  destruct (_ensure_remote_dir _ _ _) as [ok s1]. cbn [snd] in *.
  destruct ok; cbn [negb]; [|done].
  destruct (u_local s1 !! local_file) as [[f|]|]; [|done|done].
  unfold sftp_put, sftp_utime. cbn.
  destruct (negb (pub_fault srv (u_ops s1))); cbn; [|done].
  destruct (open_wb _ _ _); cbn; [|done].
  destruct (negb (pub_fault srv (S (u_ops s1)))); cbn; [|done].
  destruct (_ !! remote_file) as [[?|]|]; done.
Qed.

Lemma upload_all_spec (srv : publish_server) (now : Z) (stop_check : option (nat -> bool))
    (files : list (path * path * path)) : forall stats uploaded s stats' uploaded' s',
  upload_all srv now stop_check files stats uploaded s = (stats', uploaded', s') ->
  u_local s' = u_local s
  /\ deleted_files stats' = deleted_files stats
  /\ exists new,
       u_attempts s' = u_attempts s ++ new
       /\ new.*1 `prefix_of` files.*1.*1
       /\ uploaded' = uploaded ++ successes new
       /\ uploaded_files stats' = (uploaded_files stats + length (successes new))%nat.
Proof.
  induction files as [|[[local_file remote_file] rel] files IH];
    intros stats uploaded s stats' uploaded' s'; simpl.
  - intros [= <- <- <-]. repeat split. exists []. rewrite !app_nil_r. cbn.
    repeat split; [apply prefix_nil | lia].
  - destruct (upoll stop_check s) as [stop s1] eqn:E.
    pose proof (upoll_frame stop_check s) as (Hl & Ha & _). rewrite E in Hl, Ha. cbn in Hl, Ha.
    destruct stop.
    { intros [= <- <- <-]. cbn. repeat split; [done|]. exists []. rewrite !app_nil_r. cbn.
      repeat split; [done | apply prefix_nil | lia]. }
    pose proof (upload_file_frame srv now local_file remote_file s1) as (Hl2 & Ha2).
    destruct (upload_file srv now local_file remote_file s1) as [[size|] s2]; cbn [snd] in *;
      intros H; apply IH in H as (Hl3 & Hd & new & Hnew & Hpre & Hup & Hcount); cbn in *.
    + split; [congruence|]. split; [done|].
      exists ((local_file, true) :: new). rewrite Hnew, Ha2, Ha. rewrite <- app_assoc.
      split; [done|]. split; [by apply prefix_cons|].
      unfold successes in *. rewrite filter_cons, decide_True by done. cbn.
      rewrite Hup, <- app_assoc. split; [done | lia].
    + split; [congruence|]. split; [done|].
      exists ((local_file, false) :: new). rewrite Hnew, Ha2, Ha. rewrite <- app_assoc.
      split; [done|]. split; [by apply prefix_cons|].
      unfold successes in *. rewrite filter_cons, decide_False by done.
      split; [done | lia].
Qed.

Lemma delete_uploaded_spec (stop_check : option (nat -> bool)) (uploaded : list path) :
  forall stats s stats' s',
  delete_uploaded stop_check uploaded stats s = (stats', s') ->
  u_attempts s' = u_attempts s
  /\ uploaded_files stats' = uploaded_files stats
  /\ (deleted_files stats' <= deleted_files stats + length uploaded)%nat
  /\ forall p, p ∉ uploaded -> u_local s' !! p = u_local s !! p.
Proof.
  induction uploaded as [|q uploaded IH]; intros stats s stats' s'; simpl.
  - intros [= <- <-]. repeat split. lia.
  - destruct (upoll stop_check s) as [stop s1] eqn:E.
    pose proof (upoll_frame stop_check s) as (Hl & Ha & _). rewrite E in Hl, Ha. cbn in Hl, Ha.
    destruct stop.
    { intros [= <- <-]. cbn. repeat split; [done | lia |]. intros p _. by rewrite Hl. }
    destruct (os_remove (u_local s1) q) as [t|] eqn:Hrm;
      intros H; apply IH in H as (Ha2 & Hu & Hd & Hframe); cbn in *.
    + repeat split; [congruence | done | lia |].
      intros p Hp. apply not_elem_of_cons in Hp as [Hpq Hp]. rewrite (Hframe p Hp).
      unfold os_remove in Hrm. destruct (u_local s1 !! q) as [[f|]|]; [|done|done].
      injection Hrm as <-. rewrite lookup_delete_ne by done. by rewrite Hl.
    + repeat split; [congruence | done | lia |].
      intros p Hp. apply not_elem_of_cons in Hp as [Hpq Hp]. rewrite (Hframe p Hp).
      by rewrite Hl.
Qed.

Lemma os_rmdir_keeps_files (t : tree) (p : path) (t' : tree) :
  os_rmdir t p = Some t' -> keeps_files t t'.
Proof.
  unfold os_rmdir. destruct (t !! p) as [[f|]|] eqn:E; [done| |done].
  destruct (children t p); [|done]. intros [= <-] q f.
  destruct (decide (p = q)) as [<-|Hne].
  - rewrite lookup_delete_eq, E. split; done.
  - by rewrite lookup_delete_ne.
Qed.

Lemma prune_dirs_spec (local_dir root : path) (dirs : list string) : forall s,
  keeps_files (u_local s) (u_local (prune_dirs local_dir root dirs s))
  /\ u_attempts (prune_dirs local_dir root dirs s) = u_attempts s.
Proof.
  induction dirs as [|d dirs IH]; intros s; simpl; [by split|].
  match goal with |- context [prune_dirs _ _ _ ?x] => set (s1 := x) end.
  assert (keeps_files (u_local s) (u_local s1) /\ u_attempts s1 = u_attempts s) as [Hk Ha].
  { subst s1. destruct (listdir _ _) as [[|x l]|]; [|done|done].
    destruct (os_rmdir _ _) as [t|] eqn:E; [|done]. cbn. split; [|done].
    by eapply os_rmdir_keeps_files. }
  destruct (IH s1) as [Hk2 Ha2]. split; [|congruence].
  intros p f. by rewrite (Hk p f).
Qed.

Lemma prune_walk_spec (stop_check : option (nat -> bool)) (local_dir : path)
    (triples : list (path * list string * list string)) : forall s,
  keeps_files (u_local s) (u_local (prune_walk stop_check local_dir triples s))
  /\ u_attempts (prune_walk stop_check local_dir triples s) = u_attempts s.
Proof.
  induction triples as [|[[root dirs] files] triples IH]; intros s; simpl; [by split|].
  destruct (upoll stop_check s) as [stop s1] eqn:E.
  pose proof (upoll_frame stop_check s) as (Hl & Ha & _). rewrite E in Hl, Ha. cbn in Hl, Ha.
  destruct stop; [rewrite Hl, Ha; by split|].
  destruct (prune_dirs_spec local_dir root dirs s1) as [Hk1 Ha1].
  destruct (IH (prune_dirs local_dir root dirs s1)) as [Hk2 Ha2].
  split; [|congruence]. intros p f. rewrite <- Hl. by rewrite (Hk1 p f).
Qed.

Lemma successes_spec (attempts : list (path * bool)) (p : path) :
  p ∈ successes attempts <-> (p, true) ∈ attempts.
Proof.
  unfold successes. rewrite list_elem_of_fmap. split.
  - intros ([q b] & -> & H). apply list_elem_of_filter in H as [Hb H]. cbn in *. by subst.
  - intros H. exists (p, true). split; [done|]. by apply list_elem_of_filter.
Qed.

(** The heart of C8: what [upload_folder] does to the local files and to
    its counters, whatever the value of [delete_after_upload]. *)
Lemma upload_folder_spec (srv : publish_server) (now : Z) (local_dir remote_dir : path)
    (stop_check : option (nat -> bool)) (delete_after_upload : bool) (s : ustate) r s' :
  upload_folder srv now local_dir remote_dir stop_check delete_after_upload s = (r, s') ->
  exists new,
    u_attempts s' = u_attempts s ++ new
    /\ NoDup new.*1
    /\ (forall stats, r = Some stats ->
          uploaded_files stats = length (successes new)
          /\ (deleted_files stats <= uploaded_files stats)%nat)
    /\ (forall p f, u_local s !! p = Some (NFile f) -> p ∉ successes new ->
          u_local s' !! p = Some (NFile f))
    /\ (delete_after_upload = false -> u_local s' = u_local s).
Proof.
  unfold upload_folder.
  assert (Hnil : forall s0 : ustate, u_attempts s0 = u_attempts s -> u_local s0 = u_local s ->
            forall r0, (forall stats, r0 = Some stats -> stats = zero_ustats) ->
            exists new, u_attempts s0 = u_attempts s ++ new /\ NoDup new.*1
              /\ (forall stats, r0 = Some stats ->
                    uploaded_files stats = length (successes new)
                    /\ (deleted_files stats <= uploaded_files stats)%nat)
              /\ (forall p f, u_local s !! p = Some (NFile f) -> p ∉ successes new ->
                    u_local s0 !! p = Some (NFile f))
              /\ (delete_after_upload = false -> u_local s0 = u_local s)).
  { intros s0 Ha Hl r0 Hr. exists []. rewrite app_nil_r. split; [done|].
    split; [constructor|]. split; [|split; [|done]].
    - intros stats ->%Hr. cbn. lia.
    - intros p f Hp _. by rewrite Hl. }
  destruct (path_exists (u_local s) local_dir); cbn [negb].
  2:{ intros [= <- <-]. apply Hnil; [done | done |]. by intros ? [= <-]. }
  destruct (collect_files _ _ _ _ _) as [[files|] s1] eqn:Hcol;
    apply collect_files_spec in Hcol as (Hl1 & Ha1 & Hfiles).
  2:{ intros [= <- <-]. apply Hnil; [done | done |]. by intros ? [= <-]. }
  specialize (Hfiles files eq_refl).
  destruct files as [|file files].
  { intros [= <- <-]. apply Hnil; [done | done |]. by intros ? [= <-]. }
  destruct (pub_connect_ok srv); cbn [negb].
  2:{ intros [= <- <-]. apply Hnil; [done | done | done]. }
  destruct (upload_all _ _ _ _ _ _ _) as [[stats uploaded] s2] eqn:Hup.
  apply upload_all_spec in Hup as (Hl2 & Hd2 & new & Hnew & Hpre & Hupl & Hcount).
  cbn in Hl2, Hd2, Hnew, Hupl, Hcount.
  assert (Hnd : NoDup new.*1).
  { destruct Hpre as [k Hk]. rewrite Hfiles in Hk.
    pose proof (walk_files_NoDup (u_local s) local_dir) as H. rewrite Hk in H.
    by apply NoDup_app in H as [H _]. }
  destruct (delete_after_upload && negb (bool_decide (uploaded = []))) eqn:Hdel.
  - destruct (delete_uploaded _ _ _ _) as [stats3 s3] eqn:Hdu.
    apply delete_uploaded_spec in Hdu as (Ha3 & Hu3 & Hd3 & Hframe). cbn in Ha3, Hframe.
    match goal with |- context [prune_walk ?a ?b ?c ?d] =>
      destruct (prune_walk_spec a b c d) as [Hk4 Ha4]; set (s4 := prune_walk a b c d) in * end.
    intros [= <- <-]. cbn. exists new. cbn in Ha4.
    split; [congruence|]. split; [done|]. split; [|split].
    + intros ? [= <-]. rewrite Hu3, Hcount. rewrite Hupl in Hd3. cbn in *. lia.
    + intros p f Hp Hnot. apply Hk4. cbn. rewrite Hframe by (by rewrite Hupl).
      by rewrite Hl2, Hl1.
    + intros ->. done.
  - intros [= <- <-]. cbn. exists new.
    split; [congruence|]. split; [done|]. split; [|split].
    + intros ? [= <-]. rewrite Hcount. lia.
    + intros p f Hp _. by rewrite Hl2, Hl1.
    + intros _. congruence.
Qed.

(** C8 -- In an [upload_folder] run with [delete_after_upload] enabled,
    a local file whose upload raised is still there, unchanged, when the
    run ends; a local file that was removed or changed is one whose
    upload returned in this run; and [deleted_files <= uploaded_files]
    in the statistics returned. *)
Theorem upload_folder_deletes_only_uploaded (srv : publish_server) (now : Z)
    (local_dir remote_dir : path) (stop_check : option (nat -> bool)) (s : ustate) :
  let run := upload_folder srv now local_dir remote_dir stop_check true s in
  u_attempts s = [] ->
  (forall p f, u_local s !! p = Some (NFile f) -> (p, false) ∈ u_attempts run.2 ->
     u_local run.2 !! p = Some (NFile f))
  /\ (forall p f, u_local s !! p = Some (NFile f) -> u_local run.2 !! p <> Some (NFile f) ->
        (p, true) ∈ u_attempts run.2)
  /\ (forall stats, run.1 = Some stats ->
        (deleted_files stats <= uploaded_files stats)%nat).
Proof.
  intros run Hfresh.
  destruct (upload_folder_spec srv now local_dir remote_dir stop_check true s run.1 run.2)
    as (new & Ha & Hnd & Hstats & Hkeep & _); [apply surjective_pairing|].
  rewrite Hfresh in Ha. cbn in Ha. rewrite Ha. split; [|split].
  - intros p f Hp Hfail. apply Hkeep; [done|]. rewrite successes_spec. intros Hok.
    by pose proof (NoDup_fst_agree _ _ _ _ Hnd Hfail Hok).
  - intros p f Hp Hchanged. apply successes_spec.
    destruct (decide (p ∈ successes new)) as [|Hnot]; [done|].
    exfalso. apply Hchanged. by apply Hkeep.
  - intros stats Hr. by apply Hstats.
Qed.

Lemma upload_folder_deletes_only_uploaded_witness :
  let run := upload_folder (Publisher true (fault_at 1)) 500 ["out"] ["publish"] None true
               publish_start in
  u_local run.2 !! ["out"; "c.jpg"]
    = Some (NFile (File (repeat Byte.x43 9) 0 (102 * NS)))
  /\ (forall stats, run.1 = Some stats ->
        (deleted_files stats <= uploaded_files stats)%nat).
Proof.
  cbv zeta.
  destruct (upload_folder_deletes_only_uploaded (Publisher true (fault_at 1)) 500
              ["out"] ["publish"] None publish_start eq_refl) as (Hkept & _ & Hle).
  split; [|exact Hle].
  apply Hkept; [reflexivity | by_compute].
Defined.

Lemma usleep_frame (stop_check : option (nat -> bool)) (ticks : nat) : forall s,
  u_local (usleep stop_check ticks s) = u_local s.
Proof.
  induction ticks as [|n IH]; intros s; simpl; [done|].
  pose proof (upoll_frame stop_check s) as (Hl & _).
  destruct (upoll stop_check s) as [[] s1]; cbn in *; [done|]. by rewrite IH.
Qed.

Lemma upload_cycles_local (fuel : nat) (srv : publish_server) (now : nat -> Z)
    (local_dir remote_dir : path) (stop_check : option (nat -> bool)) (interval : Z) :
  forall (cycle_count : nat) (total : UStats) (s : ustate),
  u_local (upload_cycles fuel srv now local_dir remote_dir stop_check interval false
             cycle_count total s).2 = u_local s.
Proof.
  induction fuel as [|fuel IH]; intros cycle_count total s; simpl.
  - pose proof (upoll_frame stop_check s) as (Hl & _).
    by destruct (upoll stop_check s) as [[] s1].
  - pose proof (upoll_frame stop_check s) as (Hl & _).
    destruct (upoll stop_check s) as [[] s1]; cbn [snd] in *; [done|].
    destruct (negb (path_exists (u_local s1) local_dir)).
    { by rewrite IH, usleep_frame. }
    destruct (negb (has_files (u_local s1) local_dir)).
    { by rewrite IH, usleep_frame. }
    match goal with |- context [upload_folder ?a ?b ?c ?d ?e ?f ?g] =>
      destruct (upload_folder a b c d e f g) as [r s2] eqn:Hup end.
    apply upload_folder_spec in Hup as (_ & _ & _ & _ & _ & Hsame).
    specialize (Hsame eq_refl). cbn in Hsame.
    assert (Hend : forall total' s3, u_local s3 = u_local s2 ->
              u_local (let (stop, s4) := upoll stop_check s3 in
                       upload_cycles fuel srv now local_dir remote_dir stop_check interval
                         false (S cycle_count) total'
                         (if stop then s4 else usleep stop_check (ticks_of interval) s4)).2
              = u_local s).
    { intros total' s3 H3. pose proof (upoll_frame stop_check s3) as (Hl3 & _).
      destruct (upoll stop_check s3) as [[] s4]; cbn [snd] in *.
      - rewrite IH. congruence.
      - rewrite IH, usleep_frame. congruence. }
    destruct r as [stats|]; [|by apply Hend].
    destruct (0 <? uploaded_files stats)%nat; by apply Hend.
Qed.

(** C10 -- Every run of the publish worker started through
    [/upload/run] calls [upload_folder] (one-shot) or [watch_and_upload]
    (continuous) with [delete_after_upload=False]; whatever the settings,
    the server and the stop flag do, and however long the run is
    observed, the local tree is the one the run started with: no file
    and no directory is deleted. *)
Theorem run_upload_never_deletes (fuel : nat) (srv : publish_server) (now : nat -> Z)
    (settings_data : option SftpSettings) (stop_flag : nat -> bool)
    (fl : stage_flags) (s : ustate) :
  u_local (_run_upload fuel srv now settings_data stop_flag fl s).2 = u_local s.
Proof.
  unfold _run_upload. destruct settings_data as [settings|]; [|done].
  destruct (compress_output_dir settings) as [out|]; [|done].
  destruct (remote_output_dir settings) as [remote|]; [|by destruct (blank out)].
  destruct (blank out); [done|]. destruct (blank remote); [done|].
  destruct (lock_held fl); [done|].
  destruct (upload_interval_seconds settings =? 0).
  - destruct (upload_folder _ _ _ _ _ _ _) as [r s1] eqn:Hup.
    apply upload_folder_spec in Hup as (_ & _ & _ & _ & _ & Hsame).
    specialize (Hsame eq_refl). by destruct r.
  - unfold watch_and_upload.
    pose proof (upload_cycles_local fuel srv now (to_path out) (to_path remote)
                  (Some stop_flag) (upload_interval_seconds settings) 0 zero_ustats
                  (ulog INFO MsgUploadWatchInterval (ulog INFO MsgUploadWatchStart s))) as H.
    destruct (upload_cycles _ _ _ _ _ _ _ _ _ _ _) as [[r|] s1]; cbn in *; done.
Qed.

(** * The control surface *)

(** C7 (as amended) -- A transcode run triggered while the stage is idle
    with a required directory missing from the settings is answered
    "started" like any other; the missing setting is found by the worker
    thread, which logs it as an error and returns without taking the
    lock, touching the flags or starting any work. *)
Theorem missing_directory_is_only_logged (fuel : nat) (pil : image_codec) (now : nat -> Z)
    (settings : SftpSettings) (stop_flag : nat -> bool) (fl : stage_flags) (s : cstate) :
  running fl = false ->
  blank (local_dir settings) = true \/ unset (compress_output_dir settings) = true ->
  run_compress fl = (Started, true, [(INFO, MsgRunRequested)])
  /\ exists m,
       _run_compress fuel pil now (Some settings) stop_flag fl s
         = (ReturnedEarly, fl, clog ERROR m s)
       /\ (m = MsgMissingLocalDir \/ m = MsgMissingOutputDir).
Proof.
  intros Hidle Hmissing. split.
  - unfold run_compress, run_handler. by rewrite Hidle.
  - unfold _run_compress. destruct (blank (local_dir settings)) eqn:Hl.
    + exists MsgMissingLocalDir. by split; [|left].
    + destruct Hmissing as [?|Hout]; [done|].
      exists MsgMissingOutputDir. split; [|by right].
      destruct (compress_output_dir settings) as [out|]; [|done].
      cbn in Hout. by rewrite Hout.
Qed.

Lemma missing_directory_is_only_logged_witness :
  run_compress idle = (Started, true, [(INFO, MsgRunRequested)])
  /\ exists m,
       _run_compress 1 scen_codec (fun _ => 0) (Some unconfigured_settings) never_stop idle
         (CState scen_disk [] 0 [])
         = (ReturnedEarly, idle, clog ERROR m (CState scen_disk [] 0 []))
       /\ (m = MsgMissingLocalDir \/ m = MsgMissingOutputDir).
Proof.
  apply (missing_directory_is_only_logged 1 scen_codec (fun _ => 0) unconfigured_settings
           never_stop idle (CState scen_disk [] 0 [])).
  - reflexivity.
  - right. reflexivity.
Defined.

(** C7, as stated, fails: with no output directory configured, the
    caller of [/compress/run] is answered "started", not an error; the
    failure only reaches the log, from the worker thread. *)
Lemma missing_directory_answered_started :
  (run_compress idle).1.1 = Started
  /\ c_log (_run_compress 1 scen_codec (fun _ => 0) (Some unconfigured_settings) never_stop
              idle (CState scen_disk [] 0 [])).2
     = [(ERROR, MsgMissingOutputDir)].
Proof. split; reflexivity. Qed.

(** ** One live execution per stage *)

Lemma live_count_app (ws1 ws2 : list worker) :
  live_count (Supervisor idle (ws1 ++ ws2))
  = (live_count (Supervisor idle ws1) + live_count (Supervisor idle ws2))%nat.
Proof. unfold live_count. cbn. by rewrite filter_app, length_app. Qed.

Lemma live_count_insert (fl fl' : stage_flags) (ws : list worker) (i : nat) (w w' : worker) :
  ws !! i = Some w ->
  (live_count (Supervisor fl' (<[i := w']> ws)) + (if live w then 1 else 0)
   = live_count (Supervisor fl ws) + (if live w' then 1 else 0))%nat.
Proof.
  intros Hi. unfold live_count. cbn.
  assert (Hlen : (i < length ws)%nat) by (by eapply lookup_lt_Some).
  rewrite insert_take_drop by done.
  rewrite <- (take_drop_middle ws i w Hi) at 3.
  rewrite !filter_app, !filter_cons, !length_app.
  destruct (live w), (live w'); repeat case_decide; try done; cbn [length]; lia.
Qed.

Lemma fire_lock_counts (has_reset : bool) (ev : event) (st : supervisor) :
  has_reset = false \/ ev <> Reset ->
  lock_counts st -> lock_counts (fire has_reset ev st).2.
Proof.
  intros Hreset Hinv. unfold lock_counts in *. destruct ev as [| | |i]; cbn.
  - unfold run_handler. destruct (running (flags st)); cbn; [done|].
    unfold live_count in *. cbn. rewrite filter_app, length_app. cbn.
    by rewrite Nat.add_0_r.
  - unfold stop_handler. by destruct (running (flags st)).
  - destruct Hreset as [->|?]; done.
  - destruct (workers st !! i) as [w|] eqn:Hi; [|done].
    destruct (advance (flags st) w) as [fl w'] eqn:Hadv. cbn.
    pose proof (live_count_insert (flags st) fl (workers st) i w w' Hi) as Hcount.
    change (live_count (Supervisor (flags st) (workers st))) with (live_count st) in Hcount.
    assert (Hlive : live w = true -> (1 <= live_count st)%nat).
    { intros Hw. unfold live_count. apply list_elem_of_lookup_2 in Hi.
      assert (Hin : w ∈ filter (fun w => live w = true) (workers st))
        by (by apply list_elem_of_filter).
      destruct (filter _ _); [by apply elem_of_nil in Hin | cbn; lia]. }
    destruct w; cbn in Hadv;
      try (injection Hadv as <- <-; cbn in *; destruct (lock_held (flags st)); lia).
    unfold live_count in *. cbn in Hcount.
    destruct (lock_held (flags st)) eqn:Hlock; injection Hadv as <- <-; cbn in *;
      rewrite ?Hlock; lia.
Qed.

Lemma run_events_lock_counts (has_reset : bool) (evs : list event) : forall st,
  has_reset = false \/ Reset ∉ evs ->
  lock_counts st -> lock_counts (run_events has_reset evs st).
Proof.
  induction evs as [|ev evs IH]; intros st Hreset Hinv; simpl; [done|].
  apply IH.
  - destruct Hreset as [?|Hnot]; [by left|]. right. intros ?. apply Hnot. by right.
  - apply fire_lock_counts; [|done].
    destruct Hreset as [?|Hnot]; [by left|]. right. intros ->. apply Hnot. by left.
Qed.

(** C5 (as amended) -- Take any interleaving of requests and worker
    statements from an idle stage in which the lock is not forced open
    (the stage has no reset route, or none is requested).  At every
    moment at most one worker is between [lock.acquire] and
    [lock.release].  A trigger that finds the running flag true is
    answered 409 at once and leaves the stage as it is: no thread is
    started, nothing is queued.  A trigger that finds the running flag
    false is accepted: it is answered "started" and a worker thread is
    started. *)
Theorem one_live_execution_per_stage (has_reset : bool) (evs : list event) (st : supervisor) :
  has_reset = false \/ Reset ∉ evs ->
  (live_count (run_events has_reset evs boot) <= 1)%nat
  /\ (running (flags st) = true -> fire has_reset Trigger st = (Some Conflict, st))
  /\ (running (flags st) = false ->
        fire has_reset Trigger st
        = (Some Started, Supervisor (flags st) (workers st ++ [AtAcquire]))).
Proof.
  intros Hreset. split; [|split].
  - pose proof (run_events_lock_counts has_reset evs boot Hreset eq_refl) as H.
    unfold lock_counts in H. rewrite H. destruct (lock_held _); lia.
  - intros Hr. cbn. unfold run_handler. rewrite Hr. by destruct st.
  - intros Hr. cbn. unfold run_handler. by rewrite Hr.
Qed.

Lemma one_live_execution_per_stage_witness :
  let st := run_events false orderly_events boot in
  (live_count st <= 1)%nat
  /\ (running (flags st) = true -> fire false Trigger st = (Some Conflict, st))
  /\ (running (flags st) = false ->
        fire false Trigger st
        = (Some Started, Supervisor (flags st) (workers st ++ [AtAcquire]))).
Proof.
  apply (one_live_execution_per_stage false orderly_events
           (run_events false orderly_events boot)).
  left. reflexivity.
Defined.

(** C5, as stated, fails for the mirror stage: a run is live, the
    operator forces the lock open with [/sync/reset] and triggers again;
    the trigger is accepted, the new worker takes the lock, and two
    executions are live at once. *)
Lemma forced_unlock_two_live_executions :
  live_count (run_events true forced_events boot) = 2%nat
  /\ workers (run_events true forced_events boot) = [InBody; AtSetRunning].
Proof. split; reflexivity. Qed.

(** * More on the mirror stage *)

Lemma _list_remote_strict : forall (t : rtree) (rd p : path) (a : sftp_attrs),
  (p, a) ∈ _list_remote t rd -> exists rel, rel <> [] /\ p = rd ++ rel.
Proof.
  fix IH 1. intros [entries|] rd p a; simpl; [|by intros ?%elem_of_nil].
  induction entries as [|[[name e] sub] es IHes]; simpl.
  - by intros ?%elem_of_nil.
  - rewrite elem_of_cons, elem_of_app. intros [[= -> ->]|[H|H]].
    + by exists [name].
    + destruct (a_isdir e); [|by apply elem_of_nil in H].
      apply IH in H as (rel & _ & ->). exists ([name] ++ rel).
      split; [done | by rewrite app_assoc].
    + by apply IHes.
Qed.

(** X1 -- [_list_remote] only yields paths strictly below the directory
    it was asked to list: for each of them [Path.relative_to] returns a
    relative path with at least one component, so the [ValueError] of
    lines 150 and 158 cannot occur on a listed item. *)
Theorem list_remote_below (t : rtree) (rd p : path) (a : sftp_attrs) :
  (p, a) ∈ _list_remote t rd ->
  exists rel, rel <> [] /\ relative_to p rd = Some rel.
Proof.
  intros H. apply _list_remote_strict in H as (rel & Hne & ->). exists rel. split; [done|].
  by apply relative_to_Some.
Qed.

Lemma list_remote_below_witness :
  exists rel, rel <> [] /\
    relative_to ["srv"; "data"; "sub"; "b.txt"] (remote_dir scen_settings) = Some rel.
Proof.
  apply (list_remote_below (remote_root scen_server) (remote_dir scen_settings)
           ["srv"; "data"; "sub"; "b.txt"] (Attrs false 3 70 70)).
  by_compute.
Defined.

Lemma sync_once_touched (settings : SftpSettings) (srv : sftp_server)
    (should_stop : nat -> bool) (now : Z) (polls0 : nat) (local : tree) :
  touched (remote_dir settings)
    (fun p => p ∈ (_list_remote (remote_root srv) (remote_dir settings)).*1)
    local (s_fs (sync_once settings srv should_stop now polls0 local).2).
Proof.
  unfold sync_once. destruct (connect_ok srv); [|apply touched_refl].
  cbn -[sync_loop].
  match goal with |- context [sync_loop ?a ?b ?c ?d ?e ?f ?g] =>
    destruct (sync_loop a b c d e f g) as [c0 s3] eqn:Hloop end.
  apply sync_loop_spec in Hloop as [Ht _]. exact Ht.
Qed.

(** X2 -- A mirror cycle never removes anything: every entry of the
    local tree is still there afterwards, a directory is still a
    directory, and a regular file whose path is not in the remote
    listing is unchanged, whatever the server and the stop flag do. *)
Theorem sync_once_keeps_local (settings : SftpSettings) (srv : sftp_server)
    (should_stop : nat -> bool) (now : Z) (polls0 : nat) (local : tree) :
  let items := _list_remote (remote_root srv) (remote_dir settings) in
  let after := s_fs (sync_once settings srv should_stop now polls0 local).2 in
  (forall q, is_Some (local !! q) -> is_Some (after !! q))
  /\ (forall q, local !! q = Some NDir -> after !! q = Some NDir)
  /\ (forall q f, local !! q = Some (NFile f) ->
        remote_dir settings ++ q ∉ items.*1 -> after !! q = Some (NFile f)).
Proof.
  intros items after.
  pose proof (sync_once_touched settings srv should_stop now polls0 local) as Ht.
  fold items after in Ht.
  split; [|split].
  - intros q [n Hq]. destruct (Ht q) as [E|[[E _]|(_ & _ & f & E)]]; rewrite ?E; eauto.
    congruence.
  - intros q Hq. destruct (Ht q) as [E|[[E _]|(_ & E & _)]]; congruence.
  - intros q f Hq Hnot. destruct (Ht q) as [E|[[E _]|(HP & _)]]; [congruence.. | done].
Qed.

(** X3 -- When the stop flag is already up at the first poll of the
    loop, no remote item is processed: the cycle returns
    [copied = 0, skipped = 0] and the local tree is as before. *)
Theorem sync_once_stopped_at_once (settings : SftpSettings) (srv : sftp_server)
    (should_stop : nat -> bool) (now : Z) (polls0 : nat) (local : tree) :
  connect_ok srv = true ->
  should_stop polls0 = true ->
  (sync_once settings srv should_stop now polls0 local).1 = Summary 0 0
  /\ s_fs (sync_once settings srv should_stop now polls0 local).2 = local.
Proof.
  intros Hconn Hstop. rewrite (sync_once_connected _ _ _ _ _ _ Hconn). cbn -[sync_loop].
  destruct (_list_remote _ _) as [|[p a] items]; [done|].
  cbn. unfold sync_item. cbn. by rewrite Hstop.
Qed.

Lemma sync_once_stopped_at_once_witness :
  (sync_once scen_settings scen_server (stop_from 0) scen_now 0 synced_local).1 = Summary 0 0
  /\ s_fs (sync_once scen_settings scen_server (stop_from 0) scen_now 0 synced_local).2
     = synced_local.
Proof.
  apply (sync_once_stopped_at_once scen_settings scen_server (stop_from 0) scen_now 0
           synced_local); reflexivity.
Defined.

Lemma copy_chunks_dirs (should_stop : nat -> bool) (now : Z) (rel : path)
    (reads : list read_result) : forall s c s',
  copy_chunks should_stop now rel reads s = (c, s') -> dirs_created s' = dirs_created s.
Proof.
  induction reads as [|r reads IH]; intros s c s'; simpl.
  - destruct (should_stop _); by intros [= <- <-].
  - destruct (should_stop _); [by intros [= <- <-]|].
    destruct r as [[|b chunk]|]; [by intros [= <- <-] | | by intros [= <- <-]].
    intros H. by apply IH in H.
Qed.

(** One item moves the counters by at most one: a file is copied or
    skipped, a directory is created. *)
Lemma sync_item_counts (settings : SftpSettings) (srv : sftp_server)
    (should_stop : nat -> bool) (now : Z) (idx : gmap (list string) stat_result)
    (p : path) (a : sftp_attrs) (s : sync_state) c s' :
  sync_item settings srv should_stop now idx (p, a) s = (c, s') ->
  (copied s <= copied s' /\ skipped s <= skipped s' /\ dirs_created s <= dirs_created s')%nat
  /\ (copied s' + skipped s' <= copied s + skipped s + (if a_isdir a then 0 else 1))%nat
  /\ (dirs_created s' <= dirs_created s + (if a_isdir a then 1 else 0))%nat.
Proof.
  unfold sync_item. cbn. destruct (should_stop _); [intros [= <- <-]; cbn; lia|].
  destruct (a_isdir a) eqn:Hd.
  - assert (forall c1 s1, sync_dir settings p
              (SyncState (s_fs s) (s_log s) (S (s_polls s)) (copied s) (skipped s)
                 (dirs_created s)) = (c1, s1) ->
            copied s1 = copied s /\ skipped s1 = skipped s
            /\ (dirs_created s <= dirs_created s1 <= S (dirs_created s))%nat) as Hdir.
    { intros c1 s1. unfold sync_dir. cbn.
      destruct (relative_to p _); [|intros [= <- <-]; cbn; lia].
      destruct (path_exists _ _); [intros [= <- <-]; cbn; lia|].
      destruct (mkdir_parents _ _); intros [= <- <-]; cbn; lia. }
    destruct (sync_dir settings p _) as [c1 s1]. specialize (Hdir _ _ eq_refl).
    destruct c1; intros [= <- <-]; cbn; lia.
  - assert (forall c1 s1, sync_file settings srv should_stop now idx p a
              (SyncState (s_fs s) (s_log s) (S (s_polls s)) (copied s) (skipped s)
                 (dirs_created s)) = (c1, s1) ->
            dirs_created s1 = dirs_created s
            /\ (copied s1 = copied s /\ skipped s1 = skipped s
                \/ copied s1 = copied s /\ skipped s1 = S (skipped s)
                \/ copied s1 = S (copied s) /\ skipped s1 = skipped s)) as Hfile.
    { intros c1 s1. unfold sync_file. cbn.
      destruct (relative_to p _) as [rel|]; [|intros [= <- <-]; cbn; auto].
      destruct (mkdir_parents _ _) as [t1|]; [|intros [= <- <-]; cbn; auto].
      rewrite compare_local_eq.
      destruct (same_file _ _); [intros [= <- <-]; cbn; auto|].
      unfold copy_file. cbn.
      destruct (should_stop _); [intros [= <- <-]; cbn; auto|].
      destruct (sftp_open srv p); [|intros [= <- <-]; cbn; auto].
      destruct (open_wb _ _ _); [|intros [= <- <-]; cbn; auto].
      destruct (copy_chunks _ _ _ _ _) as [c2 s2] eqn:Hcc.
      pose proof (copy_chunks_dirs _ _ _ _ _ _ _ Hcc) as Hdirs.
      apply (copy_chunks_spec _ _ (remote_dir settings)) in Hcc as (_ & _ & Hc & Hs).
      cbn in Hc, Hs, Hdirs.
      destruct c2; [|intros [= <- <-]; auto|intros [= <- <-]; auto].
      destruct (utime _ _ _ _); intros [= <- <-]; cbn; auto.
      split; [done|]. right. right. split; congruence. }
    destruct (sync_file _ _ _ _ _ _ _ _) as [c1 s1]. specialize (Hfile _ _ eq_refl).
    destruct c1; intros [= <- <-]; cbn; lia.
Qed.

Lemma sync_loop_counts (settings : SftpSettings) (srv : sftp_server)
    (should_stop : nat -> bool) (now : Z) (idx : gmap (list string) stat_result)
    (items : list (path * sftp_attrs)) : forall s c s',
  sync_loop settings srv should_stop now idx items s = (c, s') ->
  (copied s' + skipped s' <= copied s + skipped s + length (listed_files items))%nat
  /\ (dirs_created s' <= dirs_created s + length (listed_dirs items))%nat.
Proof.
  induction items as [|[p a] items IH]; intros s c s'; simpl.
  - intros [= <- <-]. cbn. lia.
  - destruct (sync_item _ _ _ _ _ _ _) as [c1 s1] eqn:H1.
    apply sync_item_counts in H1 as (_ & Hcs & Hd).
    assert (length (listed_files ((p, a) :: items))
            = ((if a_isdir a then 0 else 1) + length (listed_files items))%nat
            /\ length (listed_dirs ((p, a) :: items))
            = ((if a_isdir a then 1 else 0) + length (listed_dirs items))%nat) as [-> ->].
    { unfold listed_files, listed_dirs. rewrite !filter_cons. cbn.
      destruct (a_isdir a); by repeat case_decide. }
    destruct c1; [|intros [= <- <-]; lia|intros [= <- <-]; lia].
    intros H2. apply IH in H2. lia.
Qed.

(** X4 -- The counters of a cycle are bounded by the listing: the files
    copied and skipped together are at most the regular files listed,
    and the directories created at most the directories listed. *)
Theorem sync_once_counts_bounded (settings : SftpSettings) (srv : sftp_server)
    (should_stop : nat -> bool) (now : Z) (polls0 : nat) (local : tree)
    (n_copied n_skipped : nat) :
  let items := _list_remote (remote_root srv) (remote_dir settings) in
  let run := sync_once settings srv should_stop now polls0 local in
  run.1 = Summary n_copied n_skipped ->
  (n_copied + n_skipped <= length (listed_files items))%nat
  /\ (dirs_created run.2 <= length (listed_dirs items))%nat.
Proof.
  intros items run. subst run. unfold sync_once.
  destruct (connect_ok srv); [|done]. cbn -[sync_loop]. fold items.
  match goal with |- context [sync_loop ?a ?b ?c ?d ?e ?f ?g] =>
    destruct (sync_loop a b c d e f g) as [c0 s3] eqn:Hloop end.
  apply sync_loop_counts in Hloop. cbn in *. intros [= <- <-]. lia.
Qed.

Lemma sync_once_counts_bounded_witness :
  (1 + 0 <= length (listed_files
                      (_list_remote (remote_root scen_server) (remote_dir scen_settings))))%nat
  /\ (dirs_created (sync_once scen_settings scen_server never_stop scen_now 0 blocked_local).2
      <= length (listed_dirs
                   (_list_remote (remote_root scen_server) (remote_dir scen_settings))))%nat.
Proof.
  apply (sync_once_counts_bounded scen_settings scen_server never_stop scen_now 0 blocked_local
           1 0).
  vm_compute. reflexivity.
Defined.



(** * More on the transcode stage *)

Lemma check_stop_calls (stop_check : option (nat -> bool)) (s : cstate) :
  c_calls (check_stop stop_check s).2 = c_calls s
  /\ c_fs (check_stop stop_check s).2 = c_fs s
  /\ (c_polls s <= c_polls (check_stop stop_check s).2)%nat.
Proof. destruct stop_check; cbn; repeat split; lia. Qed.

Lemma compress_one_accounted (pil : image_codec) (now : Z) (input_dir output_dir : path)
    (quality : Z) (resize_width : option Z) (root : path) (filename : string)
    (calls0 : nat) (acc : Stats * cstate) :
  accounted calls0 acc ->
  accounted calls0
    (compress_one pil now input_dir output_dir quality resize_width root filename acc).
Proof.
  destruct acc as [stats s]. unfold accounted, compress_one. cbn.
  intros (Ht & Hs & Hc). destruct (negb _); [done|].
  unfold call_compress. destruct (compress_image _ _ _ _ _ _ _) as [[r|] t]; cbn;
    rewrite length_app; cbn; lia.
Qed.

Lemma compress_files_accounted (pil : image_codec) (now : Z)
    (stop_check : option (nat -> bool)) (input_dir output_dir : path) (quality : Z)
    (resize_width : option Z) (root : path) (files : list string) (calls0 : nat) :
  forall acc : Stats * cstate,
  accounted calls0 acc ->
  accounted calls0
    (compress_files pil now stop_check input_dir output_dir quality resize_width root
       files acc).
Proof.
  induction files as [|f files IH]; intros [stats s] Hacc; simpl; [done|].
  pose proof (check_stop_calls stop_check s) as (Hc & _).
  destruct (check_stop stop_check s) as [stop s1]. cbn in Hc.
  assert (accounted calls0 (stats, s1)) as Hacc1.
  { unfold accounted in *. cbn in *. by rewrite Hc. }
  destruct stop; [done|]. apply IH. by apply compress_one_accounted.
Qed.

Lemma compress_dirs_accounted (pil : image_codec) (now : Z)
    (stop_check : option (nat -> bool)) (input_dir output_dir : path) (quality : Z)
    (resize_width : option Z) (triples : list (path * list string * list string))
    (calls0 : nat) : forall acc : Stats * cstate,
  accounted calls0 acc ->
  accounted calls0
    (compress_dirs pil now stop_check input_dir output_dir quality resize_width triples acc).
Proof.
  induction triples as [|[[root dirs] files] triples IH]; intros [stats s] Hacc; simpl;
    [done|].
  pose proof (check_stop_calls stop_check s) as (Hc & _).
  destruct (check_stop stop_check s) as [stop s1]. cbn in Hc.
  assert (accounted calls0 (stats, s1)) as Hacc1.
  { unfold accounted in *. cbn in *. by rewrite Hc. }
  destruct stop; [done|]. apply IH. by apply compress_files_accounted.
Qed.

(** X6 -- The statistics of a one-shot run add up, stopped or not:
    [total_files = compressed_files + error_files], nothing is ever
    counted as skipped, and [total_files] is the number of calls of
    [compress_image] the run made. *)
Theorem compress_images_in_folder_accounts (pil : image_codec) (now : Z)
    (input_dir output_dir : path) (quality : Z) (stop_check : option (nat -> bool))
    (resize_width : option Z) (s : cstate) (stats : Stats) :
  let run := compress_images_in_folder pil now input_dir output_dir quality stop_check
               resize_width s in
  run.1 = Some stats ->
  total_files stats = (compressed_files stats + error_files stats)%nat
  /\ skipped_files stats = 0%nat
  /\ length (c_calls run.2) = (length (c_calls s) + total_files stats)%nat.
Proof.
  intros run. subst run. unfold compress_images_in_folder.
  destruct (negb _); [intros [= <-]; cbn; lia|].
  destruct (mkdir_parents _ _) as [t1|]; [|done].
  match goal with |- context [compress_dirs ?a ?b ?c ?d ?e ?f ?g ?h ?i] =>
    pose proof (compress_dirs_accounted a b c d e f g h (length (c_calls s)) i) as Hacc;
    destruct (compress_dirs a b c d e f g h i) as [stats' s'] end.
  cbn. intros [= <-]. apply Hacc. unfold accounted. cbn.
  destruct (truthy_width resize_width); cbn; lia.
Qed.

Lemma compress_images_in_folder_accounts_witness :
  total_files (MkStats 1 1 0 0 30) = (compressed_files (MkStats 1 1 0 0 30)
                                      + error_files (MkStats 1 1 0 0 30))%nat
  /\ skipped_files (MkStats 1 1 0 0 30) = 0%nat
  /\ length (c_calls (compress_images_in_folder scen_codec (300 * NS) ["in"] ["out"] 85
                        None None (CState scen_disk [] 0 [])).2)
     = (length (c_calls (CState scen_disk [] 0 [])) + total_files (MkStats 1 1 0 0 30))%nat.
Proof.
  apply (compress_images_in_folder_accounts scen_codec (300 * NS) ["in"] ["out"] 85 None None
           (CState scen_disk [] 0 []) (MkStats 1 1 0 0 30)).
  vm_compute. reflexivity.
Defined.

(** What [compress_image] does to the tree. *)
Lemma compress_image_spec (pil : image_codec) (now : Z) (t : tree)
    (input_path output_path : path) (quality : Z) (resize_width : option Z)
    (r : option compress_result) (t' : tree) :
  compress_image pil now t input_path output_path quality resize_width = (r, t') ->
  let output_jpeg := with_suffix output_path ".jpg" in
  (r = None /\ grows t t')
  \/ exists f jpeg a,
       output_jpeg <> []
       /\ lookup_node t input_path = Some (NFile f)
       /\ jpeg_of pil (f_data f) quality (truthy_width resize_width) = Some jpeg
       /\ t' !! output_jpeg = Some (NFile (File jpeg a now))
       /\ (forall p, p <> output_jpeg ->
             t' !! p = t !! p \/ (t !! p = None /\ t' !! p = Some NDir))
       /\ r = Some (CompressResult (Z.of_nat (length (f_data f))) (Z.of_nat (length jpeg))
                      (Z.of_nat (length (f_data f)) - Z.of_nat (length jpeg))).
Proof.
  intros H output_jpeg. unfold compress_image in H.
  destruct (lookup_node t input_path) as [[f|]|] eqn:Hin;
    [|injection H as <- <-; left; split; [done | apply grows_refl]..].
  destruct (jpeg_of pil _ _ _) as [jpeg|] eqn:Hjpeg;
    [|injection H as <- <-; left; split; [done | apply grows_refl]].
  destruct (mkdir_parents t (parent output_path)) as [t1|] eqn:Hmk;
    [|injection H as <- <-; left; split; [done | apply grows_refl]].
  apply mkdir_from_grows in Hmk. fold output_jpeg in H.
  destruct (open_wb now t1 output_jpeg) as [t2|] eqn:Hwb;
    [|injection H as <- <-; left; by split].
  injection H as <- <-. right.
  pose proof (open_wb_file _ _ _ _ Hwb) as (Hne & fa & Ht2).
  exists f, jpeg, fa. split; [done|]. split; [done|]. split; [done|].
  unfold write_chunk. rewrite Ht2. cbn. split; [apply lookup_insert_eq|]. split; [|done].
  intros p Hp. rewrite lookup_insert_ne by done.
  assert (t2 !! p = t1 !! p) as ->.
  { unfold open_wb in Hwb. destruct output_jpeg as [|x o]; [done|].
    destruct (is_dir t1 _); [|done].
    destruct (t1 !! (x :: o)) as [[g|]|]; [|done|]; injection Hwb as <-;
      by rewrite lookup_insert_ne. }
  apply Hmk.
Qed.


(** X8 -- What one cycle of the watch loop compresses, the next look
    skips: when [watch_one] has compressed a file whose modification
    time is not ahead of the clock, a second [watch_one] on the same
    file, at any later moment and without a call of [compress_image],
    only counts it as skipped. *)
Theorem compressed_file_is_skipped_next (pil : image_codec) (now now' : Z)
    (input_dir output_dir : path) (quality : Z) (resize_width : option Z)
    (root : path) (filename : string) (w : wstate) (input_mtime : Z) :
  let input_file := root ++ [filename] in
  let w1 := watch_one pil now input_dir output_dir quality resize_width root filename w in
  getmtime (c_fs (w_state w)) input_file = Some input_mtime ->
  input_mtime <= now ->
  cycle_compressed (w_cycle w1) = S (cycle_compressed (w_cycle w)) ->
  watch_one pil now' input_dir output_dir quality resize_width root filename w1
  = WState (w_total w1)
      (Cycle (cycle_compressed (w_cycle w1)) (S (cycle_skipped (w_cycle w1)))
         (cycle_errors (w_cycle w1)))
      (w_state w1) false.
Proof.
  intros input_file w1 Hm Hle Hdone.
  set (output_file := output_dir ++ default input_file (relative_to input_file input_dir)).
  set (output_jpeg := with_suffix output_file ".jpg").
  assert (exists total cyc t' lg polls calls m',
            w1 = WState total cyc (CState t' lg polls calls) false
            /\ is_image_file input_file = true
            /\ path_exists t' output_jpeg = true
            /\ getmtime t' output_jpeg = Some now
            /\ getmtime t' input_file = Some m' /\ m' <= now)
    as (total & cyc & t' & lg & polls & calls & m' & Hw1 & Himg & Hex & Hgo & Hgi & Hm').
  { revert Hdone. subst w1. unfold watch_one. fold input_file.
    destruct (is_image_file input_file) eqn:Himg; cbn [negb]; [|lia].
    fold output_file output_jpeg.
    destruct (if path_exists _ output_jpeg then _ else _) as [[]|]; cbn; [lia | | lia].
    unfold call_compress.
    destruct (compress_image pil now (c_fs (w_state w)) input_file output_file quality
                resize_width) as [r t'] eqn:Hc.
    apply compress_image_spec in Hc
      as [[-> _]|(f & jpeg & a & Hne & _ & _ & Hout & Hframe & ->)]; cbn; [lia|].
    intros _. fold output_jpeg in Hout, Hframe, Hne. clearbody output_jpeg.
    assert (Hgi : exists m', getmtime t' input_file = Some m' /\ m' <= now).
    { destruct (decide (input_file = output_jpeg)) as [E|Hdiff].
      - exists now. rewrite E. unfold getmtime, lookup_node.
        destruct output_jpeg; [done|]. rewrite Hout. split; [done | lia].
      - exists input_mtime. split; [|done]. rewrite <- Hm. unfold getmtime, lookup_node.
        assert (input_file <> []) as Hnil by (subst input_file; by destruct root).
        destruct input_file as [|x i]; [done|].
        destruct (Hframe _ Hdiff) as [->|[E _]]; [done|].
        unfold getmtime, lookup_node in Hm. by rewrite E in Hm. }
    destruct Hgi as (m' & Hgi & Hm').
    do 6 eexists. exists m'. split; [reflexivity|]. split; [done|].
    unfold path_exists, getmtime, lookup_node in *.
    destruct output_jpeg; [done|]. by rewrite Hout. }
  clearbody w1. subst w1. unfold watch_one. cbn. fold input_file. rewrite Himg. cbn [negb].
  fold output_file output_jpeg. rewrite Hex, Hgi, Hgo.
  by rewrite (proj2 (Z.leb_le m' now) Hm').
Qed.

Lemma compressed_file_is_skipped_next_witness :
  let w := WState zero_stats (Cycle 0 0 0) (CState fresh_disk [] 0 []) false in
  let w1 := watch_one scen_codec (300 * NS) ["in"] ["out"] 85 None ["in"] "photo.png" w in
  watch_one scen_codec (900 * NS) ["in"] ["out"] 85 None ["in"] "photo.png" w1
  = WState (w_total w1)
      (Cycle (cycle_compressed (w_cycle w1)) (S (cycle_skipped (w_cycle w1)))
         (cycle_errors (w_cycle w1)))
      (w_state w1) false.
Proof.
  cbv zeta.
  apply (compressed_file_is_skipped_next scen_codec (300 * NS) (900 * NS) ["in"] ["out"] 85
           None ["in"] "photo.png"
           (WState zero_stats (Cycle 0 0 0) (CState fresh_disk [] 0 []) false) (100 * NS)).
  - reflexivity.
  - by vm_compute.
  - vm_compute. reflexivity.
Defined.

(** ** The watch loop ends once the stop flag is up *)

Lemma watch_one_polls (pil : image_codec) (now : Z) (input_dir output_dir : path)
    (quality : Z) (resize_width : option Z) (root : path) (filename : string) (w : wstate) :
  c_polls (w_state (watch_one pil now input_dir output_dir quality resize_width root
                      filename w)) = c_polls (w_state w).
Proof.
  unfold watch_one. destruct (negb _); [done|].
  destruct (if path_exists _ _ then _ else _) as [[]|]; [done | | done].
  unfold call_compress. by destruct (compress_image _ _ _ _ _ _ _) as [[r|] t].
Qed.

Lemma watch_files_polls (pil : image_codec) (now : Z) (stop_check : option (nat -> bool))
    (input_dir output_dir : path) (quality : Z) (resize_width : option Z) (root : path)
    (files : list string) : forall w,
  (c_polls (w_state w)
   <= c_polls (w_state (watch_files pil now stop_check input_dir output_dir quality
                          resize_width root files w)))%nat.
Proof.
  induction files as [|f files IH]; intros w; simpl; [done|].
  pose proof (check_stop_calls stop_check (w_state w)) as (_ & _ & Hp).
  destruct (check_stop stop_check (w_state w)) as [stop s1]. cbn in Hp.
  destruct stop; [done|].
  match goal with |- context [watch_one ?a ?b ?c ?d ?e ?f ?g ?h ?i] =>
    pose proof (watch_one_polls a b c d e f g h i) as H1;
    set (w1 := watch_one a b c d e f g h i) in * end.
  cbn in H1. destruct (w_raised w1); [lia|]. specialize (IH w1). lia.
Qed.

Lemma watch_dirs_polls (pil : image_codec) (now : Z) (stop_check : option (nat -> bool))
    (input_dir output_dir : path) (quality : Z) (resize_width : option Z)
    (triples : list (path * list string * list string)) : forall w,
  (c_polls (w_state w)
   <= c_polls (w_state (watch_dirs pil now stop_check input_dir output_dir quality
                          resize_width triples w)))%nat.
Proof.
  induction triples as [|[[root dirs] files] triples IH]; intros w; simpl; [done|].
  pose proof (check_stop_calls stop_check (w_state w)) as (_ & _ & Hp).
  destruct (check_stop stop_check (w_state w)) as [stop s1]. cbn in Hp.
  destruct stop; [done|].
  match goal with |- context [watch_files ?a ?b ?c ?d ?e ?f ?g ?h ?i ?j] =>
    pose proof (watch_files_polls a b c d e f g h i j) as H1;
    set (w1 := watch_files a b c d e f g h i j) in * end.
  cbn in H1. destruct (w_raised w1); [lia|]. specialize (IH w1). lia.
Qed.

Lemma sleep_ticks_polls (stop_check : option (nat -> bool)) (ticks : nat) : forall s,
  (c_polls s <= c_polls (sleep_ticks stop_check ticks s))%nat.
Proof.
  induction ticks as [|n IH]; intros s; simpl; [done|].
  pose proof (check_stop_calls stop_check s) as (_ & _ & Hp).
  destruct (check_stop stop_check s) as [stop s1]. cbn in Hp.
  destruct stop; [done|]. specialize (IH s1). lia.
Qed.

Lemma watch_cycles_stops (f : nat -> bool) (n : nat) (pil : image_codec) (now : nat -> Z)
    (input_dir output_dir : path) (quality interval : Z) (resize_width : option Z) :
  (forall k, (n <= k)%nat -> f k = true) ->
  forall (fuel cycle_count : nat) (total : Stats) (s : cstate),
  (n < fuel + c_polls s)%nat ->
  (watch_cycles fuel pil now (Some f) input_dir output_dir quality interval resize_width
     cycle_count total s).1 <> StillRunning.
Proof.
  intros Hstop. induction fuel as [|fuel IH]; intros cycle_count total s Hn; simpl.
  - rewrite Hstop by lia. done.
  - destruct (f (c_polls s)) eqn:Hf; [done|].
    assert (c_polls s < n)%nat as Hlt.
    { destruct (decide (n <= c_polls s)%nat) as [Hle|]; [|lia].
      rewrite (Hstop _ Hle) in Hf. done. }
    match goal with |- context [watch_dirs ?a ?b ?c ?d ?e ?f ?g ?h ?i] =>
      pose proof (watch_dirs_polls a b c d e f g h i) as H1;
      set (w1 := watch_dirs a b c d e f g h i) in * end.
    cbn in H1. destruct (w_raised w1); [done|].
    match goal with |- context [if ?b then ?x else w_state w1] =>
      assert (c_polls (if b then x else w_state w1) = c_polls (w_state w1)) as Hlog
        by (by destruct b);
      set (s2 := if b then x else w_state w1) in * end.
    clearbody s2. destruct (f (c_polls s2)); apply IH; cbn; [lia|].
    match goal with |- context [sleep_ticks ?a ?b ?c] =>
      pose proof (sleep_ticks_polls a b c) as H2 end.
    cbn in H2. lia.
Qed.

(** X9 -- The watch loop of the transcode stage ends once the stop flag
    is up: if [stop_check] answers true from its [n]-th call on,
    [watch_and_compress] has left its loop by the time [n + 1] cycles
    have been started, having finished at most the file it was working
    on. *)
Theorem watch_and_compress_stops (fuel : nat) (pil : image_codec) (now : nat -> Z)
    (input_dir output_dir : path) (quality : Z) (f : nat -> bool) (interval : Z)
    (resize_width : option Z) (s : cstate) (n : nat) :
  (forall k, (n <= k)%nat -> f k = true) ->
  (n < fuel + c_polls s)%nat ->
  (watch_and_compress fuel pil now input_dir output_dir quality (Some f) interval
     resize_width s).1 <> StillRunning.
Proof.
  intros Hstop Hn. unfold watch_and_compress.
  destruct (negb _); [done|]. destruct (mkdir_parents _ _); [|done].
  by apply (watch_cycles_stops f n).
Qed.

Lemma watch_and_compress_stops_witness :
  (watch_and_compress 3 scen_codec (fun _ => 300 * NS) ["in"] ["out"] 85
     (Some (stop_from 2)) 1 None (CState fresh_disk [] 0 [])).1 <> StillRunning.
Proof.
  apply (watch_and_compress_stops 3 scen_codec (fun _ => 300 * NS) ["in"] ["out"] 85
           (stop_from 2) 1 None (CState fresh_disk [] 0 []) 2).
  - intros k Hk. unfold stop_from. by apply Nat.leb_le.
  - cbn. lia.
Defined.

(** ** Where the output of an image goes *)

Lemma list_ascii_of_string_app (s1 s2 : string) :
  String.list_ascii_of_string (s1 +:+ s2)
  = String.list_ascii_of_string s1 ++ String.list_ascii_of_string s2.
Proof.
  induction s1 as [|c s1 IH]; [done|].
  change (String c s1 +:+ s2) with (String c (s1 +:+ s2)). cbn. by rewrite IH.
Qed.

Lemma string_of_list_ascii_app (l1 l2 : list ascii) :
  String.string_of_list_ascii (l1 ++ l2)
  = String.string_of_list_ascii l1 +:+ String.string_of_list_ascii l2.
Proof.
  induction l1 as [|c l1 IH]; [done|]. cbn. rewrite IH. done.
Qed.

Lemma length_list_ascii_of_string (s : string) :
  length (String.list_ascii_of_string s) = String.length s.
Proof. induction s as [|c s IH]; [done|]. cbn. by rewrite IH. Qed.

Lemma rfind_dot_none (cs : list ascii) : forall i,
  "."%char ∉ cs -> rfind_dot cs i = None.
Proof.
  induction cs as [|c cs IH]; intros i Hno; simpl; [done|].
  apply not_elem_of_cons in Hno as [Hc Hno]. rewrite IH by done.
  destruct (Ascii.eqb c ".") eqn:E; [|done]. apply Ascii.eqb_eq in E. congruence.
Qed.

Lemma rfind_dot_last (cs1 cs2 : list ascii) : forall i,
  "."%char ∉ cs2 -> rfind_dot (cs1 ++ "."%char :: cs2) i = Some (i + length cs1)%nat.
Proof.
  induction cs1 as [|c cs1 IH]; intros i Hno; simpl.
  - rewrite rfind_dot_none by done. f_equal. lia.
  - rewrite IH by done. f_equal. lia.
Qed.

(** The suffix of [stem.ext] is [.ext]. *)
Lemma suffix_stem_ext (stem ext : string) :
  stem <> ""%string -> ext <> ""%string ->
  "."%char ∉ String.list_ascii_of_string ext ->
  suffix (stem +:+ "." +:+ ext) = ("." +:+ ext)%string.
Proof.
  intros Hstem Hext Hdot. unfold suffix.
  rewrite list_ascii_of_string_app.
  change (String.list_ascii_of_string ("." +:+ ext))
    with ("."%char :: String.list_ascii_of_string ext).
  rewrite rfind_dot_last by done. cbn [Nat.add].
  assert (0 < length (String.list_ascii_of_string stem))%nat as H1.
  { destruct stem; [done | cbn; lia]. }
  assert (0 < length (String.list_ascii_of_string ext))%nat as H2.
  { destruct ext; [done | cbn; lia]. }
  rewrite (proj2 (Nat.ltb_lt _ _) H1). rewrite length_app. cbn [length andb].
  rewrite (proj2 (Nat.ltb_lt _ _)) by lia.
  rewrite drop_app_length. cbn. by rewrite String.string_of_list_ascii_of_string.
Qed.

Lemma with_suffix_stem_ext (d : path) (stem ext sfx : string) :
  stem <> ""%string -> ext <> ""%string ->
  "."%char ∉ String.list_ascii_of_string ext ->
  with_suffix (d ++ [(stem +:+ "." +:+ ext)%string]) sfx = d ++ [(stem +:+ sfx)%string].
Proof.
  intros Hstem Hext Hdot. unfold with_suffix, parent.
  rewrite last_snoc, removelast_last, suffix_stem_ext by done.
  do 3 f_equal. rewrite list_ascii_of_string_app, length_app.
  rewrite <- (length_list_ascii_of_string ("." +:+ ext)).
  replace (length (String.list_ascii_of_string stem)
           + length (String.list_ascii_of_string ("." +:+ ext))
           - length (String.list_ascii_of_string ("." +:+ ext)))%nat
    with (length (String.list_ascii_of_string stem)) by lia.
  rewrite take_app_length. apply String.string_of_list_ascii_of_string.
Qed.

(** X30 -- An image is recognised by its last extension alone,
    whatever the case of its letters: [stem.ext] is an image file
    exactly when [.ext], in lower case, is one of [IMAGE_EXTENSIONS]
    (so [scan.tar.PNG] is one and [photo.jpg.txt] is not); a name
    without a dot never is. *)
Theorem is_image_file_by_last_extension (d : path) (stem ext : string) :
  (exists c s, stem = String c s /\ c <> "."%char) ->
  ext <> ""%string ->
  "."%char ∉ String.list_ascii_of_string ext ->
  is_image_file (d ++ [(stem +:+ "." +:+ ext)%string])
  = bool_decide (lower ("." +:+ ext) ∈ IMAGE_EXTENSIONS)
  /\ (forall name, "."%char ∉ String.list_ascii_of_string name ->
        is_image_file (d ++ [name]) = false).
Proof.
  intros (c & s & -> & _) Hext Hdot. unfold is_image_file, basename.
  split.
  - rewrite last_snoc. cbn [default from_option id]. unfold id.
    by rewrite suffix_stem_ext.
  - intros name Hname. rewrite last_snoc. cbn [default from_option id]. unfold id.
    unfold suffix. by rewrite rfind_dot_none.
Qed.

Lemma is_image_file_by_last_extension_witness :
  is_image_file (["in"] ++ [("scan.tar" +:+ "." +:+ "PNG")%string])
  = bool_decide (lower ("." +:+ "PNG") ∈ IMAGE_EXTENSIONS)
  /\ (forall name, "."%char ∉ String.list_ascii_of_string name ->
        is_image_file (["in"] ++ [name]) = false).
Proof.
  apply (is_image_file_by_last_extension ["in"] "scan.tar" "PNG").
  - by exists "s"%char, "can.tar"%string.
  - done.
  - by_compute.
Defined.

(** X10 -- The output of an image mirrors its place below the input
    directory, with the last extension replaced: the output of
    [input_dir/r/stem.ext] is [output_dir/r/stem.jpg].  Hence images that
    differ in their extension only ([photo.png], [photo.bmp]) are written
    to one and the same output file. *)
Theorem output_of_replaces_extension (input_dir output_dir r : path) (stem ext : string) :
  (exists c s, stem = String c s /\ c <> "."%char) ->
  ext <> ""%string ->
  "."%char ∉ String.list_ascii_of_string ext ->
  output_of input_dir output_dir (input_dir ++ r ++ [(stem +:+ "." +:+ ext)%string])
  = output_dir ++ r ++ [(stem +:+ ".jpg")%string].
Proof.
  intros (c & s & -> & _) Hext Hdot. unfold output_of.
  rewrite (proj2 (relative_to_Some input_dir _ _) eq_refl). cbn [default from_option].
  unfold id. rewrite !app_assoc. by apply with_suffix_stem_ext.
Qed.

Lemma output_of_replaces_extension_witness :
  output_of ["in"] ["out"] (["in"] ++ ["sub"] ++ [("photo" +:+ "." +:+ "png")%string])
  = ["out"] ++ ["sub"] ++ [("photo" +:+ ".jpg")%string]
  /\ output_of ["in"] ["out"] (["in"] ++ ["sub"] ++ [("photo" +:+ "." +:+ "bmp")%string])
     = ["out"] ++ ["sub"] ++ [("photo" +:+ ".jpg")%string].
Proof.
  split.
  - apply (output_of_replaces_extension ["in"] ["out"] ["sub"] "photo" "png").
    + by exists "p"%char, "hoto"%string.
    + done.
    + by_compute.
  - apply (output_of_replaces_extension ["in"] ["out"] ["sub"] "photo" "bmp").
    + by exists "p"%char, "hoto"%string.
    + done.
    + by_compute.
Defined.

(** * More on the publish stage *)

Lemma _ensure_remote_dir_post (srv : publish_server) (rp : path) : forall s ok s',
  _ensure_remote_dir srv rp s = (ok, s') ->
  grows (u_remote s) (u_remote s')
  /\ (ok = true -> path_exists (u_remote s') (rev rp) = true).
Proof.
  assert (Hmk : forall p s ok s', sftp_mkdir srv p s = (ok, s') ->
            grows (u_remote s) (u_remote s')
            /\ (ok = true -> path_exists (u_remote s') p = true)).
  { intros p s ok s'. unfold sftp_mkdir, request. cbn.
    destruct (negb (pub_fault srv (u_ops s))); cbn; [|intros [= <- <-]; split; [apply grows_refl | done]].
    destruct (path_exists (u_remote s) p) eqn:Hex; cbn;
      [intros [= <- <-]; split; [apply grows_refl | done]|].
    destruct (is_dir (u_remote s) (parent p)); intros [= <- <-]; cbn;
      [|split; [apply grows_refl | done]].
    unfold path_exists, lookup_node in *. destruct p as [|c p]; [done|].
    split; [|by rewrite lookup_insert_eq].
    intros q. destruct (decide (c :: p = q)) as [<-|Hne].
    - right. rewrite lookup_insert_eq. split; [|done].
      by destruct (u_remote s !! (c :: p)).
    - left. by rewrite lookup_insert_ne. }
  induction rp as [|c rp IH]; intros s ok s'; cbn [_ensure_remote_dir];
    unfold sftp_stat, request; cbn.
  - destruct (negb (pub_fault srv (u_ops s))); cbn;
      [|intros [= <- <-]; split; [apply grows_refl | done]].
    intros [= <- <-]. split; [apply grows_refl | done].
  - destruct (negb (pub_fault srv (u_ops s))); cbn;
      [|intros [= <- <-]; split; [apply grows_refl | done]].
    destruct (path_exists (u_remote s) (rev rp ++ [c])) eqn:Hex;
      [intros [= <- <-]; split; [apply grows_refl | done]|].
    destruct rp as [|d rp].
    + intros H. by apply Hmk in H.
    + destruct (_ensure_remote_dir srv (d :: rp) _) as [ok1 s1] eqn:H1.
      apply IH in H1 as [Hg1 _]. cbn in Hg1.
      destruct ok1; [|intros [= <- <-]; by split].
      intros H. apply Hmk in H as [Hg2 Hok]. split; [|done].
      by eapply grows_trans.
Qed.

(** X11 -- When [_ensure_remote_dir] returns, the path exists on the
    server; on the way it has only created directories that were
    missing (no remote entry is removed or replaced), and the local
    tree is not touched. *)
Theorem ensure_remote_dir_creates (srv : publish_server) (remote_path : path) (s : ustate) :
  let run := _ensure_remote_dir srv (rev remote_path) s in
  run.1 = true ->
  path_exists (u_remote run.2) remote_path = true
  /\ grows (u_remote s) (u_remote run.2)
  /\ u_local run.2 = u_local s.
Proof.
  intros run Hok.
  destruct (_ensure_remote_dir_post srv (rev remote_path) s run.1 run.2) as [Hg Hex];
    [apply surjective_pairing|].
  rewrite rev_involutive in Hex. split; [by apply Hex|]. split; [done|].
  apply _ensure_remote_dir_frame.
Qed.

Lemma ensure_remote_dir_creates_witness :
  let run := _ensure_remote_dir (Publisher true (fun _ => false))
               (rev ["publish"; "2024"; "sub"]) publish_start in
  path_exists (u_remote run.2) ["publish"; "2024"; "sub"] = true
  /\ grows (u_remote publish_start) (u_remote run.2)
  /\ u_local run.2 = u_local publish_start.
Proof.
  cbv zeta.
  apply (ensure_remote_dir_creates (Publisher true (fun _ => false))
           ["publish"; "2024"; "sub"] publish_start).
  vm_compute. reflexivity.
Defined.

Lemma upload_file_post (srv : publish_server) (now : Z) (local_file remote_file : path)
    (s : ustate) (r : option Z) (s' : ustate) :
  upload_file srv now local_file remote_file s = (r, s') ->
  u_local s' = u_local s /\ u_polls s' = u_polls s
  /\ forall file_size, r = Some file_size ->
       exists f,
         u_local s !! local_file = Some (NFile f)
         /\ file_size = Z.of_nat (length (f_data f))
         /\ u_remote s' !! remote_file
            = Some (NFile (File (f_data f) (py_int (f_atime f) * NS)
                             (py_int (f_mtime f) * NS))).
Proof.
  assert (Hpolls : forall rp s0, u_polls (_ensure_remote_dir srv rp s0).2 = u_polls s0).
  { assert (Hmk : forall p s0, u_polls (sftp_mkdir srv p s0).2 = u_polls s0).
    { intros p s0. unfold sftp_mkdir, request. cbn. by destruct (_ && _). }
    induction rp as [|c rp IH]; intros s0; cbn [_ensure_remote_dir];
      unfold sftp_stat, request; cbn.
    - by destruct (negb _).
    - destruct (negb _); cbn; [|done]. destruct (path_exists _ _); [done|].
      destruct rp as [|d rp]; [by rewrite Hmk|].
      specialize (IH (UState (u_local s0) (u_remote s0) (u_log s0) (u_polls s0)
                        (S (u_ops s0)) (u_attempts s0))).
      destruct (_ensure_remote_dir srv (d :: rp) _) as [ok1 s1]. cbn in IH.
      destruct ok1; [by rewrite Hmk | done]. }
  unfold upload_file.
  pose proof (_ensure_remote_dir_frame srv (rev (parent remote_file)) s) as (Hl1 & _).
  pose proof (Hpolls (rev (parent remote_file)) s) as Hp1.
  destruct (_ensure_remote_dir _ _ _) as [ok s1]. cbn [snd] in Hl1, Hp1.
  destruct ok; cbn [negb]; [|intros [= <- <-]; done].
  rewrite Hl1.
  destruct (u_local s !! local_file) as [[f|]|]; [|intros [= <- <-]; done..].
  unfold sftp_put, sftp_utime, request. cbn.
  destruct (negb (pub_fault srv (u_ops s1))); cbn; [|intros [= <- <-]; done].
  destruct (open_wb now (u_remote s1) remote_file) as [t2|] eqn:Hwb; cbn;
    [|intros [= <- <-]; done].
  apply open_wb_file in Hwb as (_ & fa & Ht2).
  destruct (negb (pub_fault srv (S (u_ops s1)))); cbn; [|intros [= <- <-]; done].
  unfold write_chunk. rewrite Ht2. cbn. rewrite lookup_insert_eq. cbn.
  intros [= <- <-]. cbn. split; [done|]. split; [done|].
  intros ? [= <-]. exists f. split; [done|]. split; [done|]. apply lookup_insert_eq.
Qed.



(** ** The counters of [upload_folder] *)

Lemma upoll_more (stop_check : option (nat -> bool)) (s : ustate) :
  u_remote (upoll stop_check s).2 = u_remote s
  /\ u_ops (upoll stop_check s).2 = u_ops s
  /\ (u_polls s <= u_polls (upoll stop_check s).2)%nat.
Proof. destruct stop_check; cbn; repeat split; lia. Qed.

Lemma total_size_app (t : tree) (l1 l2 : list path) :
  total_size t (l1 ++ l2) = total_size t l1 + total_size t l2.
Proof. unfold total_size. induction l1 as [|p l1 IH]; cbn; [done|]. rewrite IH. lia. Qed.

Lemma successes_cons_true (p : path) (l : list (path * bool)) :
  successes ((p, true) :: l) = p :: successes l.
Proof. unfold successes. by rewrite filter_cons, decide_True. Qed.

Lemma successes_cons_false (p : path) (l : list (path * bool)) :
  successes ((p, false) :: l) = successes l.
Proof. unfold successes. by rewrite filter_cons, decide_False. Qed.

Lemma upload_all_counts (srv : publish_server) (now : Z) (stop_check : option (nat -> bool))
    (files : list (path * path * path)) : forall stats uploaded s stats' uploaded' s',
  upload_all srv now stop_check files stats uploaded s = (stats', uploaded', s') ->
  exists new,
    u_attempts s' = u_attempts s ++ new
    /\ (uploaded_files stats' + up_error_files stats'
        = uploaded_files stats + up_error_files stats + length new)%nat
    /\ (length new <= length files)%nat
    /\ (stop_check = None -> length new = length files)
    /\ uploaded_bytes stats' = uploaded_bytes stats + total_size (u_local s) (successes new)
    /\ (u_polls s <= u_polls s')%nat.
Proof.
  induction files as [|[[local_file remote_file] rel] files IH];
    intros stats uploaded s stats' uploaded' s'; simpl.
  - intros [= <- <- <-]. exists []. rewrite app_nil_r. cbn. repeat split; lia.
  - pose proof (upoll_frame stop_check s) as (Hl & Ha & _).
    pose proof (upoll_more stop_check s) as (_ & _ & Hp).
    destruct (upoll stop_check s) as [stop s1] eqn:E. cbn in Hl, Ha, Hp.
    destruct stop.
    { intros [= <- <- <-]. exists []. cbn. rewrite app_nil_r.
      split; [done|]. split; [lia|]. split; [lia|]. split; [|split; [lia | done]].
      intros ->. cbn in E. by injection E. }
    pose proof (upload_file_frame srv now local_file remote_file s1) as (_ & Ha2).
    destruct (upload_file srv now local_file remote_file s1) as [[size|] s2] eqn:Hup;
      cbn [snd] in Ha2;
      apply upload_file_post in Hup as (Hl2 & Hp2 & Hpost);
      intros H; apply IH in H as (new & Hnew & Hcount & Hlen & Hall & Hbytes & Hpolls);
      cbn [u_attempts u_local u_polls uploaded_files up_error_files uploaded_bytes
           record_attempt ulog] in *.
    + destruct (Hpost size eq_refl) as (f & Hf & Hsize & _).
      exists ((local_file, true) :: new). rewrite Hnew, Ha2, Ha, <- app_assoc.
      split; [done|]. cbn [length]. split; [lia|]. split; [lia|].
      split; [intros Hn; specialize (Hall Hn); lia|]. split; [|lia].
      rewrite successes_cons_true.
      change (total_size (u_local s) (local_file :: successes new))
        with (file_size (u_local s) local_file + total_size (u_local s) (successes new)).
      rewrite Hbytes, Hl2, Hl. unfold file_size. rewrite <- Hl, Hf. lia.
    + exists ((local_file, false) :: new). rewrite Hnew, Ha2, Ha, <- app_assoc.
      split; [done|]. cbn [length]. split; [lia|]. split; [lia|].
      split; [intros Hn; specialize (Hall Hn); lia|]. split; [|lia].
      rewrite successes_cons_false. by rewrite Hbytes, Hl2, Hl.
Qed.

Lemma collect_files_more (stop_check : option (nat -> bool)) (local_dir remote_dir : path)
    (triples : list (path * list string * list string)) : forall s r s',
  collect_files stop_check local_dir remote_dir triples s = (r, s') ->
  u_remote s' = u_remote s /\ u_ops s' = u_ops s /\ (u_polls s <= u_polls s')%nat
  /\ (stop_check = None -> r <> None).
Proof.
  induction triples as [|[[root dirs] files] triples IH]; intros s r s'; simpl.
  - intros [= <- <-]. repeat split; done.
  - pose proof (upoll_more stop_check s) as (Hr & Ho & Hp).
    destruct (upoll stop_check s) as [stop s1] eqn:E. cbn in Hr, Ho, Hp.
    destruct stop.
    { intros [= <- <-]. cbn. repeat split; try done. intros ->. cbn in E. by injection E. }
    destruct (collect_files _ _ _ _ _) as [[more|] s2] eqn:E2; intros [= <- <-];
      apply IH in E2 as (Hr2 & Ho2 & Hp2 & Hn); repeat split; try congruence; try lia.
    intros ->. by apply Hn.
Qed.

Lemma delete_uploaded_more (stop_check : option (nat -> bool)) (uploaded : list path) :
  forall stats s stats' s',
  delete_uploaded stop_check uploaded stats s = (stats', s') ->
  up_error_files stats' = up_error_files stats
  /\ uploaded_bytes stats' = uploaded_bytes stats
  /\ u_remote s' = u_remote s /\ u_ops s' = u_ops s /\ (u_polls s <= u_polls s')%nat
  /\ (forall q, u_local s' !! q = u_local s !! q
        \/ u_local s' !! q = None /\ exists f, u_local s !! q = Some (NFile f)).
Proof.
  induction uploaded as [|p uploaded IH]; intros stats s stats' s'; simpl.
  - intros [= <- <-]. repeat split; try done. by left.
  - pose proof (upoll_more stop_check s) as (Hr & Ho & Hp).
    pose proof (upoll_frame stop_check s) as (Hl & _).
    destruct (upoll stop_check s) as [stop s1]. cbn in Hr, Ho, Hp, Hl.
    destruct stop.
    { intros [= <- <-]. cbn. repeat split; try done. intros q. left. by rewrite Hl. }
    destruct (os_remove (u_local s1) p) as [t|] eqn:Hrm; intros H;
      apply IH in H as (He & Hb & Hr2 & Ho2 & Hp2 & Hframe); cbn in *;
      (split; [done|]); (split; [done|]); (split; [congruence|]); (split; [congruence|]);
      (split; [lia|]); intros q.
    + unfold os_remove in Hrm. rewrite Hl in Hrm.
      destruct (u_local s !! p) as [[f|]|] eqn:Hp'; [|done..]. injection Hrm as <-.
      destruct (Hframe q) as [E|[E (g & Hg)]].
      * destruct (decide (p = q)) as [<-|Hne].
        -- right. rewrite E, lookup_delete_eq. split; [done|]. by exists f.
        -- left. by rewrite E, lookup_delete_ne.
      * right. split; [done|]. destruct (decide (p = q)) as [<-|Hne].
        -- by rewrite lookup_delete_eq in Hg.
        -- rewrite lookup_delete_ne in Hg by done. by exists g.
    + destruct (Hframe q) as [E|[E (g & Hg)]]; rewrite Hl in *; [by left|].
      right. split; [done|]. by exists g.
Qed.

Lemma prune_dirs_more (local_dir root : path) (dirs : list string) : forall s,
  let s' := prune_dirs local_dir root dirs s in
  u_remote s' = u_remote s /\ u_ops s' = u_ops s /\ u_polls s' = u_polls s
  /\ (forall q, u_local s' !! q = u_local s !! q
        \/ u_local s' !! q = None /\ u_local s !! q = Some NDir
           /\ exists name, q = root ++ [name]).
Proof.
  induction dirs as [|d dirs IH]; intros s; simpl; [repeat split; by left|].
  match goal with |- context [prune_dirs _ _ _ ?x] => set (s1 := x) end.
  assert (u_remote s1 = u_remote s /\ u_ops s1 = u_ops s /\ u_polls s1 = u_polls s
          /\ (forall q, u_local s1 !! q = u_local s !! q
                \/ u_local s1 !! q = None /\ u_local s !! q = Some NDir
                   /\ exists name, q = root ++ [name])) as (Hr & Ho & Hp & Hl).
  { subst s1. destruct (listdir _ _) as [[|x l]|]; [|repeat split; by left..].
    destruct (os_rmdir _ _) as [t|] eqn:E; [|repeat split; by left]. cbn.
    repeat split. intros q. unfold os_rmdir in E.
    destruct (u_local s !! (root ++ [d])) as [[f|]|] eqn:Hd; [done| |done].
    destruct (children _ _); [|done]. injection E as <-.
    destruct (decide (root ++ [d] = q)) as [<-|Hne].
    - right. rewrite lookup_delete_eq. split; [done|]. split; [done|]. by exists d.
    - left. by rewrite lookup_delete_ne. }
  destruct (IH s1) as (Hr2 & Ho2 & Hp2 & Hl2).
  split; [congruence|]. split; [congruence|]. split; [congruence|].
  intros q. destruct (Hl2 q) as [E|(E & Ed & Hn)], (Hl q) as [F|(F & Fd & Hm)].
  - left. congruence.
  - right. split; [congruence|]. done.
  - right. split; [done|]. split; [congruence | done].
  - congruence.
Qed.

(** Every root of a bottom-up walk lies at or below its top. *)
Lemma walk_up_from_roots (fuel : nat) (t : tree) : forall (top : path) tr,
  tr ∈ walk_up_from fuel t top -> exists r, tr.1.1 = top ++ r.
Proof.
  induction fuel as [|fuel IH]; intros top tr; simpl; [by intros ?%elem_of_nil|].
  rewrite elem_of_app, list_elem_of_singleton. intros [H| ->].
  - apply list_elem_of_In, in_flat_map in H as (name & _ & H).
    apply list_elem_of_In, IH in H as [r ->]. exists (name :: r). by rewrite <- app_assoc.
  - exists []. by rewrite app_nil_r.
Qed.

Lemma prune_walk_more (stop_check : option (nat -> bool)) (local_dir top : path)
    (triples : list (path * list string * list string)) : forall s,
  (forall tr, tr ∈ triples -> exists r, tr.1.1 = top ++ r) ->
  let s' := prune_walk stop_check local_dir triples s in
  u_remote s' = u_remote s /\ u_ops s' = u_ops s /\ (u_polls s <= u_polls s')%nat
  /\ (forall q, u_local s' !! q = u_local s !! q
        \/ u_local s' !! q = None /\ u_local s !! q = Some NDir
           /\ exists r, r <> [] /\ q = top ++ r).
Proof.
  induction triples as [|[[root dirs] files] triples IH]; intros s Hroots; simpl;
    [repeat split; by left|].
  pose proof (upoll_more stop_check s) as (Hr & Ho & Hp).
  pose proof (upoll_frame stop_check s) as (Hl & _).
  destruct (upoll stop_check s) as [stop s1]. cbn in Hr, Ho, Hp, Hl.
  destruct stop; [repeat split; try done; intros q; left; by rewrite Hl|].
  destruct (prune_dirs_more local_dir root dirs s1) as (Hr1 & Ho1 & Hp1 & Hl1).
  destruct (IH (prune_dirs local_dir root dirs s1)) as (Hr2 & Ho2 & Hp2 & Hl2).
  { intros tr Htr. apply Hroots. by right. }
  destruct (Hroots (root, dirs, files)) as [r0 Hr0]; [by left|]. cbn in Hr0.
  split; [congruence|]. split; [congruence|]. split; [lia|].
  intros q. rewrite <- Hl.
  destruct (Hl2 q) as [E|(E & Ed & Hn)], (Hl1 q) as [F|(F & Fd & name & Hm)].
  - left. congruence.
  - right. split; [congruence|]. split; [done|]. exists (r0 ++ [name]).
    split; [by destruct r0|]. by rewrite Hm, Hr0, <- app_assoc.
  - right. split; [done|]. split; [congruence | done].
  - congruence.
Qed.

Lemma same_but_log_refl (s : ustate) : same_but_log s s.
Proof. by repeat split. Qed.

Lemma same_but_log_ulog (l : level) (m : message) (s s' : ustate) :
  same_but_log s s' -> same_but_log s (ulog l m s').
Proof. done. Qed.

(** The ways through [upload_folder]: either nothing is attempted, or
    the uploads run and, when asked for, the removal and the pruning. *)
Lemma upload_folder_shape (srv : publish_server) (now : Z) (local_dir remote_dir : path)
    (stop_check : option (nat -> bool)) (delete_after_upload : bool) (s : ustate) r s' :
  upload_folder srv now local_dir remote_dir stop_check delete_after_upload s = (r, s') ->
  let found := walk_files (walk (u_local s) local_dir) in
  ((r = Some zero_ustats \/ r = None /\ found <> [])
   /\ u_local s' = u_local s /\ u_remote s' = u_remote s /\ u_ops s' = u_ops s
   /\ u_attempts s' = u_attempts s /\ (u_polls s <= u_polls s')%nat
   /\ (stop_check = None -> r = Some zero_ustats -> found = []))
  \/ exists files s1 stats uploaded s2,
       files.*1.*1 = found /\ files <> []
       /\ u_local s1 = u_local s /\ u_remote s1 = u_remote s /\ u_ops s1 = u_ops s
       /\ u_attempts s1 = u_attempts s /\ (u_polls s <= u_polls s1)%nat
       /\ upload_all srv now stop_check files zero_ustats [] s1 = (stats, uploaded, s2)
       /\ (delete_after_upload && negb (bool_decide (uploaded = [])) = false
           /\ r = Some stats /\ same_but_log s2 s'
           \/ delete_after_upload = true /\ uploaded <> []
              /\ exists s2' stats3 s3 s3',
                   same_but_log s2 s2'
                   /\ delete_uploaded stop_check uploaded stats s2' = (stats3, s3)
                   /\ same_but_log s3 s3' /\ r = Some stats3
                   /\ same_but_log
                        (prune_walk stop_check local_dir (walk_up (u_local s3') local_dir) s3')
                        s').
Proof.
  intros H found. unfold upload_folder in H.
  destruct (path_exists (u_local s) local_dir) eqn:Hex; cbn [negb] in H.
  2:{ injection H as <- <-. left. cbn. split; [by left|]. repeat split; try done.
      intros _ _. subst found. unfold walk, is_dir. unfold path_exists in Hex.
      by destruct (lookup_node (u_local s) local_dir). }
  destruct (collect_files _ _ _ _ _) as [[files|] s1] eqn:Hcol.
  2:{ injection H as <- <-. left.
      pose proof (collect_files_spec _ _ _ _ _ _ _ Hcol) as (Hl & Ha & _).
      apply collect_files_more in Hcol as (Hr & Ho & Hp & Hn).
      split; [by left|]. repeat split; try done. intros Hnone. by apply Hn in Hnone. }
  pose proof (collect_files_spec _ _ _ _ _ _ _ Hcol) as (Hl & Ha & Hfiles).
  apply collect_files_more in Hcol as (Hr & Ho & Hp & _).
  specialize (Hfiles files eq_refl). fold found in Hfiles.
  destruct files as [|file files].
  { injection H as <- <-. left. cbn. split; [by left|]. repeat split; done. }
  destruct (pub_connect_ok srv); cbn [negb] in H.
  2:{ injection H as <- <-. left. cbn. split.
      - right. split; [done|]. rewrite <- Hfiles. done.
      - repeat split; done. }
  right.
  match type of H with context [upload_all ?a ?b ?c ?d ?e ?f ?g] =>
    destruct (upload_all a b c d e f g) as [[stats uploaded] s2] eqn:Hup;
    exists (file :: files), g, stats, uploaded, s2 end.
  split; [done|]. split; [done|]. cbn. split; [done|]. split; [done|]. split; [done|].
  split; [done|]. split; [done|]. split; [done|].
  destruct (delete_after_upload && negb (bool_decide (uploaded = []))) eqn:Hdel.
  - right. apply andb_true_iff in Hdel as [-> Hne].
    apply negb_true_iff, bool_decide_eq_false in Hne. split; [done|]. split; [done|].
    match type of H with context [delete_uploaded ?a ?b ?c ?d] =>
      destruct (delete_uploaded a b c d) as [stats3 s3] eqn:Hdu;
      exists d, stats3, s3, (ulog INFO MsgPruneStart s3) end.
    injection H as <- <-. split; [done|]. split; [done|]. split; [done|]. split; done.
  - left. injection H as <- <-. split; [done|]. split; done.
Qed.

Lemma has_files_false (t : tree) (local_dir : path) :
  has_files t local_dir = false -> walk_files (walk t local_dir) = [].
Proof.
  unfold has_files, walk_files. generalize (walk t local_dir). intros triples.
  induction triples as [|[[root dirs] files] triples IH]; cbn; [done|].
  intros [H1 H2]%orb_false_iff. rewrite IH by done.
  apply negb_false_iff, bool_decide_eq_true in H1. cbn in H1. by subst.
Qed.





(** X13 -- The statistics of [upload_folder] add up: every call of
    [upload_file] is counted once, as uploaded or as an error; no more
    calls are made than the walk found files, and without a stop check
    exactly as many; [uploaded_bytes] is the total size of the files
    whose upload returned. *)
Theorem upload_folder_accounts (srv : publish_server) (now : Z)
    (local_dir remote_dir : path) (stop_check : option (nat -> bool))
    (delete_after_upload : bool) (s : ustate) (stats : UStats) :
  let found := walk_files (walk (u_local s) local_dir) in
  let run := upload_folder srv now local_dir remote_dir stop_check delete_after_upload s in
  u_attempts s = [] ->
  run.1 = Some stats ->
  (uploaded_files stats + up_error_files stats = length (u_attempts run.2))%nat
  /\ (length (u_attempts run.2) <= length found)%nat
  /\ (stop_check = None -> length (u_attempts run.2) = length found)
  /\ uploaded_bytes stats = total_size (u_local s) (successes (u_attempts run.2)).
Proof.
  intros found run Hfresh Hr.
  destruct (upload_folder_shape srv now local_dir remote_dir stop_check delete_after_upload
              s run.1 run.2)
    as [(Hz & _ & _ & _ & Ha & _ & Hnone)
       |(files & s1 & stats0 & uploaded & s2 & Hfiles & _ & Hl1 & _ & _ & Ha1 & _ & Hup
         & Hrest)];
    [apply surjective_pairing | |]; fold found in Hnone || fold found in Hfiles.
  - rewrite Ha, Hfresh. destruct Hz as [Hz|[Hz _]]; [|congruence].
    rewrite Hr in Hz. injection Hz as ->. cbn. split; [done|]. split; [lia|].
    split; [|done]. intros Hn. by rewrite Hnone.
  - apply upload_all_counts in Hup as (new & Hnew & Hcount & Hlen & Hall & Hbytes & _).
    rewrite Ha1, Hfresh in Hnew. cbn in Hnew, Hcount, Hbytes.
    assert (length files = length found) as Hlf by (by rewrite <- Hfiles, !length_fmap).
    assert (u_attempts run.2 = new
            /\ uploaded_files stats = uploaded_files stats0
            /\ up_error_files stats = up_error_files stats0
            /\ uploaded_bytes stats = uploaded_bytes stats0) as (-> & -> & -> & ->).
    { destruct Hrest as [(_ & Hr0 & Hsame)
                        |(_ & _ & s2' & stats3 & s3 & s3' & Hs2 & Hdu & Hs3 & Hr0 & Hs4)].
      - rewrite Hr in Hr0. injection Hr0 as ->. destruct Hsame as (_ & _ & _ & _ & ->).
        done.
      - rewrite Hr in Hr0. injection Hr0 as ->.
        pose proof (delete_uploaded_spec _ _ _ _ _ _ Hdu) as (Ha3 & Hu3 & _).
        apply delete_uploaded_more in Hdu as (He3 & Hb3 & _).
        destruct Hs4 as (_ & _ & _ & _ & ->).
        destruct (prune_walk_spec stop_check local_dir (walk_up (u_local s3') local_dir) s3')
          as [_ ->].
        destruct Hs3 as (_ & _ & _ & _ & ->). destruct Hs2 as (_ & _ & _ & _ & Hs2).
        rewrite Ha3, Hs2. done. }
    split; [lia|]. split; [lia|]. split; [intros Hn; specialize (Hall Hn); lia|].
    by rewrite Hbytes, Hl1.
Qed.

Lemma upload_folder_accounts_witness :
  let run := upload_folder (Publisher true (fault_at 1)) 500 ["out"] ["publish"] None true
               publish_start in
  (uploaded_files (MkUStats 2 12 2 1) + up_error_files (MkUStats 2 12 2 1)
   = length (u_attempts run.2))%nat
  /\ (length (u_attempts run.2)
      <= length (walk_files (walk (u_local publish_start) ["out"])))%nat
  /\ (@None (nat -> bool) = None ->
      length (u_attempts run.2) = length (walk_files (walk (u_local publish_start) ["out"])))
  /\ uploaded_bytes (MkUStats 2 12 2 1)
     = total_size (u_local publish_start) (successes (u_attempts run.2)).
Proof.
  cbv zeta.
  apply (upload_folder_accounts (Publisher true (fault_at 1)) 500 ["out"] ["publish"] None
           true publish_start (MkUStats 2 12 2 1)).
  - reflexivity.
  - vm_compute. reflexivity.
Defined.

(** X14 -- With nothing to upload (the directory is missing or holds no
    regular file) [upload_folder] returns zeroed statistics without
    touching the network: it does not connect, so it also returns when
    the server cannot be reached, and both trees are as before. *)
Theorem upload_folder_nothing_to_do (srv : publish_server) (now : Z)
    (local_dir remote_dir : path) (stop_check : option (nat -> bool))
    (delete_after_upload : bool) (s : ustate) :
  let run := upload_folder srv now local_dir remote_dir stop_check delete_after_upload s in
  has_files (u_local s) local_dir = false ->
  run.1 = Some zero_ustats
  /\ u_ops run.2 = u_ops s /\ u_remote run.2 = u_remote s /\ u_local run.2 = u_local s.
Proof.
  intros run Hnone. apply has_files_false in Hnone.
  destruct (upload_folder_shape srv now local_dir remote_dir stop_check delete_after_upload
              s run.1 run.2)
    as [(Hz & Hl & Hr & Ho & _)|(files & s1 & stats0 & uploaded & s2 & Hfiles & Hne & _)];
    [apply surjective_pairing | |].
  - destruct Hz as [Hz|[_ Hz]]; [done | by rewrite Hnone in Hz].
  - rewrite Hnone in Hfiles. by destruct files.
Qed.

Lemma upload_folder_nothing_to_do_witness :
  let s := UState {[ ["out"] := NDir; ["out"; "sub"] := NDir ]} publish_remote [] 0 0 [] in
  let run := upload_folder (Publisher false (fun _ => true)) 500 ["out"] ["publish"] None true
               s in
  run.1 = Some zero_ustats
  /\ u_ops run.2 = u_ops s /\ u_remote run.2 = u_remote s /\ u_local run.2 = u_local s.
Proof.
  cbv zeta.
  apply (upload_folder_nothing_to_do (Publisher false (fun _ => true)) 500 ["out"]
           ["publish"] None true
           (UState {[ ["out"] := NDir; ["out"; "sub"] := NDir ]} publish_remote [] 0 0 [])).
  vm_compute. reflexivity.
Defined.



(** X16 -- The pruning of [upload_folder] only reaches below the
    uploaded directory: [local_dir] itself and every directory that is
    not strictly below it are still there when the run ends. *)
Theorem upload_folder_keeps_other_dirs (srv : publish_server) (now : Z)
    (local_dir remote_dir : path) (stop_check : option (nat -> bool))
    (delete_after_upload : bool) (s : ustate) (q : path) :
  let run := upload_folder srv now local_dir remote_dir stop_check delete_after_upload s in
  u_local s !! q = Some NDir ->
  (forall r, r <> [] -> q <> local_dir ++ r) ->
  u_local run.2 !! q = Some NDir.
Proof.
  intros run Hq Hout.
  destruct (upload_folder_shape srv now local_dir remote_dir stop_check delete_after_upload
              s run.1 run.2)
    as [(_ & Hl & _)
       |(files & s1 & stats0 & uploaded & s2 & _ & _ & Hl1 & _ & _ & _ & _ & Hup & Hrest)];
    [apply surjective_pairing | by rewrite Hl |].
  apply upload_all_spec in Hup as (Hl2 & _).
  destruct Hrest as [(_ & _ & Hsame)
                    |(_ & _ & s2' & stats3 & s3 & s3' & Hs2 & Hdu & Hs3 & _ & Hs4)].
  - destruct Hsame as (-> & _). by rewrite Hl2, Hl1.
  - destruct Hs2 as (Hl2' & _). destruct Hs3 as (Hl3' & _). destruct Hs4 as (Hl4 & _).
    apply delete_uploaded_more in Hdu as (_ & _ & _ & _ & _ & Hdel).
    destruct (prune_walk_more stop_check local_dir local_dir
                (walk_up (u_local s3') local_dir) s3') as (_ & _ & _ & Hshrink).
    { intros tr. unfold walk_up. destruct (is_dir _ _); [|by intros ?%elem_of_nil].
      apply walk_up_from_roots. }
    assert (u_local s3 !! q = Some NDir) as Hq3.
    { destruct (Hdel q) as [E|(_ & f & E)]; rewrite Hl2', Hl2, Hl1 in E; congruence. }
    rewrite Hl4. destruct (Hshrink q) as [E|(_ & _ & r & Hr & E)].
    + by rewrite E, Hl3'.
    + exfalso. by apply (Hout r).
Qed.

Lemma upload_folder_keeps_other_dirs_witness :
  u_local (upload_folder sound_wire 500 ["out"] ["publish"] None true publish_start).2
    !! ["out"] = Some NDir.
Proof.
  apply (upload_folder_keeps_other_dirs sound_wire 500 ["out"] ["publish"] None true
           publish_start ["out"]).
  - reflexivity.
  - intros r Hr E. apply (f_equal length) in E. rewrite length_app in E. cbn in E.
    destruct r; [done | cbn in E; lia].
Defined.

(** ** The upload watch loop ends once the stop flag is up *)

Lemma upload_folder_polls (srv : publish_server) (now : Z) (local_dir remote_dir : path)
    (stop_check : option (nat -> bool)) (delete_after_upload : bool) (s : ustate) :
  (u_polls s
   <= u_polls (upload_folder srv now local_dir remote_dir stop_check delete_after_upload
                 s).2)%nat.
Proof.
  destruct (upload_folder_shape srv now local_dir remote_dir stop_check delete_after_upload
              s _ _ (surjective_pairing _))
    as [(_ & _ & _ & _ & _ & Hp & _)
       |(files & s1 & stats0 & uploaded & s2 & _ & _ & _ & _ & _ & _ & Hp1 & Hup & Hrest)];
    [done|].
  apply upload_all_counts in Hup as (new & _ & _ & _ & _ & _ & Hp2).
  destruct Hrest as [(_ & _ & Hsame)
                    |(_ & _ & s2' & stats3 & s3 & s3' & Hs2 & Hdu & Hs3 & _ & Hs4)].
  - destruct Hsame as (_ & _ & -> & _). lia.
  - destruct Hs2 as (_ & _ & Hp2' & _). destruct Hs3 as (_ & _ & Hp3' & _).
    destruct Hs4 as (_ & _ & -> & _).
    apply delete_uploaded_more in Hdu as (_ & _ & _ & _ & Hp3 & _).
    destruct (prune_walk_more stop_check local_dir local_dir
                (walk_up (u_local s3') local_dir) s3') as (_ & _ & Hp4 & _).
    { intros tr. unfold walk_up. destruct (is_dir _ _); [|by intros ?%elem_of_nil].
      apply walk_up_from_roots. }
    lia.
Qed.

Lemma usleep_polls (stop_check : option (nat -> bool)) (ticks : nat) : forall s,
  (u_polls s <= u_polls (usleep stop_check ticks s))%nat.
Proof.
  induction ticks as [|n IH]; intros s; simpl; [done|].
  pose proof (upoll_more stop_check s) as (_ & _ & Hp).
  destruct (upoll stop_check s) as [stop s1]. cbn in Hp.
  destruct stop; [done|]. specialize (IH s1). lia.
Qed.

Lemma upload_cycles_stops (f : nat -> bool) (n : nat) (srv : publish_server)
    (now : nat -> Z) (local_dir remote_dir : path) (interval : Z)
    (delete_after_upload : bool) :
  (forall k, (n <= k)%nat -> f k = true) ->
  forall (fuel cycle_count : nat) (total : UStats) (s : ustate),
  (n < fuel + u_polls s)%nat ->
  (upload_cycles fuel srv now local_dir remote_dir (Some f) interval delete_after_upload
     cycle_count total s).1 <> None.
Proof.
  intros Hstop. induction fuel as [|fuel IH]; intros cycle_count total s Hn;
    cbn [upload_cycles upoll].
  - rewrite Hstop by lia. done.
  - destruct (f (u_polls s)) eqn:Hf; [done|].
    assert (u_polls s < n)%nat as Hlt.
    { destruct (decide (n <= u_polls s)%nat) as [Hle|]; [|lia].
      rewrite (Hstop _ Hle) in Hf. done. }
    set (s1 := UState (u_local s) (u_remote s) (u_log s) (S (u_polls s)) (u_ops s)
                 (u_attempts s)).
    assert (Hsleep : forall s0, (u_polls s1 <= u_polls s0)%nat ->
              (n < fuel + u_polls (usleep (Some f) (ticks_of interval) s0))%nat).
    { intros s0 H0. pose proof (usleep_polls (Some f) (ticks_of interval) s0). cbn in *. lia. }
    destruct (negb (path_exists (u_local s1) local_dir)); [by apply IH, Hsleep|].
    destruct (negb (has_files (u_local s1) local_dir)); [by apply IH, Hsleep|].
    match goal with |- context [upload_folder ?a ?b ?c ?d ?e ?g ?h] =>
      pose proof (upload_folder_polls a b c d e g h) as Hp;
      destruct (upload_folder a b c d e g h) as [r s2] end.
    cbn [snd ulog u_polls] in Hp.
    match goal with |- context [let (total, s) := ?x in _] =>
      assert (u_polls x.2 = u_polls s2) as Hx by (by destruct r; [destruct (_ <? _)%nat|]);
      destruct x as [total' s3] end.
    cbn [snd] in Hx. cbn [upoll].
    destruct (f (u_polls s3)); apply IH; [subst s1; cbn in *; lia|].
    apply Hsleep. subst s1. cbn in *. lia.
Qed.

(** X17 -- The watch loop of the publish stage ends once the stop flag
    is up: if [stop_check] answers true from its [n]-th call on,
    [watch_and_upload] has returned its totals by the time [n + 1]
    cycles have been started. *)
Theorem watch_and_upload_stops (fuel : nat) (srv : publish_server) (now : nat -> Z)
    (local_dir remote_dir : path) (f : nat -> bool) (interval : Z)
    (delete_after_upload : bool) (s : ustate) (n : nat) :
  (forall k, (n <= k)%nat -> f k = true) ->
  (n < fuel + u_polls s)%nat ->
  exists total,
    (watch_and_upload fuel srv now local_dir remote_dir (Some f) interval
       delete_after_upload s).1 = Some total.
Proof.
  intros Hstop Hn. unfold watch_and_upload.
  match goal with |- context [upload_cycles ?a ?b ?c ?d ?e ?g ?h ?i ?j ?k ?l] =>
    pose proof (upload_cycles_stops f n b c d e h i Hstop a j k l) as H;
    destruct (upload_cycles a b c d e g h i j k l).1 as [total|] end.
  - by exists total.
  - exfalso. by apply H.
Qed.

Lemma watch_and_upload_stops_witness :
  exists total,
    (watch_and_upload 3 sound_wire (fun _ => 500) ["out"] ["publish"] (Some (stop_from 2)) 1
       false publish_start).1 = Some total.
Proof.
  apply (watch_and_upload_stops 3 sound_wire (fun _ => 500) ["out"] ["publish"] (stop_from 2)
           1 false publish_start 2).
  - intros k Hk. unfold stop_from. by apply Nat.leb_le.
  - cbn. lia.
Defined.

(** * The database *)

Section VaultFacts.
Context {A : Type}.
Variable encrypt : nat -> string -> string.
Variable decrypt : string -> option string.
Hypothesis decrypt_encrypt : forall n p, decrypt (encrypt n p) = Some p.
Hypothesis encrypt_nonempty : forall n p, encrypt n p <> ""%string.

Lemma truthy_Some (p : string) : p <> ""%string -> truthy (Some p) = true.
Proof.
  intros Hp. unfold truthy, unset, blank. by rewrite bool_decide_eq_false_2.
Qed.

(** X18 -- A password saved with the settings comes back: after
    [save_settings] with a non-empty password, [load_settings] returns
    the dictionary that was saved, the password in clear, while the
    row of the table holds its encryption. *)
Theorem save_settings_load_settings (nonce : nat) (data : settings_row A)
    (db : database A) (p : string) :
  row_password data = Some p -> p <> ""%string ->
  load_settings decrypt (save_settings encrypt decrypt nonce data db) = Some data
  /\ settings_table (save_settings encrypt decrypt nonce data db)
     = Some (set_password (Some (encrypt nonce p)) data).
Proof.
  intros Hpwd Hp. destruct data as [pwd fields]. cbn in Hpwd. subst pwd.
  unfold save_settings. cbn [row_password].
  assert (unset (Some p) = false) as ->.
  { unfold unset, blank. by rewrite bool_decide_eq_false_2. }
  cbn [andb]. rewrite (truthy_Some p Hp). cbn [default from_option id].
  split; [|done]. unfold load_settings. cbn.
  rewrite truthy_Some by apply encrypt_nonempty. cbn. by rewrite decrypt_encrypt.
Qed.

(** X19 -- Saving settings with a blank password, which is meant to
    keep the stored one, writes the stored password into the table in
    clear: [load_settings] has decrypted it, and the branch that
    retains it does not encrypt it again.  The next [load_settings]
    then hands the clear text to [decrypt], so the password that comes
    back is [None] unless the clear text happens to be a valid token. *)
Theorem save_settings_blank_password_stores_plaintext (nonce : nat)
    (data current : settings_row A) (db : database A) (token p : string) :
  settings_table db = Some current ->
  row_password current = Some token -> token <> ""%string ->
  decrypt token = Some p -> p <> ""%string ->
  unset (row_password data) = true ->
  settings_table (save_settings encrypt decrypt nonce data db)
    = Some (set_password (Some p) data)
  /\ load_settings decrypt (save_settings encrypt decrypt nonce data db)
     = Some (set_password (decrypt p) data).
Proof.
  intros Hrow Htoken Hne Hdec Hp Hblank.
  assert (Hsaved : save_settings encrypt decrypt nonce data db
                   = Database (Some (set_password (Some p) data)) (users_table db)).
  { unfold save_settings, load_settings. rewrite Hrow, Htoken.
    rewrite (truthy_Some token Hne). cbn [default from_option id]. rewrite Hdec.
    cbn [mbind option_bind row_password set_password]. rewrite Hblank.
    by rewrite (truthy_Some p Hp). }
  rewrite Hsaved. split; [done|].
  unfold load_settings. cbn. rewrite (truthy_Some p Hp). cbn.
  by destruct (decrypt p).
Qed.

Lemma save_user_load_user (nonce : nat) (username password : string) (db : database A) :
  load_user decrypt (save_user encrypt nonce username password db)
    = Some (username, password).
Proof. unfold load_user, save_user. cbn. by rewrite decrypt_encrypt. Qed.

End VaultFacts.

Lemma scen_decrypt_encrypt (n : nat) (p : string) : scen_decrypt (scen_encrypt n p) = Some p.
Proof. reflexivity. Qed.

Lemma scen_encrypt_nonempty (n : nat) (p : string) : scen_encrypt n p <> ""%string.
Proof. done. Qed.

Lemma save_settings_load_settings_witness :
  let data := SettingsRow (Some "hunter2"%string) scen_settings in
  load_settings scen_decrypt (save_settings scen_encrypt scen_decrypt 1 data scen_db)
    = Some data
  /\ settings_table (save_settings scen_encrypt scen_decrypt 1 data scen_db)
     = Some (set_password (Some (scen_encrypt 1 "hunter2")) data).
Proof.
  cbv zeta.
  apply (save_settings_load_settings scen_encrypt scen_decrypt scen_decrypt_encrypt
           scen_encrypt_nonempty 1 (SettingsRow (Some "hunter2"%string) scen_settings) scen_db
           "hunter2"); done.
Defined.

Lemma save_settings_blank_password_stores_plaintext_witness :
  let data := SettingsRow (Some ""%string) unconfigured_settings in
  settings_table (save_settings scen_encrypt scen_decrypt 1 data scen_db)
    = Some (set_password (Some "s3cret"%string) data)
  /\ load_settings scen_decrypt (save_settings scen_encrypt scen_decrypt 1 data scen_db)
     = Some (set_password (scen_decrypt "s3cret") data).
Proof.
  cbv zeta.
  apply (save_settings_blank_password_stores_plaintext scen_encrypt scen_decrypt 1
           (SettingsRow (Some ""%string) unconfigured_settings)
           (SettingsRow (Some (scen_encrypt 0 "s3cret")) scen_settings) scen_db
           (scen_encrypt 0 "s3cret") "s3cret"); done.
Defined.

(** * Sessions *)

Lemma rsplit_bar_is_Some (raw : bytes) : bar ∈ raw -> is_Some (rsplit_bar raw).
Proof.
  induction raw as [|b raw IH]; simpl; [by intros ?%elem_of_nil|].
  intros [->|Hin]%elem_of_cons.
  - destruct (rsplit_bar raw) as [[]|]; [done|]. rewrite decide_True by done. done.
  - destruct (IH Hin) as [[pl sg] ->]. done.
Qed.

Lemma rsplit_bar_spec (raw payload sig : bytes) :
  rsplit_bar raw = Some (payload, sig) <-> raw = payload ++ bar :: sig /\ bar ∉ sig.
Proof.
  revert payload sig. induction raw as [|b raw IH]; intros payload sig; simpl.
  - split; [done|]. intros [H _]. by destruct payload.
  - destruct (rsplit_bar raw) as [[pl sg]|] eqn:E.
    + destruct (IH pl sg) as [IH1 _]. destruct (IH1 eq_refl) as [-> Hsg]. split.
      * intros [= <- <-]. done.
      * intros [H Hno]. destruct payload as [|c payload]; injection H as -> H.
        -- exfalso. apply Hno. rewrite <- H. apply elem_of_app. right. by left.
        -- apply (conj H) in Hno. apply IH in Hno. by injection Hno as -> ->.
    + assert (bar ∉ raw) as Hraw.
      { intros Hin. apply rsplit_bar_is_Some in Hin as [x Hx]. congruence. }
      case_decide as Hb.
      * subst b. split; [by intros [= <- <-]|].
        intros [H Hno]. destruct payload as [|c payload]; simplify_eq/=; [done|].
        exfalso. apply Hraw. apply elem_of_app. right. by left.
      * split; [done|]. intros [H Hno]. destruct payload as [|c payload]; simplify_eq/=.
        exfalso. apply Hraw. apply elem_of_app. right. by left.
Qed.

(** Splitting at the last bar leaves less than all of a tail that has a
    bar in it. *)
Lemma rsplit_bar_short (p sig payload sg : bytes) :
  rsplit_bar (p ++ bar :: sig) = Some (payload, sg) -> bar ∈ sig ->
  (length sg < length sig)%nat.
Proof.
  intros [Heq Hno]%rsplit_bar_spec Hin.
  assert (sig `suffix_of` p ++ bar :: sig) as H1
    by (exists (p ++ [bar]); by rewrite <- app_assoc).
  assert (sg `suffix_of` p ++ bar :: sig) as H2
    by (rewrite Heq; exists (payload ++ [bar]); by rewrite <- app_assoc).
  destruct (suffix_weak_total _ _ _ H1 H2) as [[k Hk]|[k Hk]].
  - exfalso. apply Hno. rewrite Hk. apply elem_of_app. by right.
  - destruct k as [|c k]; [cbn in Hk; by subst|]. rewrite Hk, length_app. cbn. lia.
Qed.

Lemma append_assoc (s1 s2 s3 : string) : ((s1 +:+ s2) +:+ s3 = s1 +:+ s2 +:+ s3)%string.
Proof.
  induction s1 as [|c s1 IH]; [done|].
  change (String c (s1 +:+ s2) +:+ s3 = String c (s1 +:+ s2 +:+ s3))%string.
  change (String c ((s1 +:+ s2) +:+ s3) = String c (s1 +:+ s2 +:+ s3))%string.
  by rewrite IH.
Qed.

Lemma split_colon_app (username rest : string) :
  ":"%char ∉ String.list_ascii_of_string username ->
  split_colon (username +:+ ":" +:+ rest) = Some (username, rest).
Proof.
  induction username as [|c username IH]; intros Hno.
  - done.
  - cbn in Hno. apply not_elem_of_cons in Hno as [Hc Hno].
    change (split_colon (String c (username +:+ ":" +:+ rest))
            = Some (String c username, rest)).
    cbn [split_colon]. destruct (Ascii.eqb c ":") eqn:E.
    + apply Ascii.eqb_eq in E. congruence.
    + by rewrite IH.
Qed.

Section SessionFacts.
Variable hmac_sha256 : bytes -> bytes.
Variable b64encode : bytes -> string.
Variable b64decode : string -> option bytes.
Variable encode : string -> bytes.
Variable decode : bytes -> option string.
Variable int_of_str : string -> option Z.

Hypothesis b64_inverse : forall raw, b64decode (b64encode raw) = Some raw.
Hypothesis decode_encode : forall text, decode (encode text) = Some text.
Hypothesis int_of_str_of_int : forall n, int_of_str (str_of_int n) = Some n.
Hypothesis int_of_str_colon :
  forall s, ":"%char ∈ String.list_ascii_of_string s -> int_of_str s = None.
Hypothesis digest_length : forall msg, length (hmac_sha256 msg) = 32%nat.

Lemma verify_sign (now issued : Z) (username : string) :
  ":"%char ∉ String.list_ascii_of_string username ->
  bar ∉ hmac_sha256 (encode (username +:+ ":" +:+ str_of_int issued)%string) ->
  _verify_token hmac_sha256 b64decode decode int_of_str now
    (_sign_token hmac_sha256 b64encode encode username issued)
  = if now - issued * NS >? SESSION_AGE then Rejected else Verified username.
Proof.
  intros Hcolon Hbar. unfold _verify_token, _sign_token.
  rewrite b64_inverse.
  rewrite (proj2 (rsplit_bar_spec _ (encode (username +:+ ":" +:+ str_of_int issued)%string)
                    (hmac_sha256 (encode (username +:+ ":" +:+ str_of_int issued)%string))))
    by done.
  rewrite decode_encode. rewrite split_colon_app by done.
  rewrite bool_decide_eq_true_2 by done. cbn [negb]. by rewrite int_of_str_of_int.
Qed.

(** X20 -- A token comes back as the user it was signed for, for twelve
    hours: when the user name has no colon and the 32 bytes of the
    signature have no byte [|] among them, [_verify_token] on the token
    of [_sign_token] returns the user name as long as no more than
    twelve hours have passed since [issued], and [None] afterwards. *)
Theorem verify_token_of_sign_token (now issued : Z) (username : string) :
  let payload := (username +:+ ":" +:+ str_of_int issued)%string in
  ":"%char ∉ String.list_ascii_of_string username ->
  bar ∉ hmac_sha256 (encode payload) ->
  _verify_token hmac_sha256 b64decode decode int_of_str now
    (_sign_token hmac_sha256 b64encode encode username issued)
  = if now - issued * NS >? SESSION_AGE then Rejected else Verified username.
Proof. intros payload. apply verify_sign. Qed.

(** X21 -- A token whose signature has the byte [|] among its 32 bytes
    is refused from the start: [_verify_token] splits the raw token at
    its last [|], which then lies inside the signature, so what it
    compares with the expected digest is too short.  Such a token is
    what [_sign_token] returns whenever the digest contains that byte;
    the holder of the cookie is answered 401 on every request. *)
Theorem verify_token_refuses_bar_in_signature (now issued : Z) (username : string) :
  let payload := (username +:+ ":" +:+ str_of_int issued)%string in
  bar ∈ hmac_sha256 (encode payload) ->
  _verify_token hmac_sha256 b64decode decode int_of_str now
    (_sign_token hmac_sha256 b64encode encode username issued) = Rejected.
Proof.
  intros payload Hbar. unfold _verify_token, _sign_token. fold payload.
  rewrite b64_inverse.
  destruct (rsplit_bar _) as [[pl sg]|] eqn:Hsplit; [|done].
  apply rsplit_bar_short in Hsplit; [|done]. rewrite digest_length in Hsplit.
  destruct (decode pl) as [text|]; [|done].
  destruct (split_colon text) as [[u i]|]; [|done].
  rewrite bool_decide_eq_false_2; [done|].
  intros E. apply (f_equal length) in E. rewrite digest_length in E. lia.
Qed.

(** X22 -- A user name with a colon in it gets a token that cannot be
    used: [_verify_token] cuts the payload at its first colon, the
    signature matches, and [int()] is then applied to a string that
    still has a colon in it; its [ValueError] is not caught, so the
    request fails instead of being answered. *)
Theorem verify_token_raises_on_colon (now issued : Z) (before after : string) :
  let username := (before +:+ ":" +:+ after)%string in
  let payload := (username +:+ ":" +:+ str_of_int issued)%string in
  ":"%char ∉ String.list_ascii_of_string before ->
  bar ∉ hmac_sha256 (encode payload) ->
  _verify_token hmac_sha256 b64decode decode int_of_str now
    (_sign_token hmac_sha256 b64encode encode username issued) = VerifyRaises.
Proof.
  intros username payload Hcolon Hbar. unfold _verify_token, _sign_token. fold payload.
  rewrite b64_inverse.
  rewrite (proj2 (rsplit_bar_spec _ (encode payload) (hmac_sha256 (encode payload))))
    by done.
  rewrite decode_encode. subst payload username. rewrite !append_assoc.
  rewrite split_colon_app by done.
  rewrite bool_decide_eq_true_2 by done. cbn [negb].
  rewrite int_of_str_colon; [done|].
  rewrite list_ascii_of_string_app. apply elem_of_app. right. by left.
Qed.

End SessionFacts.

(** ** The stand-ins satisfy what is assumed of the libraries *)

Lemma scen_b64_inverse (raw : bytes) : scen_b64decode (scen_b64encode raw) = Some raw.
Proof.
  unfold scen_b64decode, scen_b64encode. by rewrite String.list_byte_of_string_of_list_byte.
Qed.

Lemma scen_decode_encode (text : string) : scen_decode (scen_encode text) = Some text.
Proof.
  unfold scen_decode, scen_encode. by rewrite String.string_of_list_byte_of_string.
Qed.

Lemma scen_int_of_str_of_int (n : Z) : scen_int_of_str (str_of_int n) = Some n.
Proof.
  unfold scen_int_of_str, str_of_int. rewrite DecimalString.NilZero.isi.
  - cbn. by rewrite DecimalZ.of_to.
  - destruct n; cbn; try done. intros [= H]. by apply DecimalPos.Unsigned.to_uint_nonnil in H.
  - destruct n; cbn; try done. intros [= H]. by apply DecimalPos.Unsigned.to_uint_nonnil in H.
Qed.

Lemma uint_of_string_colon (s : string) :
  ":"%char ∈ String.list_ascii_of_string s ->
  DecimalString.NilEmpty.uint_of_string s = None.
Proof.
  induction s as [|c s IH]; cbn; [by intros ?%elem_of_nil|].
  intros [<-|Hin]%elem_of_cons.
  - by destruct (DecimalString.NilEmpty.uint_of_string s).
  - by rewrite IH.
Qed.

Lemma scen_int_of_str_colon (s : string) :
  ":"%char ∈ String.list_ascii_of_string s -> scen_int_of_str s = None.
Proof.
  unfold scen_int_of_str, DecimalString.NilZero.int_of_string.
  destruct s as [|c s]; [done|]. intros Hin.
  destruct (Ascii.eqb c "-") eqn:E.
  - apply Ascii.eqb_eq in E. subst c. cbn in Hin.
    apply elem_of_cons in Hin as [Hin|Hin]; [done|].
    unfold DecimalString.NilZero.uint_of_string.
    destruct s as [|d s]; [done|]. by rewrite uint_of_string_colon.
  - unfold DecimalString.NilZero.uint_of_string. by rewrite uint_of_string_colon.
Qed.

Lemma scen_digest_length (fill : Byte.byte) (msg : bytes) :
  length (scen_hmac fill msg) = 32%nat.
Proof. done. Qed.

Lemma verify_token_of_sign_token_witness :
  _verify_token (scen_hmac Byte.x00) scen_b64decode scen_decode scen_int_of_str
    (1300 * NS) (_sign_token (scen_hmac Byte.x00) scen_b64encode scen_encode "admin" 1000)
  = if 1300 * NS - 1000 * NS >? SESSION_AGE then Rejected else Verified "admin".
Proof.
  apply (verify_token_of_sign_token (scen_hmac Byte.x00) scen_b64encode scen_b64decode
           scen_encode scen_decode scen_int_of_str scen_b64_inverse scen_decode_encode
           scen_int_of_str_of_int (1300 * NS) 1000 "admin").
  - by_compute.
  - by_compute.
Defined.

Lemma verify_token_refuses_bar_in_signature_witness :
  _verify_token (scen_hmac bar) scen_b64decode scen_decode scen_int_of_str
    (1300 * NS) (_sign_token (scen_hmac bar) scen_b64encode scen_encode "admin" 1000)
  = Rejected.
Proof.
  apply (verify_token_refuses_bar_in_signature (scen_hmac bar) scen_b64encode scen_b64decode
           scen_encode scen_decode scen_int_of_str scen_b64_inverse
           (scen_digest_length bar) (1300 * NS) 1000 "admin").
  by_compute.
Defined.

Lemma verify_token_raises_on_colon_witness :
  _verify_token (scen_hmac Byte.x00) scen_b64decode scen_decode scen_int_of_str
    (1300 * NS)
    (_sign_token (scen_hmac Byte.x00) scen_b64encode scen_encode ("ops" +:+ ":" +:+ "night")
       1000)
  = VerifyRaises.
Proof.
  apply (verify_token_raises_on_colon (scen_hmac Byte.x00) scen_b64encode scen_b64decode
           scen_encode scen_decode scen_int_of_str scen_b64_inverse scen_decode_encode
           scen_int_of_str_colon (1300 * NS) 1000 "ops" "night").
  - by_compute.
  - by_compute.
Defined.

(** ** Logging in *)

Section LoginFacts.
Context {A : Type}.
Variable hmac_sha256 : bytes -> bytes.
Variable b64encode : bytes -> string.
Variable b64decode : string -> option bytes.
Variable encode : string -> bytes.
Variable decode : bytes -> option string.
Variable int_of_str : string -> option Z.
Variable encrypt : nat -> string -> string.
Variable decrypt : string -> option string.
Variables APP_USER APP_PASSWORD : string.

Hypothesis b64_inverse : forall raw, b64decode (b64encode raw) = Some raw.
Hypothesis b64_nonempty : forall raw, raw <> [] -> b64encode raw <> ""%string.
Hypothesis decode_encode : forall text, decode (encode text) = Some text.
Hypothesis int_of_str_of_int : forall n, int_of_str (str_of_int n) = Some n.
Hypothesis decrypt_encrypt : forall n p, decrypt (encrypt n p) = Some p.

(** X23 -- [login] checks what it is given against the saved user, and
    against nothing else: after [save_user] it accepts exactly the saved
    name with the saved password.  But when the stored password cannot
    be decrypted (the row was written under another [SESSION_SECRET]),
    [load_user] answers [None] and [login] accepts the default
    [APP_USER] and [APP_PASSWORD] instead. *)
Theorem login_checks_saved_user (now : Z) (nonce : nat) (db : database A)
    (saved_user saved_password username password : string) :
  login hmac_sha256 b64encode encode decrypt APP_USER APP_PASSWORD now (save_user encrypt nonce saved_user saved_password db)
    (Some username) (Some password)
  = (if bool_decide (username = saved_user /\ password = saved_password)
     then LoggedIn username (_sign_token hmac_sha256 b64encode encode username (py_int now))
     else InvalidCredentials)
  /\ (forall token,
        users_table db = Some (saved_user, token) -> decrypt token = None ->
        login hmac_sha256 b64encode encode decrypt APP_USER APP_PASSWORD now db (Some APP_USER) (Some APP_PASSWORD)
        = LoggedIn APP_USER
            (_sign_token hmac_sha256 b64encode encode APP_USER (py_int now))).
Proof.
  split.
  - unfold login. rewrite (save_user_load_user encrypt decrypt decrypt_encrypt).
    destruct (decide (username = saved_user)) as [->|Hu],
             (decide (password = saved_password)) as [->|Hp].
    + by rewrite !bool_decide_eq_true_2.
    + rewrite (bool_decide_eq_false_2 (password = _)) by done.
      rewrite (bool_decide_eq_false_2 (_ /\ _)) by (by intros [_ ?]).
      by rewrite andb_false_r.
    + rewrite (bool_decide_eq_false_2 (username = _)) by done.
      by rewrite (bool_decide_eq_false_2 (_ /\ _)) by (by intros [? _]).
    + rewrite (bool_decide_eq_false_2 (username = _)) by done.
      by rewrite (bool_decide_eq_false_2 (_ /\ _)) by (by intros [? _]).
  - intros token Hrow Hdec. unfold login, load_user. rewrite Hrow, Hdec.
    by rewrite !bool_decide_eq_true_2.
Qed.

(** X24 -- The cookie that [login] sets opens the routes behind
    [require_auth] for twelve hours: for a user name that is not empty
    and has no colon, and a signature without the byte [|],
    [require_auth] on that cookie answers the user who logged in, at
    any moment up to twelve hours after the second of the login. *)
Theorem login_then_require_auth (now later : Z) (db : database A)
    (username password cookie : string) :
  let payload := (username +:+ ":" +:+ str_of_int (py_int now))%string in
  login hmac_sha256 b64encode encode decrypt APP_USER APP_PASSWORD now db (Some username) (Some password) = LoggedIn username cookie ->
  username <> ""%string ->
  ":"%char ∉ String.list_ascii_of_string username ->
  bar ∉ hmac_sha256 (encode payload) ->
  later - py_int now * NS <= SESSION_AGE ->
  require_auth hmac_sha256 b64decode decode int_of_str later (Some cookie)
  = Authorized username.
Proof.
  intros payload Hlogin Huser Hcolon Hbar Hage.
  assert (cookie = _sign_token hmac_sha256 b64encode encode username (py_int now)) as ->.
  { unfold login in Hlogin. destruct (load_user decrypt db) as [[u p]|];
      destruct (_ && _); by simplify_eq. }
  unfold require_auth.
  assert (blank (_sign_token hmac_sha256 b64encode encode username (py_int now)) = false)
    as ->.
  { unfold blank. apply bool_decide_eq_false_2, b64_nonempty.
    intros H. apply (f_equal length) in H. rewrite !length_app in H. cbn in H. lia. }
  rewrite (verify_sign hmac_sha256 b64encode b64decode encode decode
             int_of_str b64_inverse decode_encode int_of_str_of_int) by done.
  assert ((later - py_int now * NS >? SESSION_AGE) = false) as -> by lia.
  unfold blank. by rewrite bool_decide_eq_false_2.
Qed.

End LoginFacts.

Lemma scen_b64_nonempty (raw : bytes) : raw <> [] -> scen_b64encode raw <> ""%string.
Proof. by destruct raw. Qed.

Lemma login_checks_saved_user_witness :
  login (scen_hmac Byte.x00) scen_b64encode scen_encode scen_decrypt "admin" "password"
    (1000 * NS) (save_user scen_encrypt 3 "operator" "pw" scen_stale_db)
    (Some "operator"%string) (Some "wrong"%string)
  = (if bool_decide ("operator"%string = "operator"%string /\ "wrong"%string = "pw"%string)
     then LoggedIn "operator"
            (_sign_token (scen_hmac Byte.x00) scen_b64encode scen_encode "operator"
               (py_int (1000 * NS)))
     else InvalidCredentials)
  /\ (forall token,
        users_table scen_stale_db = Some ("operator"%string, token) ->
        scen_decrypt token = None ->
        login (scen_hmac Byte.x00) scen_b64encode scen_encode scen_decrypt "admin" "password"
          (1000 * NS) scen_stale_db (Some "admin"%string) (Some "password"%string)
        = LoggedIn "admin"
            (_sign_token (scen_hmac Byte.x00) scen_b64encode scen_encode "admin"
               (py_int (1000 * NS)))).
Proof.
  apply (login_checks_saved_user (scen_hmac Byte.x00) scen_b64encode scen_encode scen_encrypt
           scen_decrypt "admin" "password" scen_decrypt_encrypt (1000 * NS) 3 scen_stale_db
           "operator" "pw" "operator" "wrong").
Defined.

Lemma login_then_require_auth_witness :
  require_auth (scen_hmac Byte.x00) scen_b64decode scen_decode scen_int_of_str
    (40000 * NS)
    (Some (_sign_token (scen_hmac Byte.x00) scen_b64encode scen_encode "admin"
             (py_int (1000 * NS + 5))))
  = Authorized "admin".
Proof.
  apply (login_then_require_auth (scen_hmac Byte.x00) scen_b64encode scen_b64decode
           scen_encode scen_decode scen_int_of_str scen_decrypt "admin" "password"
           scen_b64_inverse scen_b64_nonempty scen_decode_encode scen_int_of_str_of_int
           (1000 * NS + 5) (40000 * NS) scen_stale_db "admin" "password").
  - reflexivity.
  - done.
  - by_compute.
  - by_compute.
  - by vm_compute.
Defined.

(** * More on the supervisor *)

Lemma fire_flag_backed (has_reset : bool) (ev : event) (st : supervisor) :
  flag_backed st -> flag_backed (fire has_reset ev st).2.
Proof.
  unfold flag_backed. intros Hinv. destruct ev as [| | |i]; cbn.
  - unfold run_handler. destruct (running (flags st)) eqn:Hr; cbn; [by rewrite Hr|].
    intros ?. congruence.
  - unfold stop_handler. destruct (running (flags st)) eqn:Hr; cbn; [|by rewrite Hr].
    intros _. by apply Hinv.
  - destruct has_reset; cbn; [done|]. exact Hinv.
  - destruct (workers st !! i) as [w|] eqn:Hi; [|exact Hinv].
    destruct (advance (flags st) w) as [fl w'] eqn:Hadv. cbn.
    assert (Hlen : (i < length (workers st))%nat) by (by eapply lookup_lt_Some).
    assert (Hkeep : working w = false -> running fl = running (flags st) ->
              running fl = true ->
              exists j v, <[i := w']> (workers st) !! j = Some v /\ working v = true).
    { intros Hw Hfl Hr. rewrite Hfl in Hr. destruct (Hinv Hr) as (j & v & Hj & Hv).
      exists j, v. split; [|done]. rewrite list_lookup_insert_ne; [done|].
      intros ->. congruence. }
    assert (Hself : working w' = true ->
              exists j v, <[i := w']> (workers st) !! j = Some v /\ working v = true).
    { intros Hw. exists i, w'. split; [|done]. by apply list_lookup_insert_eq. }
    destruct w; cbn in Hadv; try (injection Hadv as <- <-; auto; cbn; done).
    destruct (lock_held (flags st)); injection Hadv as <- <-; auto.
Qed.

Lemma run_events_flag_backed (has_reset : bool) (evs : list event) : forall st,
  flag_backed st -> flag_backed (run_events has_reset evs st).
Proof.
  induction evs as [|ev evs IH]; intros st Hinv; simpl; [done|].
  by apply IH, fire_flag_backed.
Qed.

(** X25 -- The running flag of a stage is never up on its own: in
    every state the supervisor can reach, [running = true] means that
    some worker thread stands between its [_running = True] and its
    [_running = False]; and where the lock cannot be forced open the
    lock is then held. *)
Theorem running_flag_has_worker (has_reset : bool) (evs : list event) :
  let st := run_events has_reset evs boot in
  running (flags st) = true ->
  (exists i w, workers st !! i = Some w /\ working w = true)
  /\ (has_reset = false -> lock_held (flags st) = true).
Proof.
  intros st Hr.
  assert (Hw : exists i w, workers st !! i = Some w /\ working w = true).
  { apply (run_events_flag_backed has_reset evs boot); [|done]. intros H. done. }
  split; [done|]. intros ->.
  pose proof (run_events_lock_counts false evs boot (or_introl eq_refl) eq_refl) as Hlock.
  unfold lock_counts in Hlock. fold st in Hlock.
  destruct (lock_held (flags st)); [done|]. exfalso.
  destruct Hw as (i & w & Hi & Hw). unfold live_count in Hlock.
  apply list_elem_of_lookup_2 in Hi.
  assert (w ∈ filter (fun w => live w = true) (workers st)) as Hin.
  { apply list_elem_of_filter. split; [by destruct w | done]. }
  destruct (filter _ _); [by apply elem_of_nil in Hin | done].
Qed.

Lemma running_flag_has_worker_witness :
  let st := run_events false starting_events boot in
  (exists i w, workers st !! i = Some w /\ working w = true)
  /\ (false = false -> lock_held (flags st) = true).
Proof.
  apply (running_flag_has_worker false starting_events). reflexivity.
Defined.

(** X26 -- A stop request can be lost at the start of a run.  The
    worker sets [_running = True] and only then clears
    [_stop_requested]; a stop request that arrives between the two
    statements is accepted (the flag is up, the answer is
    "stop_requested") and wiped out by the worker's next statement,
    after which the worker is in its body with no stop pending. *)
Theorem stop_request_lost_at_start (has_reset : bool) (st : supervisor) (i : nat) :
  let asked := fire has_reset StopRequest st in
  let after := (fire has_reset (Advance i) asked.2).2 in
  workers st !! i = Some AtClearStop ->
  running (flags st) = true ->
  asked.1 = Some StopAccepted
  /\ stop_requested (flags asked.2) = true
  /\ stop_requested (flags after) = false
  /\ workers after !! i = Some InBody.
Proof.
  intros asked after Hi Hr. subst after asked. cbn. unfold stop_handler. rewrite Hr. cbn.
  rewrite Hi. cbn. repeat split. apply list_lookup_insert_eq. by eapply lookup_lt_Some.
Qed.

Lemma stop_request_lost_at_start_witness :
  let st := run_events false starting_events boot in
  let asked := fire false StopRequest st in
  let after := (fire false (Advance 0) asked.2).2 in
  asked.1 = Some StopAccepted
  /\ stop_requested (flags asked.2) = true
  /\ stop_requested (flags after) = false
  /\ workers after !! 0%nat = Some InBody.
Proof.
  apply (stop_request_lost_at_start false (run_events false starting_events boot) 0);
    reflexivity.
Defined.

(** * The worker of the mirror stage *)

Lemma kept_refl (t : tree) : kept t t.
Proof. by intros q. Qed.

Lemma kept_trans (t1 t2 t3 : tree) : kept t1 t2 -> kept t2 t3 -> kept t1 t3.
Proof.
  intros H12 H23 q. destruct (H12 q) as [A1 B1], (H23 q) as [A2 B2]. split; auto.
Qed.

Lemma touched_kept (rd : path) (P : path -> Prop) (t t' : tree) : touched rd P t t' -> kept t t'.
Proof.
  intros Ht q. split.
  - intros [n Hq]. destruct (Ht q) as [E|[[E _]|(_ & _ & f & E)]]; rewrite ?E; eauto.
    congruence.
  - intros Hq. destruct (Ht q) as [E|[[E _]|(_ & E & _)]]; congruence.
Qed.

Lemma copy_chunks_polls (should_stop : nat -> bool) (now : Z) (rel : path)
    (reads : list read_result) : forall s c s',
  copy_chunks should_stop now rel reads s = (c, s') -> (s_polls s <= s_polls s')%nat.
Proof.
  induction reads as [|r reads IH]; intros s c s'; simpl.
  - destruct (should_stop _); intros [= <- <-]; cbn; lia.
  - destruct (should_stop _); [intros [= <- <-]; cbn; lia|].
    destruct r as [[|b chunk]|]; [intros [= <- <-]; cbn; lia | | intros [= <- <-]; cbn; lia].
    intros H. apply IH in H. cbn in H. lia.
Qed.

Lemma sync_item_polls (settings : SftpSettings) (srv : sftp_server)
    (should_stop : nat -> bool) (now : Z) (idx : gmap (list string) stat_result)
    (it : path * sftp_attrs) (s : sync_state) c s' :
  sync_item settings srv should_stop now idx it s = (c, s') -> (s_polls s <= s_polls s')%nat.
Proof.
  destruct it as [p a]. unfold sync_item. cbn.
  destruct (should_stop _); [intros [= <- <-]; cbn; lia|].
  assert (forall c1 s1,
            (if a_isdir a
             then sync_dir settings p
                    (SyncState (s_fs s) (s_log s) (S (s_polls s)) (copied s) (skipped s)
                       (dirs_created s))
             else sync_file settings srv should_stop now idx p a
                    (SyncState (s_fs s) (s_log s) (S (s_polls s)) (copied s) (skipped s)
                       (dirs_created s))) = (c1, s1) ->
            (S (s_polls s) <= s_polls s1)%nat) as Hinner.
  { intros c1 s1. destruct (a_isdir a).
    - unfold sync_dir. cbn. destruct (relative_to p _); [|intros [= <- <-]; cbn; lia].
      destruct (path_exists _ _); [intros [= <- <-]; cbn; lia|].
      destruct (mkdir_parents _ _); intros [= <- <-]; cbn; lia.
    - unfold sync_file. cbn. destruct (relative_to p _); [|intros [= <- <-]; cbn; lia].
      destruct (mkdir_parents _ _); [|intros [= <- <-]; cbn; lia].
      rewrite compare_local_eq. destruct (same_file _ _); [intros [= <- <-]; cbn; lia|].
      unfold copy_file. cbn. destruct (should_stop _); [intros [= <- <-]; cbn; lia|].
      destruct (sftp_open srv p); [|intros [= <- <-]; cbn; lia].
      destruct (open_wb _ _ _); [|intros [= <- <-]; cbn; lia].
      destruct (copy_chunks _ _ _ _ _) as [c2 s2] eqn:Hcc.
      apply copy_chunks_polls in Hcc. cbn in Hcc.
      destruct c2; [|intros [= <- <-]; lia..].
      destruct (utime _ _ _ _); intros [= <- <-]; cbn; lia. }
  destruct (if a_isdir a then _ else _) as [c1 s1]. specialize (Hinner _ _ eq_refl).
  destruct c1; intros [= <- <-]; cbn; lia.
Qed.

Lemma sync_loop_polls (settings : SftpSettings) (srv : sftp_server)
    (should_stop : nat -> bool) (now : Z) (idx : gmap (list string) stat_result)
    (items : list (path * sftp_attrs)) : forall s c s',
  sync_loop settings srv should_stop now idx items s = (c, s') ->
  (s_polls s <= s_polls s')%nat.
Proof.
  induction items as [|it items IH]; intros s c s'; simpl; [by intros [= <- <-]|].
  destruct (sync_item _ _ _ _ _ _ _) as [c1 s1] eqn:H1. apply sync_item_polls in H1.
  destruct c1; [|intros [= <- <-]; lia..]. intros H2. apply IH in H2. lia.
Qed.

Lemma sync_once_polls (settings : SftpSettings) (srv : sftp_server)
    (should_stop : nat -> bool) (now : Z) (polls0 : nat) (local : tree) :
  (polls0 <= s_polls (sync_once settings srv should_stop now polls0 local).2)%nat.
Proof.
  unfold sync_once. destruct (connect_ok srv); [|done]. cbn -[sync_loop].
  match goal with |- context [sync_loop ?a ?b ?c ?d ?e ?f ?g] =>
    destruct (sync_loop a b c d e f g) as [c0 s3] eqn:Hloop end.
  apply sync_loop_polls in Hloop. cbn in *. lia.
Qed.

Lemma cycle_errors_of_app (l1 l2 : list run_entry) :
  cycle_errors_of (l1 ++ l2) = (cycle_errors_of l1 + cycle_errors_of l2)%nat.
Proof. unfold cycle_errors_of. by rewrite filter_app, length_app. Qed.

Lemma cycle_errors_of_sync_log (l : list log_entry) :
  cycle_errors_of ((fun e : log_entry => (e.1, inl e.2)) <$> l) = 0%nat.
Proof.
  unfold cycle_errors_of. induction l as [|e l IH]; [done|].
  rewrite fmap_cons, filter_cons. cbn. by rewrite decide_False.
Qed.

Ltac count_errors :=
  rewrite ?cycle_errors_of_app;
  repeat match goal with
         | |- context [cycle_errors_of [?e]] =>
             let v := eval cbv in (cycle_errors_of [e]) in
             change (cycle_errors_of [e]) with v
         end.

Lemma run_cycle_spec (settings : SftpSettings) (srv : sftp_server)
    (stop_flag : nat -> bool) (now : Z) (r : mirror_state) res r' :
  run_cycle settings srv stop_flag now r = (res, r') ->
  kept (m_fs r) (m_fs r') /\ (m_polls r <= m_polls r')%nat
  /\ cycle_errors_of (m_log r') = cycle_errors_of (m_log r)
  /\ (connect_ok srv = false ->
        res = SyncRaised /\ m_fs r' = m_fs r /\ m_polls r' = m_polls r).
Proof.
  unfold run_cycle.
  pose proof (sync_once_touched settings srv stop_flag now (m_polls r) (m_fs r)) as Ht.
  pose proof (sync_once_polls settings srv stop_flag now (m_polls r) (m_fs r)) as Hp.
  assert (connect_ok srv = false ->
          sync_once settings srv stop_flag now (m_polls r) (m_fs r)
          = (SyncRaised,
             log ERROR MsgSyncFailed
               (log INFO MsgAuthMethod (log INFO MsgConnecting (log INFO MsgBaseDir
                  (SyncState (m_fs r) [] (m_polls r) 0 0 0)))))) as Hdown.
  { intros H. unfold sync_once. by rewrite H. }
  destruct (sync_once _ _ _ _ _ _) as [res0 s]. cbn in Ht, Hp.
  intros [= <- <-]. cbn. split; [by eapply touched_kept|]. split; [done|].
  split; [by rewrite cycle_errors_of_app, cycle_errors_of_sync_log, Nat.add_0_r|].
  intros H. specialize (Hdown H). by injection Hdown as -> ->.
Qed.

Lemma msleep_spec (stop_flag : nat -> bool) (ticks : nat) : forall r,
  m_fs (msleep stop_flag ticks r) = m_fs r
  /\ m_log (msleep stop_flag ticks r) = m_log r
  /\ (m_polls r <= m_polls (msleep stop_flag ticks r))%nat.
Proof.
  induction ticks as [|n IH]; intros r; simpl; [done|].
  destruct (stop_flag (m_polls r)); [cbn; repeat split; lia|].
  destruct (IH (MirrorState (m_fs r) (m_log r) (S (m_polls r)))) as (H1 & H2 & H3).
  cbn in *. repeat split; [done | done | lia].
Qed.

Lemma sync_cycles_kept (settings : SftpSettings) (srv : nat -> sftp_server)
    (now : nat -> Z) (stop_flag : nat -> bool) : forall (fuel cycle_count : nat) r,
  kept (m_fs r) (m_fs (sync_cycles fuel settings srv now stop_flag cycle_count r).2).
Proof.
  induction fuel as [|fuel IH]; intros cycle_count r; simpl.
  - destruct (stop_flag _); apply kept_refl.
  - destruct (stop_flag (m_polls r)); [apply kept_refl|].
    destruct (run_cycle _ _ _ _ _) as [res r1] eqn:Hc.
    apply run_cycle_spec in Hc as (Hk & _). cbn in Hk.
    destruct res as [n_copied n_skipped|].
    + destruct (stop_flag (m_polls r1)); [done|].
      eapply kept_trans; [exact Hk|].
      match goal with |- context [sync_cycles fuel _ _ _ _ ?c ?x] =>
        eapply kept_trans; [|exact (IH c x)] end.
      match goal with |- context [msleep ?a ?b ?c] =>
        destruct (msleep_spec a b c) as (-> & _) end.
      destruct (0 <? n_copied)%nat; apply kept_refl.
    + destruct (_ <? 0); [done|]. eapply kept_trans; [exact Hk|].
      match goal with |- context [sync_cycles fuel _ _ _ _ ?c ?x] => exact (IH c x) end.
Qed.

(** X27 -- The worker of the mirror stage never removes anything, in
    either mode and however many cycles it runs, whatever the servers
    it meets: every entry of the local tree is still there when it
    stops (or goes on watching), and a directory is still a
    directory. *)
Theorem run_sync_keeps_local (fuel : nat) (srv : nat -> sftp_server) (now : nat -> Z)
    (settings_data : option SftpSettings) (stop_flag : nat -> bool)
    (fl : stage_flags) (r : mirror_state) :
  kept (m_fs r) (m_fs (_run_sync fuel srv now settings_data stop_flag fl r).2).
Proof.
  unfold _run_sync. destruct settings_data as [settings|]; [|apply kept_refl].
  destruct (lock_held fl); [apply kept_refl|].
  destruct (_ =? 0).
  - destruct (run_cycle _ _ _ _ _) as [res r1] eqn:Hc.
    apply run_cycle_spec in Hc as (Hk & _). cbn in Hk.
    destruct res as [n_copied n_skipped|]; [by destruct (0 <? n_copied)%nat | done].
  - match goal with |- context [sync_cycles ?a ?b ?c ?d ?e ?f ?g] =>
      pose proof (sync_cycles_kept b c d e a f g) as Hk;
      destruct (sync_cycles a b c d e f g) as [[] r1] end; exact Hk.
Qed.

Lemma sync_cycles_stops (settings : SftpSettings) (srv : nat -> sftp_server)
    (now : nat -> Z) (stop_flag : nat -> bool) (n : nat) :
  (forall k, (n <= k)%nat -> stop_flag k = true) ->
  forall (fuel cycle_count : nat) r,
  (n < fuel + m_polls r)%nat ->
  (sync_cycles fuel settings srv now stop_flag cycle_count r).1 <> LoopRunning.
Proof.
  intros Hstop. induction fuel as [|fuel IH]; intros cycle_count r Hn; simpl.
  - rewrite Hstop by lia. done.
  - destruct (stop_flag (m_polls r)) eqn:Hf; [done|].
    assert (m_polls r < n)%nat as Hlt.
    { destruct (decide (n <= m_polls r)%nat) as [Hle|]; [|lia].
      rewrite (Hstop _ Hle) in Hf. done. }
    destruct (run_cycle _ _ _ _ _) as [res r1] eqn:Hc.
    apply run_cycle_spec in Hc as (_ & Hp & _). cbn in Hp.
    destruct res as [n_copied n_skipped|].
    + destruct (stop_flag (m_polls r1)); [done|].
      destruct (0 <? n_copied)%nat; apply IH;
        (match goal with |- context [msleep ?a ?b ?c] =>
           destruct (msleep_spec a b c) as (_ & _ & Hs) end);
        cbn in Hs; lia.
    + destruct (_ <? 0); [done|]. apply IH. cbn. lia.
Qed.

(** X28 -- The worker of the mirror stage ends once the stop flag is
    up: if [_stop_requested] reads true from its [n]-th reading on, the
    worker has left [_run_sync] by the time [n + 1] cycles have been
    started. *)
Theorem run_sync_stops (fuel : nat) (srv : nat -> sftp_server) (now : nat -> Z)
    (settings_data : option SftpSettings) (stop_flag : nat -> bool)
    (fl : stage_flags) (r : mirror_state) (n : nat) :
  (forall k, (n <= k)%nat -> stop_flag k = true) ->
  (n < fuel + m_polls r)%nat ->
  (_run_sync fuel srv now settings_data stop_flag fl r).1.1 <> StillWatching.
Proof.
  intros Hstop Hn. unfold _run_sync. destruct settings_data as [settings|]; [|done].
  destruct (lock_held fl); [done|]. destruct (_ =? 0); [done|].
  match goal with |- context [sync_cycles ?a ?b ?c ?d ?e ?f ?g] =>
    pose proof (sync_cycles_stops b c d e n Hstop a f g) as H;
    destruct (sync_cycles a b c d e f g) as [[] r1] end; try done.
  exfalso. apply H; [cbn; lia | done].
Qed.

Lemma run_sync_stops_witness :
  (_run_sync 3 (fun _ => scen_server) (fun _ => scen_now)
     (Some (Settings ["srv"; "data"] "/mirror" None 85 None None 1 10 10)) (stop_from 2)
     idle (MirrorState ∅ [] 0)).1.1 <> StillWatching.
Proof.
  apply (run_sync_stops 3 (fun _ => scen_server) (fun _ => scen_now)
           (Some (Settings ["srv"; "data"] "/mirror" None 85 None None 1 10 10)) (stop_from 2)
           idle (MirrorState ∅ [] 0) 2).
  - intros k Hk. unfold stop_from. by apply Nat.leb_le.
  - cbn. lia.
Defined.

Lemma sync_cycles_down (settings : SftpSettings) (srv : nat -> sftp_server)
    (now : nat -> Z) (stop_flag : nat -> bool) :
  (forall n, stop_flag n = false) ->
  (forall n, connect_ok (srv n) = false) ->
  0 <= sync_interval_seconds settings ->
  forall (fuel cycle_count : nat) r,
  let run := sync_cycles fuel settings srv now stop_flag cycle_count r in
  run.1 = LoopRunning /\ m_fs run.2 = m_fs r
  /\ cycle_errors_of (m_log run.2) = (cycle_errors_of (m_log r) + fuel)%nat.
Proof.
  intros Hnever Hdown Hint. induction fuel as [|fuel IH]; intros cycle_count r; simpl;
    rewrite Hnever.
  - cbn. repeat split. lia.
  - destruct (run_cycle _ _ _ _ _) as [res r1] eqn:Hc.
    apply run_cycle_spec in Hc as (_ & _ & He & Hd). cbn in He.
    destruct (Hd (Hdown _)) as (-> & Hfs & _). cbn in Hfs.
    assert ((sync_interval_seconds settings <? 0) = false) as -> by lia.
    match goal with |- context [sync_cycles fuel _ _ _ _ ?c ?x] =>
      destruct (IH c x) as (H1 & H2 & H3) end.
    cbn in H2, H3. split; [done|]. split; [congruence|].
    rewrite H3, cycle_errors_of_app, He. count_errors. lia.
Qed.

(** X29 -- A server that cannot be reached does not end the continuous
    mode of the mirror stage: as long as no stop is requested, every
    cycle logs its error and the worker goes on to the next one, the
    local tree untouched (the interval not being negative). *)
Theorem run_sync_survives_unreachable_server (fuel : nat) (srv : nat -> sftp_server)
    (now : nat -> Z) (settings : SftpSettings) (stop_flag : nat -> bool)
    (fl : stage_flags) (r : mirror_state) :
  let run := _run_sync fuel srv now (Some settings) stop_flag fl r in
  (forall n, stop_flag n = false) ->
  (forall n, connect_ok (srv n) = false) ->
  0 < sync_interval_seconds settings ->
  lock_held fl = false ->
  run.1.1 = StillWatching
  /\ m_fs run.2 = m_fs r
  /\ cycle_errors_of (m_log run.2) = (cycle_errors_of (m_log r) + fuel)%nat.
Proof.
  intros run Hnever Hdown Hint Hlock. subst run. unfold _run_sync. rewrite Hlock.
  assert ((sync_interval_seconds settings =? 0) = false) as -> by lia.
  match goal with |- context [sync_cycles ?a ?b ?c ?d ?e ?f ?g] =>
    destruct (sync_cycles_down b c d e Hnever Hdown ltac:(lia) a f g) as (H1 & H2 & H3);
    destruct (sync_cycles a b c d e f g) as [le r1] end.
  cbn in H1, H2, H3. subst le. cbn. split; [done|]. split; [done|].
  rewrite H3. count_errors. lia.
Qed.

Lemma run_sync_survives_unreachable_server_witness :
  let run := _run_sync 4 (fun _ => scen_down) (fun _ => scen_now)
               (Some (Settings ["srv"; "data"] "/mirror" None 85 None None 5 10 10))
               never_stop idle (MirrorState synced_local [] 0) in
  run.1.1 = StillWatching
  /\ m_fs run.2 = m_fs (MirrorState synced_local [] 0)
  /\ cycle_errors_of (m_log run.2)
     = (cycle_errors_of (m_log (MirrorState synced_local [] 0)) + 4)%nat.
Proof.
  cbv zeta.
  apply (run_sync_survives_unreachable_server 4 (fun _ => scen_down) (fun _ => scen_now)
           (Settings ["srv"; "data"] "/mirror" None 85 None None 5 10 10) never_stop idle
           (MirrorState synced_local [] 0)); done.
Defined.
